(** * citeable: citation entries, their dict form and the BibTeX parser

    A shallow embedding of [citeable/_entries.py] and [citeable/_parser.py].

    - A Python [str] is a sequence of code points: [str := list N].
    - Attribute values are the dynamically typed values the annotations
      allow: [None], [str], [int] and [list[str]].
    - A [dict] is an association list in insertion order with unique keys.
    - Exceptions are values of [error]; a computation that may raise
      returns a [result].
    - [from_dict] copies and then mutates a dict: dict objects live in a
      store and the functions on them pass the store along. *)

From Stdlib Require Import NArith ZArith List Bool Lia Arith.
From Stdlib Require Import DecimalZ.
From Stdlib Require Strings.Byte.
Import ListNotations.

Set Implicit Arguments.

(** ** Strings *)

Abbreviation char := N (only parsing).
Definition str := list N.

(** String literals: ["abc"%str] is the list of the code points of an
    ASCII literal. *)
Inductive lit := LNil | LCons (c : N) (s : lit).

Fixpoint lit_of_bytes (bs : list Byte.byte) : option lit :=
  match bs with
  | [] => Some LNil
  | b :: bs' =>
      if (Byte.to_N b <? 128)%N
      then option_map (LCons (Byte.to_N b)) (lit_of_bytes bs')
      else None
  end.

Fixpoint bytes_of_lit (s : lit) : option (list Byte.byte) :=
  match s with
  | LNil => Some []
  | LCons c s' =>
      match Byte.of_N c, bytes_of_lit s' with
      | Some b, Some bs => if (c <? 128)%N then Some (b :: bs) else None
      | _, _ => None
      end
  end.

Declare Scope str_scope.
Delimit Scope str_scope with str.
#[warnings="-via-type-remapping,-via-type-mismatch"]
String Notation str lit_of_bytes bytes_of_lit
  (via lit mapping [[nil] => LNil, [cons] => LCons]) : str_scope.
Bind Scope str_scope with str.
Open Scope str_scope.

Fixpoint str_eqb (a b : str) : bool :=
  match a, b with
  | [], [] => true
  | x :: a', y :: b' => (x =? y)%N && str_eqb a' b'
  | _, _ => false
  end.

(** [a < b] on strings: Python compares code point by code point. *)
Fixpoint str_ltb (a b : str) : bool :=
  match a, b with
  | _, [] => false
  | [], _ :: _ => true
  | x :: a', y :: b' =>
      if (x <? y)%N then true else if (y <? x)%N then false else str_ltb a' b'
  end.

Fixpoint take_while (p : char -> bool) (s : str) : str :=
  match s with
  | [] => []
  | c :: s' => if p c then c :: take_while p s' else []
  end.

Fixpoint drop_while (p : char -> bool) (s : str) : str :=
  match s with
  | [] => []
  | c :: s' => if p c then drop_while p s' else s
  end.

(** [s[a:b]] for [0 <= a] and [0 <= b]. *)
Definition slice (s : str) (a b : nat) : str := firstn (b - a) (skipn a s).

Fixpoint starts_with (p s : str) : bool :=
  match p, s with
  | [], _ => true
  | x :: p', y :: s' => (x =? y)%N && starts_with p' s'
  | _ :: _, [] => false
  end.

(** [sep.join(l)] *)
Fixpoint join (sep : str) (l : list str) : str :=
  match l with
  | [] => []
  | [x] => x
  | x :: l' => x ++ sep ++ join sep l'
  end.

(** [c in s] for a one-character [c]. *)
Definition contains (c : char) (s : str) : bool := existsb (N.eqb c) s.

(** [s.find(c)]: the index of the first [c], [None] for Python's -1. *)
Fixpoint find (c : char) (s : str) : option nat :=
  match s with
  | [] => None
  | x :: s' => if (x =? c)%N then Some 0 else option_map S (find c s')
  end.

(** *** Character classes *)

Section Classes.
Local Open Scope N_scope.

(** [Py_UNICODE_ISSPACE]: what [str.strip], [str.split] and the regular
    expression class [\s] call white space. *)
Definition is_space (c : char) : bool :=
  ((9 <=? c) && (c <=? 13)) || ((28 <=? c) && (c <=? 32))
  || (c =? 133) || (c =? 160) || (c =? 5760)
  || ((8192 <=? c) && (c <=? 8202))
  || (c =? 8232) || (c =? 8233) || (c =? 8239) || (c =? 8287) || (c =? 12288).

(** [Py_ISSPACE]: the white space [int()] skips in ASCII text. *)
Definition c_isspace (c : char) : bool :=
  ((9 <=? c) && (c <=? 13)) || (c =? 32).

Definition ascii_isdigit (c : char) : bool := (48 <=? c) && (c <=? 57).
Definition ascii_isupper (c : char) : bool := (65 <=? c) && (c <=? 90).
Definition ascii_islower (c : char) : bool := (97 <=? c) && (c <=? 122).
Definition ascii_isalnum (c : char) : bool :=
  ascii_isdigit c || ascii_isupper c || ascii_islower c.
Definition ascii_lower (c : char) : char :=
  if ascii_isupper c then c + 32 else c.

Definition is_ascii (c : char) : bool := c <? 128.

End Classes.

(** Turn boolean tests on code points into propositions. *)
Ltac bool_to_prop :=
  repeat first
    [ rewrite orb_true_iff | rewrite andb_true_iff
    | rewrite orb_false_iff | rewrite andb_false_iff
    | rewrite negb_true_iff | rewrite negb_false_iff
    | rewrite N.leb_le | rewrite N.eqb_eq | rewrite N.ltb_lt
    | rewrite N.leb_gt | rewrite N.eqb_neq | rewrite N.ltb_ge ].

Ltac bool_to_prop_in H :=
  repeat first
    [ rewrite orb_true_iff in H | rewrite andb_true_iff in H
    | rewrite orb_false_iff in H | rewrite andb_false_iff in H
    | rewrite negb_true_iff in H | rewrite negb_false_iff in H
    | rewrite N.leb_le in H | rewrite N.eqb_eq in H | rewrite N.ltb_lt in H
    | rewrite N.leb_gt in H | rewrite N.eqb_neq in H | rewrite N.ltb_ge in H ].

(** The tables of the Unicode database that the interpreter consults
    beyond ASCII.  They are taken as an interface; the laws record what
    every version of the database satisfies. *)
Class Unicode := {
  (** [Py_UNICODE_ISALNUM] *)
  uni_isalnum : char -> bool;
  (** [Py_UNICODE_TODECIMAL], [None] for -1 *)
  uni_todecimal : char -> option N;
  (** [str.lower] *)
  str_lower : str -> str;
  uni_isalnum_ascii :
    forall c, is_ascii c = true -> uni_isalnum c = ascii_isalnum c;
  uni_isalnum_not_space :
    forall c, uni_isalnum c = true -> is_space c = false;
  str_lower_ascii :
    forall s, forallb is_ascii s = true -> str_lower s = map ascii_lower s
}.

(** The tables that know no letter or digit beyond ASCII. *)
#[refine]
Instance ascii_tables : Unicode := {
  uni_isalnum c := is_ascii c && ascii_isalnum c;
  uni_todecimal c := None;
  str_lower s := map ascii_lower s
}.
Proof.
  - intros c H. now rewrite H.
  - intros c H. apply not_true_iff_false. intro Hs. revert H Hs.
    unfold is_ascii, ascii_isalnum, ascii_isdigit, ascii_isupper,
      ascii_islower, is_space.
    bool_to_prop. lia.
  - reflexivity.
Defined.

(** *** [strip], [split], [lower] and the regular expression classes *)

(** [s.lstrip()], [s.rstrip()], [s.strip()] *)
Definition lstrip (s : str) : str := drop_while is_space s.
Definition rstrip (s : str) : str := rev (drop_while is_space (rev s)).
Definition strip (s : str) : str := rstrip (lstrip s).

(** [s.rstrip(",")] *)
Definition rstrip_comma (s : str) : str :=
  rev (drop_while (N.eqb 44) (rev s)).

(** [s.split()]: the maximal runs of characters that are not white space.
    [cur] is the run being read, last character first. *)
Fixpoint split_ws_from (cur : str) (s : str) : list str :=
  match s with
  | [] => match cur with [] => [] | _ => [rev cur] end
  | c :: s' =>
      if is_space c
      then match cur with
           | [] => split_ws_from [] s'
           | _ => rev cur :: split_ws_from [] s'
           end
      else split_ws_from (c :: cur) s'
  end.

Definition split_ws (s : str) : list str := split_ws_from [] s.

(** [s.split(sep)] for a non-empty [sep]: the occurrences of [sep] are
    taken from the left and do not overlap.  [skip] counts the characters
    of an occurrence that are still to be passed over. *)
Fixpoint split_from (sep : str) (skip : nat) (cur : str) (s : str) : list str :=
  match s with
  | [] => [rev cur]
  | c :: s' =>
      match skip with
      | S k => split_from sep k cur s'
      | O =>
          if starts_with sep s
          then rev cur :: split_from sep (length sep - 1) [] s'
          else split_from sep 0 (c :: cur) s'
      end
  end.

Definition split (sep : str) (s : str) : list str := split_from sep 0 [] s.

(** [\w] of a [str] pattern: [Py_UNICODE_ISALNUM(c) || c == '_']. *)
Definition is_word `{Unicode} (c : char) : bool :=
  uni_isalnum c || (c =? 95)%N.

(** *** [int(s)] and [str(n)] *)

Definition digit_of (c : char) : option (Decimal.uint -> Decimal.uint) :=
  match c with
  | 48 => Some Decimal.D0 | 49 => Some Decimal.D1 | 50 => Some Decimal.D2
  | 51 => Some Decimal.D3 | 52 => Some Decimal.D4 | 53 => Some Decimal.D5
  | 54 => Some Decimal.D6 | 55 => Some Decimal.D7 | 56 => Some Decimal.D8
  | 57 => Some Decimal.D9 | _ => None
  end%N.

(** The digits of an integer literal: decimal digits, with single
    underscores allowed between two digits.  Returns the digits and the
    text after them. *)
Fixpoint scan_digits (s : str) : option (Decimal.uint * str) :=
  match s with
  | [] => None
  | c :: r =>
      match digit_of c with
      | None => None
      | Some d =>
          match r with
          | 95%N :: r' =>
              match scan_digits r' with
              | Some (u, rest) => Some (d u, rest)
              | None => None
              end
          | _ =>
              match scan_digits r with
              | Some (u, rest) => Some (d u, rest)
              | None => Some (d Decimal.Nil, r)
              end
          end
      end
  end.

(** [_PyUnicode_TransformDecimalAndSpaceToASCII], one character: beyond
    ASCII, white space becomes a blank, a decimal digit its ASCII digit
    and anything else a character that no integer literal contains. *)
Definition int_char `{Unicode} (c : char) : char :=
  if (c <? 127)%N then c
  else if is_space c then 32%N
  else match uni_todecimal c with
       | Some d => if (d <? 10)%N then (48 + d)%N else 63%N
       | None => 63%N
       end.

(** The interpreter's limit on the digits of a conversion between [int]
    and [str], as it is set when the interpreter starts. *)
Definition max_str_digits : N := 4300.

(** The digits [u] are within that limit. *)
Definition within_limit (u : Decimal.uint) : bool :=
  (N.of_nat (Decimal.nb_digits u) <=? max_str_digits)%N.

(** [int(s)]; [None] stands for the [ValueError] it raises, for a text
    that is no integer literal and for a literal of more digits than the
    limit. *)
Definition py_int `{Unicode} (s : str) : option Z :=
  let t := drop_while c_isspace (map int_char s) in
  let '(neg, t) :=
    match t with
    | 43%N :: r => (false, r)
    | 45%N :: r => (true, r)
    | _ => (false, t)
    end in
  match scan_digits t with
  | Some (u, rest) =>
      if forallb c_isspace rest && within_limit u
      then Some (Z.of_int (if neg then Decimal.Neg u else Decimal.Pos u))
      else None
  | None => None
  end.

Fixpoint str_of_uint (u : Decimal.uint) : str :=
  match u with
  | Decimal.Nil => []
  | Decimal.D0 u => 48%N :: str_of_uint u
  | Decimal.D1 u => 49%N :: str_of_uint u
  | Decimal.D2 u => 50%N :: str_of_uint u
  | Decimal.D3 u => 51%N :: str_of_uint u
  | Decimal.D4 u => 52%N :: str_of_uint u
  | Decimal.D5 u => 53%N :: str_of_uint u
  | Decimal.D6 u => 54%N :: str_of_uint u
  | Decimal.D7 u => 55%N :: str_of_uint u
  | Decimal.D8 u => 56%N :: str_of_uint u
  | Decimal.D9 u => 57%N :: str_of_uint u
  end.

(** The decimal numeral of an integer, of any length. *)
Definition str_of_int (z : Z) : str :=
  match Z.to_int z with
  | Decimal.Pos u => str_of_uint u
  | Decimal.Neg u => 45%N :: str_of_uint u
  end.


(** ** Values, dicts, errors *)

Inductive val :=
| VNone
| VStr (s : str)
| VInt (z : Z)
| VList (l : list str).

Definition val_eqb (a b : val) : bool :=
  match a, b with
  | VNone, VNone => true
  | VStr s, VStr t => str_eqb s t
  | VInt x, VInt y => (x =? y)%Z
  | VList l, VList m =>
      (length l =? length m)%nat
      && forallb (fun p => str_eqb (fst p) (snd p)) (combine l m)
  | _, _ => false
  end.

Definition is_none (v : val) : bool :=
  match v with VNone => true | _ => false end.

(** A [dict] with [str] keys, in insertion order. *)
Definition dict (A : Type) := list (str * A).

Fixpoint dict_get {A} (d : dict A) (k : str) : option A :=
  match d with
  | [] => None
  | (k', v) :: d' => if str_eqb k k' then Some v else dict_get d' k
  end.

(** [d[k] = v]: an existing key keeps its place. *)
Fixpoint dict_set {A} (d : dict A) (k : str) (v : A) : dict A :=
  match d with
  | [] => [(k, v)]
  | (k', v') :: d' =>
      if str_eqb k k' then (k', v) :: d' else (k', v') :: dict_set d' k v
  end.

Fixpoint dict_del {A} (d : dict A) (k : str) : dict A :=
  match d with
  | [] => []
  | (k', v') :: d' => if str_eqb k k' then d' else (k', v') :: dict_del d' k
  end.

Definition dict_keys {A} (d : dict A) : list str := map fst d.

(** [d.update(e)] *)
Definition dict_update {A} (d e : dict A) : dict A :=
  fold_left (fun acc kv => dict_set acc (fst kv) (snd kv)) e d.

Definition mem (k : str) (l : list str) : bool := existsb (str_eqb k) l.

(** Why a constructor rejects its arguments; all are [ValueError]s. *)
Inductive invalid :=
| FieldRequired (name cls : str)      (* [require_field] *)
| AuthorsEmpty (cls : str)            (* [require_non_empty_authors] *)
| ThesisTypeInvalid (v : val)         (* "must be 'phd' or 'masters'" *)
| PagesOrArticleNumber.               (* "both are None" *)

Inductive error :=
| NoEntryFound                        (* "No BibTeX entry found" *)
| MultipleEntriesFound                (* "Multiple BibTeX entries found" *)
| UnsupportedEntryType (tok : str)    (* "Unsupported BibTeX entry type" *)
| NumericFieldParseError              (* [int()] on text that is no integer *)
| SubstringNotFound                   (* [str.index] without an occurrence *)
| InvalidEntry (why : invalid)        (* raised by a constructor's checks *)
| ArgumentMissing (name : str)        (* [TypeError] of the call itself *)
| ArgumentUnexpected                  (* [TypeError] of the call itself *)
| MissingTypeDiscriminator            (* "dict is missing required 'type' key" *)
| UnknownType (v : val)               (* "unknown citation type" *)
| IntegerTooLong                      (* [str()] of an [int] beyond the limit *)
| IllTyped.                           (* a value outside its annotation *)

Inductive result (A : Type) :=
| Ok (a : A)
| Err (e : error).
Arguments Ok {A} a.
Arguments Err {A} e.

Definition bind {A B} (r : result A) (f : A -> result B) : result B :=
  match r with
  | Ok a => f a
  | Err e => Err e
  end.

Declare Scope result_scope.
Delimit Scope result_scope with result.
Notation "x <- r ;; k" := (bind r (fun x => k))
  (at level 61, r at next level, right associativity) : result_scope.
Notation "r ;;; k" := (bind r (fun _ => k))
  (at level 61, right associativity) : result_scope.
Open Scope result_scope.

(** ** [citeable._validate] and [citeable._keys] *)

(** Modelled from the spec: [require_field] of [citeable/_validate.py] is
    not among the sources.  The spec has the constructors fail when a
    required field is missing or empty: a value is missing when it is
    [None] and empty when it is the empty string. *)
Definition missing_or_empty (v : val) : bool :=
  match v with
  | VNone => true
  | VStr [] => true
  | _ => false
  end.

Definition require_field (value : val) (name cls : str) : result unit :=
  if missing_or_empty value
  then Err (InvalidEntry (FieldRequired name cls))
  else Ok tt.

(** Modelled from the spec: [require_non_empty_authors] of
    [citeable/_validate.py] is not among the sources.  The spec has the
    constructors fail when [author] is empty. *)
Definition authors_empty (author : val) : bool :=
  match author with
  | VNone => true
  | VStr [] => true
  | VList [] => true
  | _ => false
  end.

Definition require_non_empty_authors (author : val) (cls : str) : result unit :=
  if authors_empty author
  then Err (InvalidEntry (AuthorsEmpty cls))
  else Ok tt.

(** Modelled from the spec: [extract_surname] of [citeable/_validate.py]
    is not among the sources.  The surname is the text before the first
    comma of a name in the form Surname, Given; else the last token
    separated by white space; else, for a single token, the whole name. *)
Definition extract_surname (name : str) : str :=
  match find 44%N name with
  | Some i => firstn i name
  | None => last (split_ws name) name
  end.

(** Modelled from the spec: [generate_key] of [citeable/_keys.py] is not
    among the sources.  It takes the surname of the first author and the
    year and joins them with a full stop.  The constructors call it after
    the author check, on a list that has a first author. *)
Definition generate_key (authors : list str) (year : Z) : str :=
  extract_surname (hd [] authors) ++ "." ++ str_of_int year.

(** ** [citeable._entries] *)

Inductive variant :=
| Article | Book | InProceedings | TechReport | Thesis | Software | Misc.

Definition variant_eqb (a b : variant) : bool :=
  match a, b with
  | Article, Article | Book, Book | InProceedings, InProceedings
  | TechReport, TechReport | Thesis, Thesis | Software, Software
  | Misc, Misc => true
  | _, _ => false
  end.

(** [type(self).__name__] *)
Definition class_name (c : variant) : str :=
  match c with
  | Article => "Article"
  | Book => "Book"
  | InProceedings => "InProceedings"
  | TechReport => "TechReport"
  | Thesis => "Thesis"
  | Software => "Software"
  | Misc => "Misc"
  end.

(** An entry object: its class and [vars(self)], the attributes in the
    order in which [__init__] assigns them. *)
Record entry := { cls : variant; vars : dict val }.

Definition attr (e : entry) (name : str) : val :=
  match dict_get (vars e) name with
  | Some v => v
  | None => VNone
  end.

(** *** Calling a constructor with keyword arguments *)

(** A parameter without a default must be given. *)
Definition arg (kw : dict val) (name : str) : result val :=
  match dict_get kw name with
  | Some v => Ok v
  | None => Err (ArgumentMissing name)
  end.

(** The value of a parameter once the call is bound: the keyword, or
    the default [None]. *)
Definition opt (kw : dict val) (name : str) : val :=
  match dict_get kw name with
  | Some v => v
  | None => VNone
  end.

(** Every keyword must name a parameter. *)
Definition check_names (params : list str) (kw : dict val) : result unit :=
  if forallb (fun k => mem k params) (dict_keys kw)
  then Ok tt
  else Err ArgumentUnexpected.

(** [key if key is not None else generate_key(author, year)] *)
Definition default_key (key author year : val) : result val :=
  match key with
  | VNone =>
      match author, year with
      | VList l, VInt y => Ok (VStr (generate_key l y))
      | _, _ => Err IllTyped
      end
  | _ => Ok key
  end.

(** [_init_base]: the attributes it sets, in order. *)
Definition _init_base (name : str)
    (author title year doi url note key app : val) : result (dict val) :=
  require_non_empty_authors author name ;;;
  k <- default_key key author year ;;
  Ok [("author", author); ("title", title); ("year", year);
      ("doi", doi); ("url", url); ("note", note);
      ("key", k); ("app", app)].

Definition common_params : list str :=
  ["author"; "title"; "year"; "doi"; "url"; "note"; "key"; "app"].

(** The call of [_init_base] that every [__init__] makes. *)
Definition init_common (name : str) (kw : dict val) : result (dict val) :=
  _init_base name (opt kw "author") (opt kw "title") (opt kw "year")
    (opt kw "doi") (opt kw "url") (opt kw "note") (opt kw "key")
    (opt kw "app").

(** The parameters that a class adds to the common ones. *)
Definition own_params (c : variant) : list str :=
  match c with
  | Article => ["journal"; "volume"; "pages"; "article_number"; "number"]
  | Book => ["publisher"; "edition"; "editor"]
  | InProceedings => ["booktitle"; "pages"; "publisher"; "editor"]
  | TechReport => ["institution"; "number"]
  | Thesis => ["school"; "thesis_type"]
  | Software => ["publisher"; "version"; "license"]
  | Misc => []
  end.

Definition params (c : variant) : list str := common_params ++ own_params c.

(** The parameters without a default. *)
Definition required_params (c : variant) : list str :=
  ["author"; "title"; "year"] ++
  match c with
  | Article => ["journal"; "volume"]
  | Book => ["publisher"]
  | InProceedings => ["booktitle"]
  | TechReport => ["institution"]
  | Thesis => ["school"; "thesis_type"]
  | Software | Misc => []
  end.

(** Binding the keywords to the parameters of [c.__init__]. *)
Definition bind_args (c : variant) (kw : dict val) : result unit :=
  check_names (params c) kw ;;;
  fold_right (fun p k => arg kw p ;;; k) (Ok tt) (required_params c).

Definition Article__init__ (kw : dict val) : result entry :=
  bind_args Article kw ;;;
  let journal := opt kw "journal" in
  let volume := opt kw "volume" in
  let pages := opt kw "pages" in
  let article_number := opt kw "article_number" in
  let number := opt kw "number" in
  require_field journal "journal" "Article" ;;;
  require_field volume "volume" "Article" ;;;
  if is_none pages && is_none article_number
  then Err (InvalidEntry PagesOrArticleNumber)
  else
    base <- init_common "Article" kw ;;
    Ok {| cls := Article;
          vars := base ++ [("journal", journal); ("volume", volume);
                           ("pages", pages);
                           ("article_number", article_number);
                           ("number", number)] |}.

Definition Book__init__ (kw : dict val) : result entry :=
  bind_args Book kw ;;;
  let publisher := opt kw "publisher" in
  require_field publisher "publisher" "Book" ;;;
  base <- init_common "Book" kw ;;
  Ok {| cls := Book;
        vars := base ++ [("publisher", publisher);
                         ("edition", opt kw "edition");
                         ("editor", opt kw "editor")] |}.

Definition InProceedings__init__ (kw : dict val) : result entry :=
  bind_args InProceedings kw ;;;
  let booktitle := opt kw "booktitle" in
  require_field booktitle "booktitle" "InProceedings" ;;;
  base <- init_common "InProceedings" kw ;;
  Ok {| cls := InProceedings;
        vars := base ++ [("booktitle", booktitle);
                         ("pages", opt kw "pages");
                         ("publisher", opt kw "publisher");
                         ("editor", opt kw "editor")] |}.

Definition TechReport__init__ (kw : dict val) : result entry :=
  bind_args TechReport kw ;;;
  let institution := opt kw "institution" in
  require_field institution "institution" "TechReport" ;;;
  base <- init_common "TechReport" kw ;;
  Ok {| cls := TechReport;
        vars := base ++ [("institution", institution);
                         ("number", opt kw "number")] |}.

(** [thesis_type in ("phd", "masters")] *)
Definition is_thesis_type (v : val) : bool :=
  match v with
  | VStr s => str_eqb s "phd" || str_eqb s "masters"
  | _ => false
  end.

Definition Thesis__init__ (kw : dict val) : result entry :=
  bind_args Thesis kw ;;;
  let school := opt kw "school" in
  let thesis_type := opt kw "thesis_type" in
  require_field school "school" "Thesis" ;;;
  require_field thesis_type "thesis_type" "Thesis" ;;;
  if negb (is_thesis_type thesis_type)
  then Err (InvalidEntry (ThesisTypeInvalid thesis_type))
  else
    base <- init_common "Thesis" kw ;;
    Ok {| cls := Thesis;
          vars := base ++ [("school", school);
                           ("thesis_type", thesis_type)] |}.

Definition Software__init__ (kw : dict val) : result entry :=
  bind_args Software kw ;;;
  base <- init_common "Software" kw ;;
  Ok {| cls := Software;
        vars := base ++ [("publisher", opt kw "publisher");
                         ("version", opt kw "version");
                         ("license", opt kw "license")] |}.

Definition Misc__init__ (kw : dict val) : result entry :=
  bind_args Misc kw ;;;
  base <- init_common "Misc" kw ;;
  Ok {| cls := Misc; vars := base |}.

(** The call of the class [c] with the keywords [kw]. *)
Definition new (c : variant) (kw : dict val) : result entry :=
  match c with
  | Article => Article__init__ kw
  | Book => Book__init__ kw
  | InProceedings => InProceedings__init__ kw
  | TechReport => TechReport__init__ kw
  | Thesis => Thesis__init__ kw
  | Software => Software__init__ kw
  | Misc => Misc__init__ kw
  end.

(** An entry that some constructor call returned. *)
Definition constructed (e : entry) : Prop :=
  exists kw, new (cls e) kw = Ok e.

(** *** Equality and hash *)

(** What [_content_fields] collects: a list attribute as a tuple. *)
Inductive cval :=
| CNone
| CStr (s : str)
| CInt (z : Z)
| CTuple (l : list str).

(** [tuple(v) if isinstance(v, list) else v] *)
Definition content_value (v : val) : cval :=
  match v with
  | VNone => CNone
  | VStr s => CStr s
  | VInt z => CInt z
  | VList l => CTuple l
  end.

Fixpoint strs_eqb (l m : list str) : bool :=
  match l, m with
  | [], [] => true
  | x :: l', y :: m' => str_eqb x y && strs_eqb l' m'
  | _, _ => false
  end.

Definition cval_eqb (a b : cval) : bool :=
  match a, b with
  | CNone, CNone => true
  | CStr s, CStr t => str_eqb s t
  | CInt x, CInt y => (x =? y)%Z
  | CTuple l, CTuple m => strs_eqb l m
  | _, _ => false
  end.

Fixpoint cvals_eqb (l m : list cval) : bool :=
  match l, m with
  | [], [] => true
  | x :: l', y :: m' => cval_eqb x y && cvals_eqb l' m'
  | _, _ => false
  end.

(** [sorted(d.items())]: the keys of a dict differ, so the order of the
    items is the order of their keys. *)
Fixpoint insert_item {A} (kv : str * A) (l : dict A) : dict A :=
  match l with
  | [] => [kv]
  | x :: l' =>
      if str_ltb (fst x) (fst kv) then x :: insert_item kv l' else kv :: l
  end.

Definition sorted_items {A} (d : dict A) : dict A :=
  fold_right insert_item [] d.

Definition _EXCLUDED : list str := ["key"; "app"].

Definition _content_fields (obj : entry) (exclude : list str) : list cval :=
  map (fun kv => content_value (snd kv))
      (filter (fun kv => negb (mem (fst kv) exclude)) (sorted_items (vars obj))).

(** What [__eq__] returns. *)
Inductive eq_result :=
| EqBool (b : bool)
| NotImplemented.

(** [CitationBase.__eq__].  The first test, [self is other], returns
    [True] where the comparison of the content fields does too. *)
Definition __eq__ (self other : entry) : eq_result :=
  if negb (variant_eqb (cls self) (cls other))
  then NotImplemented
  else EqBool (cvals_eqb (_content_fields self _EXCLUDED)
                         (_content_fields other _EXCLUDED)).

(** [a == b]: when both [a.__eq__(b)] and [b.__eq__(a)] return
    [NotImplemented] the objects are compared by identity, and two
    objects of different classes are not the same object. *)
Definition py_eq (a b : entry) : bool :=
  match __eq__ a b with
  | EqBool r => r
  | NotImplemented =>
      match __eq__ b a with
      | EqBool r => r
      | NotImplemented => false
      end
  end.

(** [CitationBase.__hash__], over the interpreter's [hash] of a tuple. *)
Definition __hash__ (hash : str * list cval -> Z) (self : entry) : Z :=
  hash (class_name (cls self), _content_fields self _EXCLUDED).

(** *** [summary] *)







(** *** Rendering as BibTeX *)

(** [f"{name:<10}"] *)
Definition pad10 (name : str) : str :=
  name ++ repeat 32%N (10 - length name).

Definition _format_bibtex_field (name value : str) : str :=
  "  " ++ pad10 name ++ "= {" ++ value ++ "},".












(** *** The dict form *)

(** Dict objects are mutable and shared: they live in a store and are
    passed by reference.  A reference handed to a function names an
    object of the store. *)
Definition ref := nat.
Definition store := list (dict val).

Definition M (A : Type) := store -> result A * store.

Definition ret {A} (a : A) : M A := fun h => (Ok a, h).
Definition raise {A} (e : error) : M A := fun h => (Err e, h).
Definition lift {A} (r : result A) : M A := fun h => (r, h).
Definition bindM {A B} (m : M A) (f : A -> M B) : M B :=
  fun h =>
    match m h with
    | (Ok a, h') => f a h'
    | (Err e, h') => (Err e, h')
    end.

Notation "x <~ m ;; k" := (bindM m (fun x => k))
  (at level 61, m at next level, right associativity) : result_scope.

Fixpoint store_update (h : store) (r : ref) (d : dict val) : store :=
  match h, r with
  | [], _ => []
  | _ :: h', O => d :: h'
  | x :: h', S r' => x :: store_update h' r' d
  end.

(** A new object. *)
Definition alloc (d : dict val) : M ref :=
  fun h => (Ok (length h), h ++ [d]).

(** The content of the object behind [r]. *)
Definition load (r : ref) : M (dict val) :=
  fun h => (Ok (nth r h []), h).

(** Overwriting the object behind [r]. *)
Definition store_dict (r : ref) (d : dict val) : M unit :=
  fun h => (Ok tt, store_update h r d).

(** [dict(data)] *)
Definition dict_copy (data : ref) : M ref :=
  d <~ load data ;; alloc d.

(** [data.pop(k, default)] *)
Definition dict_pop (data : ref) (k : str) (default : val) : M val :=
  d <~ load data ;;
  match dict_get d k with
  | Some v => _ <~ store_dict data (dict_del d k) ;; ret v
  | None => ret default
  end.

(** [CitationBase.to_dict]: a new dict, the type first. *)
Definition to_dict (self : entry) : M ref :=
  alloc (dict_update [("type", VStr (class_name (cls self)))] (vars self)).

Definition _ENTRY_TYPES : dict variant :=
  [("Article", Article); ("Book", Book); ("InProceedings", InProceedings);
   ("TechReport", TechReport); ("Thesis", Thesis); ("Software", Software);
   ("Misc", Misc)].

(** [_ENTRY_TYPES.get(str(type_name))]: the [str()] of a value that is
    no [str] is not the name of a class. *)
Definition entry_type_of (type_name : val) : option variant :=
  match type_name with
  | VStr s => dict_get _ENTRY_TYPES s
  | _ => None
  end.

(** [CitationBase.from_dict] *)
Definition from_dict (data : ref) : M entry :=
  data <~ dict_copy data ;;
  type_name <~ dict_pop data "type" VNone ;;
  if is_none type_name then raise MissingTypeDiscriminator
  else
    match entry_type_of type_name with
    | None => raise (UnknownType type_name)
    | Some entry_cls => kw <~ load data ;; lift (new entry_cls kw)
    end.

(** ** [citeable._parser] *)

Section Parser.
Context {U : Unicode}.

(** A match object: group 1, [m.start()] and [m.end()]. *)
Definition re_match := (str * nat * nat)%type.

(** [_ENTRY_START_RE], the pattern [@(\w+)\s*\{], tried at the head of
    [s]: group 1 and the length of the match.  Both runs are the longest
    ones: a word character is neither white space nor a brace and white
    space is no brace, so giving back a character cannot help. *)
Definition match_entry_start (s : str) : option (str * nat) :=
  match s with
  | 64%N :: r =>
      let w := take_while is_word r in
      match w with
      | [] => None
      | _ =>
          let r1 := drop_while is_word r in
          let sp := take_while is_space r1 in
          match drop_while is_space r1 with
          | 123%N :: _ => Some (w, 1 + length w + length sp + 1)
          | _ => None
          end
      end
  | _ => None
  end.

(** [_ENTRY_START_RE.finditer(bibtex)] from position [pos], where [s] is
    the text from [pos] on and [skip] counts the characters of the last
    match that are still ahead. *)
Fixpoint finditer_entry_start (s : str) (pos skip : nat) : list re_match :=
  match s with
  | [] => []
  | _ :: s' =>
      match skip with
      | S k => finditer_entry_start s' (S pos) k
      | O =>
          match match_entry_start s with
          | Some (w, n) =>
              (w, pos, pos + n) :: finditer_entry_start s' (S pos) (n - 1)
          | None => finditer_entry_start s' (S pos) 0
          end
      end
  end.

(** The [while] loop of [_extract_entries]: [s] is [bibtex[pos:]]; the
    result is the final [pos]. *)
Fixpoint scan_braces (s : str) (pos : nat) (depth : Z) : nat :=
  match s with
  | [] => pos
  | c :: s' =>
      if (depth >? 0)%Z
      then
        scan_braces s' (S pos)
          (if (c =? 123)%N then depth + 1
           else if (c =? 125)%N then depth - 1 else depth)%Z
      else pos
  end.

(** The body of the [for] loop of [_extract_entries]. *)
Definition extract_entry (bibtex : str) (m : re_match) : str * str * str :=
  let '(entry_type, _, start) := m in
  let pos := scan_braces (skipn start bibtex) start 1 in
  let body := slice bibtex start (pos - 1) in
  match find 44%N body with
  | None => (entry_type, strip body, [])
  | Some comma_idx =>
      (entry_type, strip (firstn comma_idx body), skipn (comma_idx + 1) body)
  end.

Definition _extract_entries (bibtex : str) : list (str * str * str) :=
  map (extract_entry bibtex) (finditer_entry_start bibtex 0 0).

Definition _normalise_author (name : str) : str :=
  let name := strip name in
  if contains 44%N name then name
  else
    let parts := split_ws name in
    if (length parts <=? 1)%nat then name
    else last parts [] ++ ", " ++ join " " (removelast parts).

Definition _parse_authors (raw : str) : list str :=
  map _normalise_author (split " and " raw).

(** [_FIELD_START_RE], the pattern [^\s*(\w+)\s*=\s*], tried at the head
    of [s], a start of a line: group 1 and the length of the match.  The
    runs are the longest ones, as for [match_entry_start]. *)
Definition match_field_start (s : str) : option (str * nat) :=
  let sp1 := take_while is_space s in
  let r1 := drop_while is_space s in
  let w := take_while is_word r1 in
  match w with
  | [] => None
  | _ =>
      let r2 := drop_while is_word r1 in
      let sp2 := take_while is_space r2 in
      match drop_while is_space r2 with
      | 61%N :: r3 =>
          let sp3 := take_while is_space r3 in
          Some (w, length sp1 + length w + length sp2 + 1 + length sp3)
      | _ => None
      end
  end.

(** [_FIELD_START_RE.finditer(body)]; [bol] tells whether the position is
    the start of a line, the one place where [^] matches. *)
Fixpoint finditer_field_start (s : str) (pos skip : nat) (bol : bool)
  : list re_match :=
  match s with
  | [] => []
  | c :: s' =>
      let bol' := (c =? 10)%N in
      match skip with
      | S k => finditer_field_start s' (S pos) k bol'
      | O =>
          match (if bol then match_field_start s else None) with
          | Some (w, n) =>
              (w, pos, pos + n) :: finditer_field_start s' (S pos) (n - 1) bol'
          | None => finditer_field_start s' (S pos) 0 bol'
          end
      end
  end.

(** The [for] loop of the braced case of [_extract_value]: the index at
    which [depth] returns to 0. *)
Fixpoint close_brace (s : str) (i : nat) (depth : Z) : option nat :=
  match s with
  | [] => None
  | ch :: s' =>
      if (ch =? 123)%N then close_brace s' (S i) (depth + 1)%Z
      else if (ch =? 125)%N then
        if (depth - 1 =? 0)%Z then Some i
        else close_brace s' (S i) (depth - 1)%Z
      else close_brace s' (S i) depth
  end.

Definition _extract_value (raw : str) : result str :=
  let raw := strip raw in
  if starts_with "{" raw then
    match close_brace raw 0 0 with
    | Some i => Ok (slice raw 1 i)
    | None => Ok raw
    end
  else if starts_with [34%N] raw then
    match find 34%N (skipn 1 raw) with
    | Some j => Ok (slice raw 1 (1 + j))
    | None => Err SubstringNotFound
    end
  else Ok (strip (rstrip_comma raw)).

(** The [for] loop of [_parse_fields] over the matches. *)
Fixpoint parse_matches (body : str) (matches : list re_match)
    (fields : dict str) : result (dict str) :=
  match matches with
  | [] => Ok fields
  | (w, _, val_start) :: rest =>
      let val_end :=
        match rest with
        | (_, next_start, _) :: _ => next_start
        | [] => length body
        end in
      v <- _extract_value (slice body val_start val_end) ;;
      parse_matches body rest (dict_set fields (str_lower w) v)
  end.

Definition _parse_fields (body : str) : result (dict str) :=
  parse_matches body (finditer_field_start body 0 0 true) [].

(** [if name in fields: kwargs[name] = fields[name]] *)
Definition copy_field (fields : dict str) (name : str) (kwargs : dict val)
  : dict val :=
  match dict_get fields name with
  | Some v => dict_set kwargs name (VStr v)
  | None => kwargs
  end.

(** [if name in fields: kwargs[name] = int(fields[name])] *)
Definition copy_int_field (fields : dict str) (name : str)
    (kwargs : dict val) : result (dict val) :=
  match dict_get fields name with
  | Some v =>
      match py_int v with
      | Some z => Ok (dict_set kwargs name (VInt z))
      | None => Err NumericFieldParseError
      end
  | None => Ok kwargs
  end.

(** [if name in fields: kwargs[name] = _parse_authors(fields[name])] *)
Definition copy_authors_field (fields : dict str) (name : str)
    (kwargs : dict val) : dict val :=
  match dict_get fields name with
  | Some v => dict_set kwargs name (VList (_parse_authors v))
  | None => kwargs
  end.

Definition _common_kwargs (fields : dict str) (cite_key : str)
  : result (dict val) :=
  let kwargs := [("key", VStr cite_key)] in
  let kwargs := copy_authors_field fields "author" kwargs in
  let kwargs := copy_field fields "title" kwargs in
  kwargs <- copy_int_field fields "year" kwargs ;;
  Ok (fold_left (fun kw name => copy_field fields name kw)
                ["doi"; "url"; "note"] kwargs).

Definition _article_kwargs (fields : dict str) : result (dict val) :=
  let kwargs := copy_field fields "journal" [] in
  kwargs <- copy_int_field fields "volume" kwargs ;;
  let kwargs := copy_field fields "pages" kwargs in
  let kwargs := copy_field fields "article_number" kwargs in
  copy_int_field fields "number" kwargs.

Definition _book_kwargs (fields : dict str) : result (dict val) :=
  let kwargs := copy_field fields "publisher" [] in
  let kwargs := copy_field fields "edition" kwargs in
  Ok (copy_authors_field fields "editor" kwargs).

Definition _inproceedings_kwargs (fields : dict str) : result (dict val) :=
  let kwargs := copy_field fields "booktitle" [] in
  let kwargs := copy_field fields "pages" kwargs in
  let kwargs := copy_field fields "publisher" kwargs in
  Ok (copy_authors_field fields "editor" kwargs).

Definition _techreport_kwargs (fields : dict str) : result (dict val) :=
  let kwargs := copy_field fields "institution" [] in
  Ok (copy_field fields "number" kwargs).

Definition _thesis_kwargs (fields : dict str) (entry_type : str)
  : result (dict val) :=
  let kwargs := copy_field fields "school" [] in
  Ok (dict_set kwargs "thesis_type"
        (VStr (if str_eqb entry_type "phdthesis" then "phd" else "masters"))).

Definition _software_kwargs (fields : dict str) : result (dict val) :=
  Ok (fold_left (fun kw name => copy_field fields name kw)
                ["publisher"; "version"; "license"] []).

Definition _TYPE_MAP : dict variant :=
  [("article", Article); ("book", Book); ("inproceedings", InProceedings);
   ("techreport", TechReport); ("phdthesis", Thesis);
   ("mastersthesis", Thesis); ("software", Software); ("misc", Misc)].

(** [_TYPE_KWARGS], with [None] for the classes it does not list. *)
Definition _TYPE_KWARGS (c : variant)
  : option (dict str -> result (dict val)) :=
  match c with
  | Article => Some _article_kwargs
  | Book => Some _book_kwargs
  | InProceedings => Some _inproceedings_kwargs
  | TechReport => Some _techreport_kwargs
  | Software => Some _software_kwargs
  | Thesis | Misc => None
  end.

(** The keywords that the type adds to the common ones. *)
Definition type_kwargs (c : variant) (fields : dict str) (entry_type : str)
  : result (dict val) :=
  match c with
  | Thesis => _thesis_kwargs fields entry_type
  | _ =>
      match _TYPE_KWARGS c with
      | Some f => f fields
      | None => Ok []
      end
  end.

Definition from_bibtex_string (bibtex : str) : result entry :=
  match _extract_entries bibtex with
  | [] => Err NoEntryFound
  | _ :: _ :: _ => Err MultipleEntriesFound
  | [(entry_type_raw, cite_key, body)] =>
      let entry_type := str_lower entry_type_raw in
      match dict_get _TYPE_MAP entry_type with
      | None => Err (UnsupportedEntryType entry_type)
      | Some c =>
          fields <- _parse_fields body ;;
          kwargs <- _common_kwargs fields cite_key ;;
          extra <- type_kwargs c fields entry_type ;;
          new c (dict_update kwargs extra)
      end
  end.

End Parser.

(** ** The tests of the repository, run on the model *)

Definition nl : str := [10%N].

Definition techreport_text : str :=
  nl ++ "@techreport{Turing.1936," ++ nl
  ++ "  author      = {Turing, Alan}," ++ nl
  ++ "  title       = {On Computable Numbers}," ++ nl
  ++ "  institution = {Cambridge}," ++ nl
  ++ "  year        = {1936}," ++ nl
  ++ "  number      = {TR-42}," ++ nl
  ++ "}" ++ nl.

Definition techreport_entry : entry :=
  {| cls := TechReport;
     vars := [("author", VList ["Turing, Alan"]);
              ("title", VStr "On Computable Numbers");
              ("year", VInt 1936); ("doi", VNone); ("url", VNone);
              ("note", VNone); ("key", VStr "Turing.1936"); ("app", VNone);
              ("institution", VStr "Cambridge");
              ("number", VStr "TR-42")] |}.

(** ** What the properties are stated with *)

(** The fields that the table of variants lists as required beyond the
    common ones. *)
Definition required_fields (c : variant) : list str :=
  match c with
  | Article => ["journal"; "volume"]
  | Book => ["publisher"]
  | InProceedings => ["booktitle"]
  | TechReport => ["institution"]
  | Thesis => ["school"; "thesis_type"]
  | Software | Misc => []
  end.

(** The four reasons for which a constructor rejects its arguments: a
    required field is missing or empty, the author list is empty, a
    thesis has a type other than phd and masters, an article has neither
    pages nor an article number. *)
Definition violation (c : variant) (kw : dict val) : bool :=
  existsb (fun name => missing_or_empty (opt kw name)) (required_fields c)
  || authors_empty (opt kw "author")
  || match c with
     | Thesis => negb (is_thesis_type (opt kw "thesis_type"))
     | Article =>
         is_none (opt kw "pages") && is_none (opt kw "article_number")
     | _ => false
     end.

(** The four reasons for which the specification has a constructor
    reject its arguments, on the values that the call binds: a required
    field is [None] or the empty text, there is no author, a thesis has a
    type other than phd and masters, an article has neither pages nor an
    article number. *)
Definition rejected (c : variant) (kw : dict val) : Prop :=
  (exists n, In n (required_fields c)
             /\ (opt kw n = VNone \/ opt kw n = VStr ""))
  \/ (opt kw "author" = VNone \/ opt kw "author" = VStr ""
      \/ opt kw "author" = VList [])
  \/ (c = Thesis /\ opt kw "thesis_type" <> VStr "phd"
      /\ opt kw "thesis_type" <> VStr "masters")
  \/ (c = Article /\ opt kw "pages" = VNone
      /\ opt kw "article_number" = VNone).

(** The call binds: every keyword names a parameter and every parameter
    without a default is given. *)
Definition binds (c : variant) (kw : dict val) : Prop :=
  (forall k, In k (dict_keys kw) -> In k (params c))
  /\ forall p, In p (required_params c) -> dict_get kw p <> None.

(** A key can be made: one is given, or there are an author list and an
    integer year to derive it from. *)
Definition key_available (kw : dict val) : Prop :=
  opt kw "key" = VNone ->
  exists l y, opt kw "author" = VList l /\ opt kw "year" = VInt y.

(** The attributes of an entry of class [c] made from the keywords [kw]
    with the key [k]. *)
Definition entry_of (c : variant) (kw : dict val) (k : val) : entry :=
  {| cls := c;
     vars := [("author", opt kw "author"); ("title", opt kw "title");
              ("year", opt kw "year"); ("doi", opt kw "doi");
              ("url", opt kw "url"); ("note", opt kw "note");
              ("key", k); ("app", opt kw "app")]
             ++ map (fun name => (name, opt kw name)) (own_params c) |}.

(** Keywords and a text for the checks of the constructors and of the
    cite key. *)
Definition misc_kwargs : dict val :=
  [("author", VList ["Smith, A"]); ("title", VStr "Something");
   ("year", VInt 2024); ("key", VStr "")].

(** Calls that the constructors refuse. *)
Definition no_journal_kwargs : dict val :=
  [("author", VList ["Huttley, Gavin"]); ("title", VStr "diverse-seq");
   ("year", VInt 2025); ("volume", VInt 10); ("pages", VStr "7765")].

Definition no_pages_kwargs : dict val :=
  [("author", VList ["Huttley, Gavin"]); ("title", VStr "diverse-seq");
   ("year", VInt 2025); ("journal", VStr "JOSS"); ("volume", VInt 10)].

Definition degree_kwargs : dict val :=
  [("author", VList ["Smith, A"]); ("title", VStr "Something");
   ("year", VInt 2024); ("school", VStr "ANU");
   ("thesis_type", VStr "masters-degree")].

Definition no_author_kwargs : dict val :=
  [("author", VList []); ("title", VStr "Something"); ("year", VInt 2024)].

Definition no_publisher_kwargs : dict val :=
  [("author", VList ["Smith, A"]); ("title", VStr "Something");
   ("year", VInt 2024); ("publisher", VStr "")].

Definition empty_key_text : str :=
  "@misc{," ++ nl
  ++ "  author = {Smith, A}," ++ nl
  ++ "  title  = {Something}," ++ nl
  ++ "  year   = {2024}," ++ nl
  ++ "}".

(** Two articles that differ in key and app only. *)
Definition article_kwargs (key app : val) : dict val :=
  [("author", VList ["Huttley, Gavin"]); ("title", VStr "diverse-seq");
   ("year", VInt 2025); ("journal", VStr "JOSS"); ("volume", VInt 10);
   ("pages", VStr "7765"); ("key", key); ("app", app)].

Definition article_a : entry :=
  entry_of Article (article_kwargs (VStr "custom.key") (VStr "diverse-seq"))
    (VStr "custom.key").

Definition article_b : entry :=
  entry_of Article (article_kwargs VNone VNone) (VStr "Huttley.2025").

(** The second article with a note. *)
Definition article_noted : entry :=
  entry_of Article (("note", VStr "In press") :: article_kwargs VNone VNone)
    (VStr "Huttley.2025").




(** The normalisation of a name as the specification words it: a name
    with a comma is left as it is, a name of two or more tokens becomes
    the last token, a comma and the other tokens, and any other name is
    kept. *)
Definition spec_normalise_author (name : str) : str :=
  if contains 44%N name then name
  else
    let parts := split_ws name in
    if (2 <=? length parts)%nat
    then last parts [] ++ ", " ++ join " " (removelast parts)
    else name.

Definition spec_parse_authors (raw : str) : list str :=
  map spec_normalise_author (split " and " raw).

(** An author field with two blanks before the separator. *)
Definition two_blanks : str := "Smith, John  and Doe, Jane".

(** The fields that the parser converts with [int()]: the year of every
    variant, the volume and the number of an article. *)
Definition numeric_field (c : variant) (name : str) : bool :=
  str_eqb name "year"
  || match c with
     | Article => str_eqb name "volume" || str_eqb name "number"
     | _ => false
     end.

(** A record whose year is no integer. *)
Definition bad_year_text : str :=
  "@misc{k," ++ nl
  ++ "  author = {Smith, A}," ++ nl
  ++ "  title  = {Something}," ++ nl
  ++ "  year   = {MMXXIV}," ++ nl
  ++ "}".

(** The entry-start pattern occurs at position [i] of [s]: an at sign,
    one or more word characters, white space or none, an opening brace. *)
Definition entry_start_at {U : Unicode} (s : str) (i : nat) : Prop :=
  exists w sp rest,
    skipn i s = 64%N :: w ++ sp ++ 123%N :: rest
    /\ w <> []
    /\ forallb is_word w = true
    /\ forallb is_space sp = true.

(** The entry-start pattern as the specification words it, an at sign, a
    word and an opening brace, occurs at position [i] of [s]. *)
Definition spec_entry_start_at {U : Unicode} (s : str) (i : nat) : Prop :=
  exists w rest,
    skipn i s = 64%N :: w ++ 123%N :: rest
    /\ w <> []
    /\ forallb is_word w = true.

(** [m.start()] *)
Definition match_start (m : re_match) : nat := snd (fst m).

Definition matches_here {U : Unicode} (s : str) : bool :=
  match match_entry_start s with
  | Some _ => true
  | None => false
  end.

(** A text with a blank between the type and the brace. *)
Definition blank_before_brace : str :=
  "@misc {k," ++ nl
  ++ "  author = {Smith, A}," ++ nl
  ++ "  title  = {Something}," ++ nl
  ++ "  year   = {2024}," ++ nl
  ++ "}".

(** No at sign in [s]. *)
Definition no_at (s : str) : bool := forallb (fun c => negb (c =? 64)%N) s.

(** Neither of the two errors on the number of records. *)
Definition other_error (e : error) : Prop :=
  e <> NoEntryFound /\ e <> MultipleEntriesFound.

(** A store with one dict, for the check of [from_dict]. *)
Definition c9_store : store :=
  [[("type", VStr "Misc"); ("author", VList ["Smith, A"]);
    ("title", VStr "Something"); ("year", VInt 2024)]].

(** ** Entries that the rendering and the parser agree on *)

(** A character that the rendering may put between braces: no brace, no
    at sign, no line feed. *)
Definition plain_char (c : N) : bool :=
  negb ((c =? 123) || (c =? 125) || (c =? 64) || (c =? 10))%N.

Definition plain (s : str) : bool := forallb plain_char s.

(** A cite key: plain, without a comma, without white space around it. *)
Definition plain_key (k : str) : bool :=
  plain k && negb (contains 44%N k) && str_eqb (strip k) k.

(** The depth of braces after [s], from the depth [d]; [None] when a
    closing brace comes at depth 0. *)
Fixpoint nesting (s : str) (d : nat) : option nat :=
  match s with
  | [] => Some d
  | c :: s' =>
      if (c =? 123)%N then nesting s' (S d)
      else if (c =? 125)%N then
        match d with
        | O => None
        | S d' => nesting s' d'
        end
      else nesting s' d
  end.

(** Every brace of [s] has its partner in [s]. *)
Definition balanced (s : str) : bool :=
  match nesting s 0 with
  | Some O => true
  | _ => false
  end.

(** [_FIELD_START_RE] matches at the head of [s]. *)
Definition field_here {U : Unicode} (s : str) : bool :=
  match match_field_start s with
  | Some _ => true
  | None => false
  end.

(** At no place of [s] starts a match of [_ENTRY_START_RE] that lies in
    [s]: no at sign of [s] is followed by a word and, after white space
    or none, an opening brace. *)
Fixpoint entry_free {U : Unicode} (s : str) : bool :=
  match s with
  | [] => true
  | _ :: s' => negb (matches_here s) && entry_free s'
  end.

(** After no line feed of [s] starts a match of [_FIELD_START_RE] that
    lies in [s]: no line of [s] but the first begins, after white space
    or none, with a word and, after white space or none, an equals
    sign. *)
Fixpoint field_free {U : Unicode} (s : str) : bool :=
  match s with
  | [] => true
  | c :: s' => (negb (c =? 10)%N || negb (field_here s')) && field_free s'
  end.

(** A text that the parser reads back from between the braces of a line
    of the rendering: its braces are balanced, no entry starts in it and
    no field starts at a line of it. *)
Definition readable {U : Unicode} (v : str) : bool :=
  balanced v && entry_free v && field_free v.

(** A cite key that the parser reads back: no closing brace without its
    opening one before it, no entry start, no comma and no white space
    around it. *)
Definition readable_key {U : Unicode} (k : str) : bool :=
  match nesting k 0 with Some _ => true | None => false end
  && entry_free k && negb (contains 44%N k) && str_eqb (strip k) k.



(** A field name of the rendering: lower-case letters and underscores. *)
Definition lower_name (n : str) : bool :=
  match n with
  | [] => false
  | _ => forallb (fun c => ascii_islower c || (c =? 95)%N) n
  end.

(** A field of the rendering: its name and the text between the braces. *)
Definition field_ok (nv : str * str) : bool :=
  lower_name (fst nv) && plain (snd nv).

(** A field that the parser reads back: its name and a readable text. *)
Definition field_readable {U : Unicode} (nv : str * str) : bool :=
  lower_name (fst nv) && readable (snd nv).

Definition fmt (nv : str * str) : str :=
  _format_bibtex_field (fst nv) (snd nv).

(** The text of a record with the BibTeX type [bt], the key [key] and
    the fields [fields]. *)
Definition render (bt key : str) (fields : list (str * str)) : str :=
  "@" ++ bt ++ "{" ++ key ++ ","
  ++ concat (map (fun nv => nl ++ fmt nv) fields) ++ nl ++ "}".

(** What follows the key and its comma in that text. *)
Definition body_of (fields : list (str * str)) : str :=
  concat (map (fun nv => nl ++ fmt nv) fields) ++ nl.

Definition no_brace (s : str) : bool :=
  forallb (fun c => negb ((c =? 123) || (c =? 125))%N) s.

Definition no_nl (s : str) : bool := forallb (fun c => negb (c =? 10)%N) s.

(** The text that [_FIELD_START_RE] matches at a field, after the white
    space [ws], and the text of the value. *)
Definition field_head (ws n : str) : str := ws ++ pad10 n ++ "= ".
Definition field_value (v : str) : str := "{" ++ v ++ "},".

(** A line of the body, with the line feed that ends it. *)
Definition body_line (nv : str * str) : str :=
  field_head "  " (fst nv) ++ field_value (snd nv) ++ nl.

Definition body_lines (fields : list (str * str)) : str :=
  concat (map body_line fields).

(** What an attribute of a readable entry is: a text, an integer or a
    list of names, or one of these or [None]. *)
Inductive kind := KStr | KOptStr | KInt | KOptInt | KNames | KOptNames.


(** The fields of a class that [__str__] writes, in the order of its
    lines, with the kind that the annotations give them. *)
Definition field_table (c : variant) : list (str * kind) :=
  [("author", KNames); ("title", KStr)]
  ++ match c with
     | Article =>
         [("journal", KStr); ("year", KInt); ("volume", KInt);
          ("number", KOptInt); ("pages", KOptStr);
          ("article_number", KOptStr)]
     | Book =>
         [("publisher", KStr); ("year", KInt); ("edition", KOptStr);
          ("editor", KOptNames)]
     | InProceedings =>
         [("booktitle", KStr); ("year", KInt); ("pages", KOptStr);
          ("publisher", KOptStr); ("editor", KOptNames)]
     | TechReport =>
         [("institution", KStr); ("year", KInt); ("number", KOptStr)]
     | Thesis => [("school", KStr); ("year", KInt)]
     | Software =>
         [("year", KInt); ("publisher", KOptStr); ("version", KOptStr);
          ("license", KOptStr)]
     | Misc => [("year", KInt)]
     end
  ++ [("doi", KOptStr); ("url", KOptStr); ("note", KOptStr)].






(** What the parser makes of the text of a field of a kind. *)
Definition convert {U : Unicode} (kd : kind) (t : str) : option val :=
  match kd with
  | KStr | KOptStr => Some (VStr t)
  | KInt | KOptInt => option_map VInt (py_int t)
  | KNames | KOptNames => Some (VList (_parse_authors t))
  end.



(** The text of a field, as the keyword functions of the parser convert
    it. *)
Definition as_str (fields : dict str) (n : str) : option val :=
  option_map VStr (dict_get fields n).

Definition as_int {U : Unicode} (fields : dict str) (n : str) : option val :=
  match dict_get fields n with
  | Some t => option_map VInt (py_int t)
  | None => None
  end.

Definition as_names (fields : dict str) (n : str) : option val :=
  option_map (fun t => VList (_parse_authors t)) (dict_get fields n).

(** The thesis type that the parser passes for an entry type. *)
Definition thesis_type_of (entry_type : str) : val :=
  VStr (if str_eqb entry_type "phdthesis" then "phd" else "masters").







Definition given_first_text : str :=
  "@misc{k," ++ nl
  ++ "  author    = {John Smith}," ++ nl
  ++ "  title     = {Something}," ++ nl
  ++ "  year      = {2024}," ++ nl
  ++ "}".

Definition surname_first : entry :=
  entry_of Misc
    [("author", VList ["Smith, John"]); ("title", VStr "Something");
     ("year", VInt 2024); ("key", VStr "k")]
    (VStr "k").

(** ** More of [citeable._entries] *)

(** [if self.name is not None: fields.append((name, self.name))] *)
Definition append_if_set (self : entry) (name : str)
    (fields : list (str * val)) : list (str * val) :=
  if is_none (attr self name) then fields
  else fields ++ [(name, attr self name)].

(** [_append_common_optional_repr] *)
Definition _append_common_optional_repr (self : entry)
    (fields : list (str * val)) : list (str * val) :=
  let fields := append_if_set self "doi" fields in
  let fields := append_if_set self "url" fields in
  append_if_set self "note" fields.

(** The seven [_repr_fields] methods. *)
Definition _repr_fields (self : entry) : list (str * val) :=
  let a := attr self in
  let fields :=
    [("author", a "author"); ("title", a "title"); ("year", a "year")] in
  match cls self with
  | Article =>
      let fields :=
        fields ++ [("journal", a "journal"); ("volume", a "volume")] in
      let fields := append_if_set self "pages" fields in
      let fields := append_if_set self "article_number" fields in
      let fields := append_if_set self "number" fields in
      _append_common_optional_repr self fields
  | Book =>
      let fields := fields ++ [("publisher", a "publisher")] in
      let fields := append_if_set self "edition" fields in
      let fields := append_if_set self "editor" fields in
      _append_common_optional_repr self fields
  | InProceedings =>
      let fields := fields ++ [("booktitle", a "booktitle")] in
      let fields := append_if_set self "pages" fields in
      let fields := append_if_set self "publisher" fields in
      let fields := append_if_set self "editor" fields in
      _append_common_optional_repr self fields
  | TechReport =>
      let fields := fields ++ [("institution", a "institution")] in
      let fields := append_if_set self "number" fields in
      _append_common_optional_repr self fields
  | Thesis =>
      let fields :=
        fields ++ [("school", a "school");
                   ("thesis_type", a "thesis_type")] in
      _append_common_optional_repr self fields
  | Software =>
      let fields := append_if_set self "publisher" fields in
      let fields := append_if_set self "version" fields in
      let fields := append_if_set self "license" fields in
      _append_common_optional_repr self fields
  | Misc => _append_common_optional_repr self fields
  end.

(** The first statements of [__repr__]: the list [fields] that it goes
    on to write, one line [name=value,] for each pair, between the name
    of the class and the closing parenthesis.  The key comes first when
    it is not the generated one.  The text that [repr()] makes of a value
    is not modelled. *)
Definition repr_fields (self : entry) : result (list (str * val)) :=
  let fields := _repr_fields self in
  match attr self "author", attr self "year" with
  | VList l, VInt y =>
      let auto_key := VStr (generate_key l y) in
      if negb (val_eqb (attr self "key") auto_key)
      then Ok (("key", attr self "key") :: fields)
      else Ok fields
  | _, _ => Err IllTyped
  end.

(** ** More properties: what they are stated with *)

(** The errors of a constructor call: the checks of the constructor, the
    binding of the arguments, a value outside its annotation. *)
Definition constructor_error (e : error) : Prop :=
  match e with
  | InvalidEntry _ | ArgumentMissing _ | ArgumentUnexpected | IllTyped => True
  | _ => False
  end.

(** The errors that [from_bibtex_string] raises. *)
Definition parser_error (e : error) : Prop :=
  match e with
  | NoEntryFound | MultipleEntriesFound | UnsupportedEntryType _
  | NumericFieldParseError | SubstringNotFound | InvalidEntry _
  | ArgumentMissing _ => True
  | _ => False
  end.


(** A match object, [q] characters further on. *)
Definition shift_match (q : nat) (m : re_match) : re_match :=
  (fst (fst m), snd (fst m) + q, snd m + q).

(** A token of [split] is not empty and holds no white space. *)
Definition token (t : str) : Prop :=
  t <> [] /\ forallb (fun c => negb (is_space c)) t = true.

(** * Properties *)

Unset Implicit Arguments.

Arguments is_space c : simpl never.
Arguments c_isspace c : simpl never.
Arguments is_word {_} c : simpl never.

Example test_parse_techreport :
  from_bibtex_string techreport_text = Ok techreport_entry.
Proof. vm_compute. reflexivity. Qed.

(** ** Strings and dicts *)

Lemma str_eqb_eq (a b : str) : str_eqb a b = true <-> a = b.
Proof.
  revert b. induction a as [|x a IH]; intros [|y b]; simpl; split; intro H;
    try reflexivity; try discriminate.
  - apply andb_prop in H. destruct H as [H1 H2]. apply N.eqb_eq in H1.
    apply IH in H2. now subst.
  - injection H as -> ->. rewrite N.eqb_refl. simpl. now apply IH.
Qed.

Lemma str_eqb_refl (a : str) : str_eqb a a = true.
Proof. now apply str_eqb_eq. Qed.

Lemma str_eqb_neq (a b : str) : str_eqb a b = false <-> a <> b.
Proof.
  rewrite <- str_eqb_eq. destruct (str_eqb a b); split; intro H;
    try discriminate; try reflexivity; try congruence.
Qed.

Lemma str_eqb_sym (a b : str) : str_eqb a b = str_eqb b a.
Proof.
  destruct (str_eqb a b) eqn:E.
  - apply str_eqb_eq in E. subst. now rewrite str_eqb_refl.
  - symmetry. apply str_eqb_neq. apply str_eqb_neq in E. congruence.
Qed.

Lemma dict_get_set {A} (d : dict A) (k k' : str) (v : A) :
  dict_get (dict_set d k v) k' =
  if str_eqb k' k then Some v else dict_get d k'.
Proof.
  induction d as [|[k0 v0] d IH]; simpl.
  - reflexivity.
  - destruct (str_eqb k k0) eqn:E; simpl.
    + apply str_eqb_eq in E. subst k0.
      now destruct (str_eqb k' k).
    + destruct (str_eqb k' k0) eqn:E'.
      * apply str_eqb_eq in E'. subst k0.
        rewrite str_eqb_sym in E. now rewrite E.
      * apply IH.
Qed.

Lemma dict_get_update_none {A} (e d : dict A) (k : str) :
  dict_get e k = None -> dict_get (dict_update d e) k = dict_get d k.
Proof.
  unfold dict_update. revert d.
  induction e as [|[k0 v0] e IH]; intros d H; simpl in *.
  - reflexivity.
  - destruct (str_eqb k k0) eqn:E; [discriminate|].
    rewrite IH by assumption. rewrite dict_get_set. now rewrite E.
Qed.

(** ** The store *)

Lemma store_update_middle (h t : store) (d d' : dict val) :
  store_update (h ++ d :: t) (length h) d' = h ++ d' :: t.
Proof. induction h as [|x h IH]; simpl; [reflexivity | now rewrite IH]. Qed.

Lemma nth_store_middle (h t : store) (d : dict val) :
  nth (length h) (h ++ d :: t) [] = d.
Proof. apply nth_middle. Qed.

(** [from_dict] leaves the store as it was, with one new object. *)
Lemma from_dict_store (data : ref) (h : store) :
  exists d, snd (from_dict data h) = h ++ [d].
Proof.
  unfold from_dict, bindM, dict_copy, dict_pop, bindM, load, alloc,
    store_dict, ret, raise, lift.
  rewrite (nth_store_middle h [] (nth data h [])).
  destruct (dict_get (nth data h []) "type") as [v|].
  - rewrite store_update_middle.
    destruct (is_none v); [eexists; reflexivity|].
    destruct (entry_type_of v); eexists; reflexivity.
  - simpl. eexists; reflexivity.
Qed.

(** C9. [from_dict] does not change the dict it is given, nor any other
    object that the store held before the call, whether it returns an
    entry or raises; the key ["type"] of the argument is still there. *)
Theorem from_dict_leaves_argument (data : ref) (h : store) :
  data < length h ->
  let h' := snd (from_dict data h) in
  nth data h' [] = nth data h []
  /\ dict_get (nth data h' []) "type" = dict_get (nth data h []) "type"
  /\ forall r, r < length h -> nth_error h' r = nth_error h r.
Proof.
  intros Hlt h'. destruct (from_dict_store data h) as [d Hd].
  subst h'. rewrite Hd.
  assert (E : nth data (h ++ [d]) [] = nth data h [])
    by now apply app_nth1.
  split; [exact E|]. split; [now rewrite E|].
  intros r Hr. now apply nth_error_app1.
Qed.

Lemma from_dict_leaves_argument_witness :
  0 < length c9_store
  /\ nth 0 (snd (from_dict 0 c9_store)) [] = nth 0 c9_store []
  /\ dict_get (nth 0 (snd (from_dict 0 c9_store)) []) "type"
     = dict_get (nth 0 c9_store []) "type"
  /\ forall r, r < length c9_store ->
       nth_error (snd (from_dict 0 c9_store)) r = nth_error c9_store r.
Proof.
  split; [simpl; lia|].
  apply (from_dict_leaves_argument 0 c9_store). simpl; lia.
Defined.

(** ** Constructors *)

Lemma mem_In (k : str) (l : list str) : mem k l = true <-> In k l.
Proof.
  unfold mem. rewrite existsb_exists. split.
  - intros [x [Hin Hx]]. apply str_eqb_eq in Hx. now subst.
  - intro H. exists k. split; [assumption | apply str_eqb_refl].
Qed.

Lemma check_names_ok (ps : list str) (kw : dict val) :
  check_names ps kw = Ok tt <-> forall k, In k (dict_keys kw) -> In k ps.
Proof.
  unfold check_names.
  destruct (forallb (fun k => mem k ps) (dict_keys kw)) eqn:E.
  - rewrite forallb_forall in E. split; [|reflexivity].
    intros _ k Hk. apply mem_In. now apply E.
  - split; [discriminate|]. intro H. exfalso.
    assert (E' : forallb (fun k => mem k ps) (dict_keys kw) = true).
    { apply forallb_forall. intros k Hk. apply mem_In. now apply H. }
    congruence.
Qed.

Lemma required_given (kw : dict val) (l : list str) :
  fold_right (fun p k => arg kw p ;;; k) (Ok tt) l = Ok tt
  <-> forall p, In p l -> dict_get kw p <> None.
Proof.
  induction l as [|p l IH]; simpl.
  - split; [intros _ p [] | reflexivity].
  - unfold arg at 1. destruct (dict_get kw p) eqn:E; simpl.
    + rewrite IH. split.
      * intros H q [<-|Hq]; [congruence | now apply H].
      * intros H q Hq. apply H. now right.
    + split; [discriminate|]. intro H. exfalso. apply (H p); auto.
Qed.

Lemma bind_args_binds (c : variant) (kw : dict val) :
  bind_args c kw = Ok tt <-> binds c kw.
Proof.
  unfold bind_args, binds.
  rewrite <- check_names_ok, <- required_given.
  destruct (check_names (params c) kw) as [[]|e]; simpl.
  - tauto.
  - split; [discriminate | intros [H _]; discriminate].
Qed.

(** A call that does not bind raises the error of the call itself. *)
Lemma new_unbound (c : variant) (kw : dict val) (e : error) :
  bind_args c kw = Err e -> new c kw = Err e.
Proof.
  intro H. destruct c; unfold new, Article__init__, Book__init__,
    InProceedings__init__, TechReport__init__, Thesis__init__,
    Software__init__, Misc__init__; now rewrite H.
Qed.

Ltac unfold_new :=
  unfold new, Article__init__, Book__init__, InProceedings__init__,
    TechReport__init__, Thesis__init__, Software__init__, Misc__init__,
    init_common, _init_base, require_field, require_non_empty_authors.

(** A bound call with a violation raises [InvalidEntry]. *)
Lemma new_rejects (c : variant) (kw : dict val) :
  bind_args c kw = Ok tt -> violation c kw = true ->
  exists why, new c kw = Err (InvalidEntry why).
Proof.
  intros Hb Hv. unfold violation in Hv.
  destruct c; unfold_new; rewrite Hb; simpl in *;
    repeat match goal with
           | |- context [missing_or_empty ?v] =>
               destruct (missing_or_empty v); simpl in *;
               [eexists; reflexivity|]
           | |- context [is_thesis_type ?v] =>
               destruct (is_thesis_type v); simpl in *;
               [|eexists; reflexivity]
           | |- context [is_none ?v && is_none ?w] =>
               destruct (is_none v && is_none w); simpl in *;
               [eexists; reflexivity|]
           | |- context [authors_empty ?v] =>
               destruct (authors_empty v); simpl in *;
               [eexists; reflexivity|]
           end; discriminate.
Qed.

(** A bound call without a violation returns the entry of its keywords,
    once the key is there. *)
Lemma new_accepts (c : variant) (kw : dict val) :
  bind_args c kw = Ok tt -> violation c kw = false ->
  new c kw =
  (k <- default_key (opt kw "key") (opt kw "author") (opt kw "year") ;;
   Ok (entry_of c kw k)).
Proof.
  intros Hb Hv. unfold violation in Hv.
  destruct c; unfold_new; rewrite Hb; simpl in *;
    repeat match goal with
           | |- context [missing_or_empty ?v] =>
               destruct (missing_or_empty v); simpl in *; [discriminate|]
           | |- context [is_thesis_type ?v] =>
               destruct (is_thesis_type v); simpl in *; [|discriminate]
           | |- context [is_none ?v && is_none ?w] =>
               destruct (is_none v && is_none w); simpl in *; [discriminate|]
           | |- context [authors_empty ?v] =>
               destruct (authors_empty v); simpl in *; [discriminate|]
           end;
    destruct (default_key (opt kw "key") (opt kw "author") (opt kw "year"));
    reflexivity.
Qed.

(** What a constructor returned. *)
Lemma new_inv (c : variant) (kw : dict val) (e : entry) :
  new c kw = Ok e ->
  bind_args c kw = Ok tt /\ violation c kw = false
  /\ exists k,
       default_key (opt kw "key") (opt kw "author") (opt kw "year") = Ok k
       /\ e = entry_of c kw k.
Proof.
  intro H. destruct (bind_args c kw) as [[]|err] eqn:Hb.
  - destruct (violation c kw) eqn:Hv.
    + destruct (new_rejects c kw Hb Hv) as [why Hw]. congruence.
    + rewrite (new_accepts c kw Hb Hv) in H.
      destruct (default_key (opt kw "key") (opt kw "author") (opt kw "year"))
        as [k|]; simpl in H; [|discriminate].
      injection H as <-. repeat split. now exists k.
  - rewrite (new_unbound c kw err Hb) in H. discriminate.
Qed.

Lemma default_key_not_none (key author year k : val) :
  default_key key author year = Ok k -> k <> VNone.
Proof.
  unfold default_key. destruct key; try (intro H; injection H as <-; discriminate).
  destruct author; try discriminate. destruct year; try discriminate.
  intro H. injection H as <-. discriminate.
Qed.

Lemma default_key_given (key author year : val) :
  key <> VNone -> default_key key author year = Ok key.
Proof. destruct key; [congruence | reflexivity..]. Qed.

Lemma required_error (kw : dict val) (l : list str) (e : error) :
  fold_right (fun p k => arg kw p ;;; k) (Ok tt) l = Err e ->
  exists name, e = ArgumentMissing name.
Proof.
  induction l as [|p l IH]; simpl; [discriminate|].
  unfold arg at 1. destruct (dict_get kw p); cbn [bind].
  - exact IH.
  - intro H. injection H as <-. now exists p.
Qed.

Lemma bind_args_error (c : variant) (kw : dict val) (e : error) :
  bind_args c kw = Err e ->
  e = ArgumentUnexpected \/ exists name, e = ArgumentMissing name.
Proof.
  unfold bind_args, check_names.
  destruct (forallb _ (dict_keys kw)); cbn [bind].
  - intro H. right. now apply required_error in H.
  - intro H. injection H as <-. now left.
Qed.

Lemma missing_or_empty_iff (v : val) :
  missing_or_empty v = true <-> v = VNone \/ v = VStr "".
Proof.
  destruct v as [|[|x t]|z|l]; cbn; split; try tauto;
    try discriminate; intros [H|H]; discriminate.
Qed.

Lemma authors_empty_iff (v : val) :
  authors_empty v = true
  <-> v = VNone \/ v = VStr "" \/ v = VList [].
Proof.
  destruct v as [|[|x t]|z|[|a l]]; cbn; split; try tauto;
    try discriminate; intros [H|[H|H]]; discriminate.
Qed.

Lemma is_thesis_type_false (v : val) :
  is_thesis_type v = false <-> v <> VStr "phd" /\ v <> VStr "masters".
Proof.
  destruct v as [|t|z|l]; cbn [is_thesis_type];
    try (split; [split; discriminate | reflexivity]).
  rewrite orb_false_iff, !str_eqb_neq.
  split; intros [H1 H2]; split; congruence.
Qed.

Lemma is_none_iff (v : val) : is_none v = true <-> v = VNone.
Proof. destruct v; cbn; split; (reflexivity || discriminate). Qed.

(** The checks of the constructors are the four reasons. *)
Lemma violation_rejected (c : variant) (kw : dict val) :
  violation c kw = true <-> rejected c kw.
Proof.
  unfold violation, rejected. rewrite !orb_true_iff, existsb_exists.
  split.
  - intros [[[n [Hn Hm]]|Ha]|Hc].
    + left. exists n. split; [exact Hn | now apply missing_or_empty_iff].
    + right. left. now apply authors_empty_iff.
    + right. right. destruct c; try discriminate.
      * right. apply andb_prop in Hc. destruct Hc as [H1 H2].
        apply is_none_iff in H1, H2. auto.
      * left. apply negb_true_iff, is_thesis_type_false in Hc. tauto.
  - intros [[n [Hn Hm]]|[Ha|[[-> H]|[-> [H1 H2]]]]].
    + left. left. exists n. split; [exact Hn | now apply missing_or_empty_iff].
    + left. right. now apply authors_empty_iff.
    + right. apply negb_true_iff. now apply is_thesis_type_false.
    + right. apply andb_true_intro. split; now apply is_none_iff.
Qed.

(** C7, as amended.  A call that does not bind, with a keyword that is no
    parameter or without a required argument, raises the error of the
    call itself and not [InvalidEntry].  A call that binds raises
    [InvalidEntry], and returns no entry, exactly when a required field
    is [None] or empty, or there is no author, or a thesis has a type
    other than phd and masters, or an article has neither pages nor an
    article number; it returns an entry of the class when none of these
    holds and a key is available. *)
Theorem constructor_validation (c : variant) (kw : dict val) :
  (~ binds c kw ->
   exists e,
     new c kw = Err e
     /\ (e = ArgumentUnexpected \/ exists p, e = ArgumentMissing p))
  /\ (binds c kw ->
      ((exists why, new c kw = Err (InvalidEntry why)) <-> rejected c kw)
      /\ (~ rejected c kw -> key_available kw ->
          exists e, new c kw = Ok e /\ cls e = c)).
Proof.
  split.
  - intro Hn. destruct (bind_args c kw) as [[]|e] eqn:Hb.
    + exfalso. apply Hn. now apply bind_args_binds.
    + exists e. split; [now apply new_unbound | now apply bind_args_error in Hb].
  - intro Hb. apply bind_args_binds in Hb. split; [split|].
    + intros [why Hw]. apply violation_rejected.
      destruct (violation c kw) eqn:Hv; [reflexivity|].
      rewrite (new_accepts c kw Hb Hv) in Hw.
      unfold default_key in Hw.
      destruct (opt kw "key"); simpl in Hw; try discriminate.
      destruct (opt kw "author"); simpl in Hw; try discriminate.
      destruct (opt kw "year"); simpl in Hw; discriminate.
    + intro Hr. apply violation_rejected in Hr. now apply new_rejects.
    + intros Hr Hk.
      assert (Hv : violation c kw = false).
      { destruct (violation c kw) eqn:Hv; [|reflexivity].
        exfalso. apply Hr. now apply violation_rejected. }
      rewrite (new_accepts c kw Hb Hv).
      destruct (opt kw "key") eqn:Ek.
      * destruct (Hk Ek) as [l [y [-> ->]]]. simpl.
        eexists; split; reflexivity.
      * simpl. eexists; split; reflexivity.
      * simpl. eexists; split; reflexivity.
      * simpl. eexists; split; reflexivity.
Qed.

Lemma constructor_validation_witness :
  (exists e,
     new Article no_journal_kwargs = Err e
     /\ (e = ArgumentUnexpected \/ exists p, e = ArgumentMissing p))
  /\ (exists why, new Article no_pages_kwargs = Err (InvalidEntry why))
  /\ (exists why, new Thesis degree_kwargs = Err (InvalidEntry why))
  /\ (exists why, new Misc no_author_kwargs = Err (InvalidEntry why))
  /\ (exists why, new Book no_publisher_kwargs = Err (InvalidEntry why))
  /\ exists e, new Misc misc_kwargs = Ok e /\ cls e = Misc.
Proof.
  split; [|split; [|split; [|split; [|split]]]].
  - apply (proj1 (constructor_validation Article no_journal_kwargs)).
    intro H. apply bind_args_binds in H. discriminate H.
  - apply (proj1 (proj2 (constructor_validation Article no_pages_kwargs)
                    (proj1 (bind_args_binds Article no_pages_kwargs) eq_refl))).
    right. right. right. repeat split.
  - apply (proj1 (proj2 (constructor_validation Thesis degree_kwargs)
                    (proj1 (bind_args_binds Thesis degree_kwargs) eq_refl))).
    right. right. left. repeat split; discriminate.
  - apply (proj1 (proj2 (constructor_validation Misc no_author_kwargs)
                    (proj1 (bind_args_binds Misc no_author_kwargs) eq_refl))).
    right. left. right. right. reflexivity.
  - apply (proj1 (proj2 (constructor_validation Book no_publisher_kwargs)
                    (proj1 (bind_args_binds Book no_publisher_kwargs) eq_refl))).
    left. exists "publisher". split; [now left | now right].
  - apply (proj2 (proj2 (constructor_validation Misc misc_kwargs)
                    (proj1 (bind_args_binds Misc misc_kwargs) eq_refl))).
    + intros [[n [[] _]]|[[H|[H|H]]|[[H _]|[H _]]]]; discriminate H.
    + intro H. discriminate H.
Defined.

(** C7, as stated, fails: a call of [Article] without the required
    argument [journal] raises the [TypeError] of the call, and no
    [InvalidEntry]. *)
Lemma omitted_journal_is_no_invalid_entry :
  new Article no_journal_kwargs = Err (ArgumentMissing "journal")
  /\ forall why, new Article no_journal_kwargs <> Err (InvalidEntry why).
Proof. split; [reflexivity | discriminate]. Qed.

(** ** The cite key *)

Lemma attr_key_entry_of (c : variant) (kw : dict val) (k : val) :
  attr (entry_of c kw k) "key" = k.
Proof. reflexivity. Qed.

Lemma new_keeps_key (c : variant) (kw : dict val) (e : entry) (k : val) :
  new c kw = Ok e -> dict_get kw "key" = Some k -> k <> VNone ->
  attr e "key" = k.
Proof.
  intros H Hk Hn. apply new_inv in H. destruct H as [_ [_ [k' [Hd ->]]]].
  rewrite attr_key_entry_of. unfold opt in Hd. rewrite Hk in Hd.
  rewrite default_key_given in Hd by assumption. congruence.
Qed.

Section ParserKey.
Context {U : Unicode}.

Lemma copy_field_get (fields : dict str) (name k : str) (kw : dict val) :
  str_eqb k name = false ->
  dict_get (copy_field fields name kw) k = dict_get kw k.
Proof.
  intro H. unfold copy_field. destruct (dict_get fields name); [|reflexivity].
  rewrite dict_get_set. now rewrite H.
Qed.

Lemma copy_authors_field_get (fields : dict str) (name k : str)
    (kw : dict val) :
  str_eqb k name = false ->
  dict_get (copy_authors_field fields name kw) k = dict_get kw k.
Proof.
  intro H. unfold copy_authors_field.
  destruct (dict_get fields name); [|reflexivity].
  rewrite dict_get_set. now rewrite H.
Qed.

Lemma copy_int_field_get (fields : dict str) (name k : str)
    (kw kw' : dict val) :
  str_eqb k name = false ->
  copy_int_field fields name kw = Ok kw' ->
  dict_get kw' k = dict_get kw k.
Proof.
  intros H. unfold copy_int_field.
  destruct (dict_get fields name); [|intro E; injection E as <-; reflexivity].
  destruct (py_int s); [|discriminate].
  intro E. injection E as <-. rewrite dict_get_set. now rewrite H.
Qed.

(** Rewriting a lookup through the copies of fields other than it. *)
Ltac through_copies :=
  repeat first
    [ rewrite copy_field_get by reflexivity
    | rewrite copy_authors_field_get by reflexivity
    | rewrite dict_get_set; simpl str_eqb ].

Lemma common_kwargs_key (fields : dict str) (cite_key : str) (kw : dict val) :
  _common_kwargs fields cite_key = Ok kw ->
  dict_get kw "key" = Some (VStr cite_key).
Proof.
  unfold _common_kwargs.
  destruct (copy_int_field fields "year" _) as [kw1|] eqn:E; simpl;
    [|discriminate].
  intro H. injection H as <-. simpl. through_copies.
  rewrite (copy_int_field_get fields "year" "key" _ _ eq_refl E).
  through_copies. reflexivity.
Qed.

Lemma type_kwargs_no_key (c : variant) (fields : dict str) (et : str)
    (extra : dict val) :
  type_kwargs c fields et = Ok extra -> dict_get extra "key" = None.
Proof.
  destruct c; simpl; unfold _article_kwargs, _book_kwargs,
    _inproceedings_kwargs, _techreport_kwargs, _thesis_kwargs,
    _software_kwargs; simpl.
  - destruct (copy_int_field fields "volume" _) as [kw1|] eqn:E; simpl;
      [|discriminate].
    intro H. rewrite (copy_int_field_get fields "number" "key" _ _ eq_refl H).
    through_copies.
    rewrite (copy_int_field_get fields "volume" "key" _ _ eq_refl E).
    through_copies. reflexivity.
  - intro H; injection H as <-. through_copies. reflexivity.
  - intro H; injection H as <-. through_copies. reflexivity.
  - intro H; injection H as <-. through_copies. reflexivity.
  - intro H; injection H as <-. through_copies. reflexivity.
  - intro H; injection H as <-. through_copies. reflexivity.
  - intro H; injection H as <-. reflexivity.
Qed.

(** What [from_bibtex_string] does with the one record it found. *)
Lemma from_bibtex_string_one (s t k body : str) :
  _extract_entries s = [(t, k, body)] ->
  from_bibtex_string s =
  match dict_get _TYPE_MAP (str_lower t) with
  | None => Err (UnsupportedEntryType (str_lower t))
  | Some c =>
      fields <- _parse_fields body ;;
      kwargs <- _common_kwargs fields k ;;
      extra <- type_kwargs c fields (str_lower t) ;;
      new c (dict_update kwargs extra)
  end.
Proof. intro H. unfold from_bibtex_string. now rewrite H. Qed.

Lemma parsed_key (s t k body : str) (e : entry) :
  _extract_entries s = [(t, k, body)] ->
  from_bibtex_string s = Ok e ->
  attr e "key" = VStr k.
Proof.
  intros H1 H2. rewrite (from_bibtex_string_one s t k body H1) in H2.
  destruct (dict_get _TYPE_MAP (str_lower t)) as [c|]; [|discriminate].
  destruct (_parse_fields body) as [fields|]; simpl in H2; [|discriminate].
  destruct (_common_kwargs fields k) as [kw|] eqn:Ek; simpl in H2;
    [|discriminate].
  destruct (type_kwargs c fields (str_lower t)) as [extra|] eqn:Ex;
    simpl in H2; [|discriminate].
  apply (new_keeps_key _ _ _ _ H2); [|discriminate].
  rewrite dict_get_update_none by exact (type_kwargs_no_key _ _ _ _ Ex).
  exact (common_kwargs_key _ _ _ Ek).
Qed.

End ParserKey.

(** C10. A constructor keeps the key it is given when that key is a
    string, the empty string included, and the parser passes the cite key
    of the record as the key: an entry parsed from a record with an empty
    cite key has the empty key. *)
Theorem explicit_key_is_kept {U : Unicode} :
  (forall c kw e k,
     new c kw = Ok e -> dict_get kw "key" = Some (VStr k) ->
     attr e "key" = VStr k)
  /\ (forall s t k body e,
        _extract_entries s = [(t, k, body)] ->
        from_bibtex_string s = Ok e ->
        attr e "key" = VStr k).
Proof.
  split.
  - intros c kw e k H Hk. apply (new_keeps_key c kw e (VStr k) H Hk).
    discriminate.
  - intros s t k body e. apply parsed_key.
Qed.

Lemma explicit_key_is_kept_witness :
  (exists e, new Misc misc_kwargs = Ok e /\ attr e "key" = VStr "")
  /\ (exists e, from_bibtex_string empty_key_text = Ok e
                /\ attr e "key" = VStr "").
Proof.
  split.
  - eexists. split; [reflexivity|].
    apply (proj1 (@explicit_key_is_kept ascii_tables) Misc misc_kwargs);
      reflexivity.
  - eexists. split; [vm_compute; reflexivity|].
    apply (proj2 (@explicit_key_is_kept ascii_tables) empty_key_text
             "misc" "" (skipn 7 (removelast empty_key_text)));
      vm_compute; reflexivity.
Defined.

(** ** Equality and hash *)

Lemma strs_eqb_eq (l m : list str) : strs_eqb l m = true <-> l = m.
Proof.
  revert m. induction l as [|x l IH]; intros [|y m]; simpl; split; intro H;
    try reflexivity; try discriminate.
  - apply andb_prop in H. destruct H as [H1 H2]. apply str_eqb_eq in H1.
    apply IH in H2. now subst.
  - injection H as -> ->. rewrite str_eqb_refl. simpl. now apply IH.
Qed.

Lemma cval_eqb_eq (a b : cval) : cval_eqb a b = true <-> a = b.
Proof.
  destruct a, b; simpl; split; intro H; try reflexivity; try discriminate.
  - apply str_eqb_eq in H. now subst.
  - injection H as ->. apply str_eqb_refl.
  - apply Z.eqb_eq in H. now subst.
  - injection H as ->. apply Z.eqb_refl.
  - apply strs_eqb_eq in H. now subst.
  - injection H as ->. now apply strs_eqb_eq.
Qed.

Lemma cvals_eqb_eq (l m : list cval) : cvals_eqb l m = true <-> l = m.
Proof.
  revert m. induction l as [|x l IH]; intros [|y m]; simpl; split; intro H;
    try reflexivity; try discriminate.
  - apply andb_prop in H. destruct H as [H1 H2]. apply cval_eqb_eq in H1.
    apply IH in H2. now subst.
  - injection H as -> ->. apply andb_true_intro. split.
    + now apply cval_eqb_eq.
    + now apply IH.
Qed.

Lemma variant_eqb_eq (a b : variant) : variant_eqb a b = true <-> a = b.
Proof. destruct a, b; simpl; split; intro H; congruence. Qed.

(** [==] on entries: the same class and the same content fields. *)
Lemma py_eq_iff (a b : entry) :
  py_eq a b = true
  <-> cls a = cls b
      /\ _content_fields a _EXCLUDED = _content_fields b _EXCLUDED.
Proof.
  unfold py_eq, __eq__.
  destruct (variant_eqb (cls a) (cls b)) eqn:E; simpl.
  - apply variant_eqb_eq in E. rewrite cvals_eqb_eq. tauto.
  - destruct (variant_eqb (cls b) (cls a)) eqn:E'; simpl.
    + apply variant_eqb_eq in E'. symmetry in E'.
      apply variant_eqb_eq in E'. congruence.
    + split; [discriminate|]. intros [H _]. apply variant_eqb_eq in H.
      congruence.
Qed.

Lemma py_eq_refl (a : entry) : py_eq a a = true.
Proof. now apply py_eq_iff. Qed.

Lemma content_value_inj (v w : val) :
  content_value v = content_value w -> v = w.
Proof. destruct v, w; simpl; congruence. Qed.

Lemma map_content_value_inj (l m : dict val) :
  map (fun kv => content_value (snd kv)) l
  = map (fun kv => content_value (snd kv)) m ->
  map snd l = map snd m.
Proof.
  revert m. induction l as [|x l IH]; intros [|y m]; simpl;
    try discriminate; auto.
  intro H. injection H as H1 H2. apply content_value_inj in H1.
  rewrite H1. f_equal. auto.
Qed.

(** Replacing the values of the keywords by variables. *)
Ltac abstract_opts :=
  repeat match goal with
         | |- context [opt ?kw ?n] =>
             let v := fresh "v" in generalize (opt kw n); intro v
         end.

Ltac use_name H n :=
  try (let E := fresh "E" in pose proof (H n eq_refl) as E; vm_compute in E).

Ltac use_names H :=
  use_name H "author"; use_name H "title"; use_name H "year";
  use_name H "doi"; use_name H "url"; use_name H "note";
  use_name H "journal"; use_name H "volume"; use_name H "pages";
  use_name H "article_number"; use_name H "number";
  use_name H "publisher"; use_name H "edition"; use_name H "editor";
  use_name H "booktitle"; use_name H "institution"; use_name H "school";
  use_name H "thesis_type"; use_name H "version"; use_name H "license".

(** The content fields of two entries of a class agree when all their
    attributes but [key] and [app] do. *)
Lemma content_fields_attrs (c : variant) (kw1 kw2 : dict val) (k1 k2 : val) :
  _content_fields (entry_of c kw1 k1) _EXCLUDED
  = _content_fields (entry_of c kw2 k2) _EXCLUDED
  <-> forall k, mem k _EXCLUDED = false ->
        attr (entry_of c kw1 k1) k = attr (entry_of c kw2 k2) k.
Proof.
  unfold _content_fields, entry_of, attr. cbn [vars].
  destruct c; cbn [own_params map app]; abstract_opts;
    (split;
     [ intro H; apply map_content_value_inj in H; vm_compute in H;
       injection H as ?; subst; intros k Hk; cbn [dict_get];
       unfold mem, _EXCLUDED in Hk; cbn [existsb] in Hk;
       apply orb_false_elim in Hk; destruct Hk as [Hk1 Hk2];
       apply orb_false_elim in Hk2; destruct Hk2 as [Hk2 _];
       rewrite Hk1, Hk2; reflexivity
     | intro H; use_names H; subst; reflexivity ]).
Qed.

Lemma constructed_entry_of (e : entry) :
  constructed e -> exists kw k, e = entry_of (cls e) kw k.
Proof.
  intros [kw H]. apply new_inv in H. destruct H as [_ [_ [k [_ H]]]].
  now exists kw, k.
Qed.

Lemma excluded_names (k : str) :
  mem k _EXCLUDED = false <-> k <> "key" /\ k <> "app".
Proof.
  unfold mem, _EXCLUDED. cbn [existsb]. rewrite orb_false_r.
  rewrite orb_false_iff, !str_eqb_neq. tauto.
Qed.

(** C3. Two entries are equal exactly when they are of the same variant
    and agree on every attribute but [key] and [app]; two such entries
    compare equal and have the same hash. *)
Theorem equality_ignores_key_and_app (a b : entry) :
  constructed a -> constructed b ->
  (py_eq a b = true
   <-> cls a = cls b
       /\ forall k, k <> "key" -> k <> "app" -> attr a k = attr b k)
  /\ (cls a = cls b ->
      (forall k, k <> "key" -> k <> "app" -> attr a k = attr b k) ->
      py_eq a b = true /\ forall hash, __hash__ hash a = __hash__ hash b).
Proof.
  intros Ha Hb.
  destruct (constructed_entry_of a Ha) as [kw1 [k1 Ea]].
  destruct (constructed_entry_of b Hb) as [kw2 [k2 Eb]].
  assert (Hiff : cls a = cls b ->
            (_content_fields a _EXCLUDED = _content_fields b _EXCLUDED
             <-> forall k, k <> "key" -> k <> "app" -> attr a k = attr b k)).
  { intro Hc. rewrite Ea, Eb. rewrite Hc. rewrite content_fields_attrs.
    split; intros H k.
    - intros H1 H2. apply H. now apply excluded_names.
    - intro Hk. apply excluded_names in Hk. now apply H. }
  split.
  - rewrite py_eq_iff. split; intros [Hc H]; (split; [exact Hc|]);
      now apply (Hiff Hc).
  - intros Hc H. apply (Hiff Hc) in H. split.
    + apply py_eq_iff. now split.
    + intro hash. unfold __hash__. now rewrite Hc, H.
Qed.

Lemma constructed_article_a : constructed article_a.
Proof.
  exists (article_kwargs (VStr "custom.key") (VStr "diverse-seq")).
  reflexivity.
Qed.

Lemma constructed_article_b : constructed article_b.
Proof. exists (article_kwargs VNone VNone). reflexivity. Qed.

Lemma constructed_article_noted : constructed article_noted.
Proof.
  exists (("note", VStr "In press") :: article_kwargs VNone VNone).
  reflexivity.
Qed.

Lemma equality_ignores_key_and_app_witness :
  attr article_a "key" <> attr article_b "key"
  /\ attr article_a "app" <> attr article_b "app"
  /\ py_eq article_a article_b = true
  /\ (forall hash, __hash__ hash article_a = __hash__ hash article_b)
  /\ attr article_noted "note" <> attr article_b "note"
  /\ attr article_noted "key" = attr article_b "key"
  /\ attr article_noted "app" = attr article_b "app"
  /\ py_eq article_noted article_b = false.
Proof.
  split; [discriminate|]. split; [discriminate|].
  assert (E : py_eq article_a article_b = true
              /\ forall hash,
                   __hash__ hash article_a = __hash__ hash article_b).
  { apply (proj2 (equality_ignores_key_and_app article_a article_b
                    constructed_article_a constructed_article_b)).
    - reflexivity.
    - intros k H1 H2. apply (content_fields_attrs Article); [reflexivity|].
      now apply excluded_names. }
  destruct E as [E1 E2].
  split; [exact E1|]. split; [exact E2|].
  split; [discriminate|]. split; [reflexivity|]. split; [reflexivity|].
  destruct (py_eq article_noted article_b) eqn:N; [|reflexivity].
  apply (proj1 (equality_ignores_key_and_app article_noted article_b
                  constructed_article_noted constructed_article_b)) in N.
  destruct N as [_ N].
  specialize (N "note" ltac:(discriminate) ltac:(discriminate)).
  discriminate N.
Defined.

(** ** The dict form *)

Lemma entry_type_of_class_name (c : variant) :
  entry_type_of (VStr (class_name c)) = Some c.
Proof. now destruct c. Qed.

(** The keywords of the dict form are those of the entry. *)
Lemma to_dict_content (c : variant) (kw : dict val) (k : val) :
  dict_update [("type", VStr (class_name c))] (vars (entry_of c kw k))
  = ("type", VStr (class_name c)) :: vars (entry_of c kw k).
Proof. now destruct c. Qed.

(** Building an entry anew from its own attributes gives it back. *)
Lemma new_from_vars (c : variant) (kw : dict val) (e : entry) :
  new c kw = Ok e -> new c (vars e) = Ok e.
Proof.
  intro H. apply new_inv in H. destruct H as [Hb [Hv [k [Hk ->]]]].
  assert (Hb' : bind_args c (vars (entry_of c kw k)) = Ok tt)
    by now destruct c.
  assert (Hv' : violation c (vars (entry_of c kw k)) = false)
    by (destruct c; exact Hv).
  rewrite (new_accepts _ _ Hb' Hv').
  replace (opt (vars (entry_of c kw k)) "key") with k by reflexivity.
  rewrite default_key_given by exact (default_key_not_none _ _ _ _ Hk).
  now destruct c.
Qed.

Lemma from_dict_to_dict (e : entry) (h : store) :
  to_dict e h
  = (Ok (length h),
     h ++ [dict_update [("type", VStr (class_name (cls e)))] (vars e)]).
Proof. reflexivity. Qed.

(** [from_dict] on a dict that starts with the type. *)
Lemma from_dict_typed (c : variant) (kw : dict val) (h : store) :
  fst (from_dict (length h) (h ++ [("type", VStr (class_name c)) :: kw]))
  = new c kw.
Proof.
  unfold from_dict, bindM, dict_copy, dict_pop, bindM, load, alloc,
    store_dict, ret, raise, lift.
  repeat rewrite nth_store_middle.
  cbn [dict_get str_eqb N.eqb Pos.eqb andb dict_del].
  rewrite store_update_middle. cbn [is_none].
  rewrite entry_type_of_class_name.
  rewrite nth_store_middle. reflexivity.
Qed.

(** C1. The dict form of a constructed entry gives back, through
    [from_dict], an entry that is equal to it and has its key and its
    app. *)
Theorem dict_round_trip (c : variant) (kw : dict val) (e : entry) (h : store) :
  new c kw = Ok e ->
  exists d h1,
    to_dict e h = (Ok d, h1)
    /\ exists e',
         fst (from_dict d h1) = Ok e'
         /\ py_eq e' e = true
         /\ attr e' "key" = attr e "key"
         /\ attr e' "app" = attr e "app".
Proof.
  intro H. pose proof (new_from_vars c kw e H) as Hn.
  pose proof (new_inv c kw e H) as [_ [_ [k [_ He]]]].
  exists (length h). eexists. split; [apply from_dict_to_dict|].
  exists e. split.
  - rewrite He at 1 2. cbn [cls entry_of]. rewrite to_dict_content.
    rewrite from_dict_typed. now rewrite <- He.
  - split; [apply py_eq_refl|]. split; reflexivity.
Qed.

Lemma dict_round_trip_witness :
  exists d h1,
    to_dict article_a [] = (Ok d, h1)
    /\ exists e',
         fst (from_dict d h1) = Ok e'
         /\ py_eq e' article_a = true
         /\ attr e' "key" = attr article_a "key"
         /\ attr e' "app" = attr article_a "app".
Proof.
  apply (dict_round_trip Article
           (article_kwargs (VStr "custom.key") (VStr "diverse-seq"))).
  reflexivity.
Defined.

(** ** The summary *)



(** ** White space *)

Lemma take_drop_while (p : N -> bool) (s : str) :
  s = take_while p s ++ drop_while p s.
Proof.
  induction s as [|c s IH]; simpl; [reflexivity|].
  destruct (p c); simpl; [now f_equal | reflexivity].
Qed.

Lemma take_while_all (p : N -> bool) (s : str) :
  forallb p (take_while p s) = true.
Proof.
  induction s as [|c s IH]; simpl; [reflexivity|].
  destruct (p c) eqn:E; simpl; [now rewrite E | reflexivity].
Qed.

Lemma drop_while_app_all (p : N -> bool) (x s : str) :
  forallb p x = true -> drop_while p (x ++ s) = drop_while p s.
Proof.
  induction x as [|c x IH]; simpl; [reflexivity|].
  intro H. apply andb_prop in H. destruct H as [H1 H2]. now rewrite H1, IH.
Qed.

Lemma take_while_app_all (p : N -> bool) (x s : str) :
  forallb p x = true -> take_while p (x ++ s) = x ++ take_while p s.
Proof.
  induction x as [|c x IH]; simpl; [reflexivity|].
  intro H. apply andb_prop in H. destruct H as [H1 H2]. now rewrite H1, IH.
Qed.

Lemma forallb_rev (p : N -> bool) (s : str) :
  forallb p (rev s) = forallb p s.
Proof.
  induction s as [|c s IH]; simpl; [reflexivity|].
  rewrite forallb_app, IH. simpl. rewrite andb_true_r. apply andb_comm.
Qed.

(** A string is [strip] of it between two runs of white space. *)
Lemma lstrip_decomp (s : str) :
  s = take_while is_space s ++ lstrip s.
Proof. apply take_drop_while. Qed.

Lemma rstrip_decomp (s : str) :
  exists sp, s = rstrip s ++ sp /\ forallb is_space sp = true.
Proof.
  exists (rev (take_while is_space (rev s))). split.
  - unfold rstrip. rewrite <- rev_app_distr, <- take_drop_while.
    now rewrite rev_involutive.
  - rewrite forallb_rev. apply take_while_all.
Qed.

Lemma strip_decomp (s : str) :
  exists sp1 sp2,
    s = sp1 ++ strip s ++ sp2
    /\ forallb is_space sp1 = true /\ forallb is_space sp2 = true.
Proof.
  destruct (rstrip_decomp (lstrip s)) as [sp2 [H2 Hsp2]].
  exists (take_while is_space s), sp2. split; [|split].
  - unfold strip. rewrite <- H2. apply lstrip_decomp.
  - apply take_while_all.
  - exact Hsp2.
Qed.

Lemma rstrip_app_space (u sp : str) :
  forallb is_space sp = true -> rstrip (u ++ sp) = rstrip u.
Proof.
  intro H. unfold rstrip. rewrite rev_app_distr.
  rewrite drop_while_app_all; [reflexivity | now rewrite forallb_rev].
Qed.

Lemma lstrip_no_space (u : str) :
  forallb (fun c => negb (is_space c)) u = true -> lstrip u = u.
Proof.
  unfold lstrip. destruct u as [|c u]; simpl; [reflexivity|].
  intro H. apply andb_prop in H. destruct H as [H _].
  apply negb_true_iff in H. now rewrite H.
Qed.

Lemma rstrip_no_space (u : str) :
  forallb (fun c => negb (is_space c)) u = true -> rstrip u = u.
Proof.
  intro H. unfold rstrip.
  rewrite <- (rev_involutive u) at 2. f_equal.
  apply lstrip_no_space. now rewrite forallb_rev.
Qed.

Lemma contains_app (c : N) (a b : str) :
  contains c (a ++ b) = contains c a || contains c b.
Proof. apply existsb_app. Qed.

Lemma contains_spaces (c : N) (sp : str) :
  is_space c = false -> forallb is_space sp = true -> contains c sp = false.
Proof.
  intros Hc. induction sp as [|x sp IH]; simpl; [reflexivity|].
  intro H. apply andb_prop in H. destruct H as [H1 H2].
  rewrite (IH H2), orb_false_r. apply N.eqb_neq. intros ->. congruence.
Qed.

Lemma contains_strip (c : N) (s : str) :
  is_space c = false -> contains c (strip s) = contains c s.
Proof.
  intro Hc. destruct (strip_decomp s) as [sp1 [sp2 [E [H1 H2]]]].
  rewrite E at 2. rewrite !contains_app.
  rewrite (contains_spaces c sp1 Hc H1), (contains_spaces c sp2 Hc H2).
  now rewrite orb_false_r.
Qed.

(** ** Tokens *)

Lemma split_ws_from_spaces (cur sp : str) :
  forallb is_space sp = true ->
  split_ws_from cur sp = split_ws_from cur [].
Proof.
  revert cur. induction sp as [|c sp IH]; intros cur H; [reflexivity|].
  simpl in H. apply andb_prop in H. destruct H as [H1 H2].
  simpl. rewrite H1. destruct cur; rewrite (IH [] H2); reflexivity.
Qed.

Lemma split_ws_from_app_spaces (cur s sp : str) :
  forallb is_space sp = true ->
  split_ws_from cur (s ++ sp) = split_ws_from cur s.
Proof.
  intro H. revert cur. induction s as [|c s IH]; intro cur.
  - now apply split_ws_from_spaces.
  - simpl. destruct (is_space c); [destruct cur|]; now rewrite IH.
Qed.

Lemma split_ws_spaces_app (sp s : str) :
  forallb is_space sp = true -> split_ws (sp ++ s) = split_ws s.
Proof.
  unfold split_ws. induction sp as [|c sp IH]; simpl; [reflexivity|].
  intro H. apply andb_prop in H. destruct H as [H1 H2]. now rewrite H1, IH.
Qed.

Lemma split_ws_strip (s : str) : split_ws (strip s) = split_ws s.
Proof.
  destruct (strip_decomp s) as [sp1 [sp2 [E [H1 H2]]]].
  rewrite E at 2. rewrite split_ws_spaces_app by assumption.
  unfold split_ws. now rewrite split_ws_from_app_spaces.
Qed.

Lemma split_ws_from_cur (c : N) (cur s : str) :
  split_ws_from (c :: cur) s <> [].
Proof.
  revert c cur. induction s as [|x s IH]; intros c cur; simpl.
  - discriminate.
  - destruct (is_space x); [discriminate | apply IH].
Qed.

Lemma split_ws_nil (s : str) :
  split_ws s = [] -> forallb is_space s = true.
Proof.
  unfold split_ws. induction s as [|c s IH]; simpl; [reflexivity|].
  destruct (is_space c); simpl; [exact IH|].
  intro H. now apply split_ws_from_cur in H.
Qed.

(** A string of at most one token is, stripped, that token. *)
Lemma strip_short (cur s : str) :
  forallb (fun c => negb (is_space c)) cur = true ->
  length (split_ws_from cur s) <= 1 ->
  strip (rev cur ++ s) = concat (split_ws_from cur s).
Proof.
  revert cur. induction s as [|c s IH]; intros cur Hcur Hlen.
  - rewrite app_nil_r. unfold strip.
    assert (Hr : forallb (fun c => negb (is_space c)) (rev cur) = true)
      by now rewrite forallb_rev.
    rewrite (lstrip_no_space _ Hr), (rstrip_no_space _ Hr).
    destruct cur; simpl; [reflexivity | now rewrite app_nil_r].
  - simpl in *. destruct (is_space c) eqn:Ec.
    + destruct cur as [|x cur].
      * simpl. unfold strip, lstrip. simpl. rewrite Ec.
        apply (IH [] eq_refl Hlen).
      * simpl in Hlen.
        assert (Hs : split_ws_from [] s = [])
          by (destruct (split_ws_from [] s); [reflexivity | simpl in Hlen; lia]).
        rewrite Hs. simpl concat. rewrite app_nil_r.
        assert (Hr : forallb (fun c => negb (is_space c)) (rev (x :: cur))
                     = true) by now rewrite forallb_rev.
        unfold strip.
        replace (lstrip (rev (x :: cur) ++ c :: s))
          with (rev (x :: cur) ++ c :: s).
        -- rewrite rstrip_app_space.
           ++ now apply rstrip_no_space.
           ++ simpl. rewrite Ec. now apply split_ws_nil.
        -- symmetry. unfold lstrip.
           pose proof (lstrip_no_space _ Hr) as Hl. unfold lstrip in Hl.
           destruct (rev (x :: cur)) as [|y r] eqn:Er.
           ++ apply (f_equal (@length _)) in Er. rewrite length_rev in Er.
              simpl in Er. lia.
           ++ simpl in *. apply andb_prop in Hr. destruct Hr as [Hy _].
              apply negb_true_iff in Hy. now rewrite Hy.
    + replace (rev cur ++ c :: s) with (rev (c :: cur) ++ s)
        by (simpl; now rewrite <- app_assoc).
      apply IH; [|assumption]. simpl. now rewrite Ec.
Qed.

Lemma strip_one_token (s : str) :
  length (split_ws s) <= 1 -> strip s = concat (split_ws s).
Proof. intro H. exact (strip_short [] s eq_refl H). Qed.

(** ** Splitting on a separator *)

Lemma split_from_not_nil (sep : str) (k : nat) (cur s : str) :
  split_from sep k cur s <> [].
Proof.
  revert k cur. induction s as [|c s IH]; intros k cur; simpl.
  - discriminate.
  - destruct k; [|apply IH].
    destruct (starts_with sep (c :: s)); [discriminate | apply IH].
Qed.

Lemma join_cons (sep x : str) (l : list str) :
  l <> [] -> join sep (x :: l) = x ++ sep ++ join sep l.
Proof. destruct l; [congruence | reflexivity]. Qed.

Lemma starts_with_app (p s : str) :
  starts_with p s = true -> s = p ++ skipn (length p) s.
Proof.
  revert s. induction p as [|x p IH]; intros [|y s]; simpl;
    try reflexivity; try discriminate.
  intro H. apply andb_prop in H. destruct H as [H1 H2].
  apply N.eqb_eq in H1. subst. f_equal. now apply IH.
Qed.

Lemma starts_with_length (p s : str) :
  starts_with p s = true -> length p <= length s.
Proof.
  revert s. induction p as [|x p IH]; intros [|y s]; simpl;
    try discriminate; try lia.
  intro H. apply andb_prop in H. destruct H as [_ H2].
  apply IH in H2. lia.
Qed.

(** Joining the pieces of a split gives the text back. *)
Lemma join_split_from (sep : str) (k : nat) (cur s : str) :
  sep <> [] -> k <= length s ->
  join sep (split_from sep k cur s) = rev cur ++ skipn k s.
Proof.
  intro Hsep. revert k cur. induction s as [|c s IH]; intros k cur Hk.
  - simpl in Hk. replace k with 0 by lia. simpl. now rewrite app_nil_r.
  - destruct k as [|k].
    + cbn [split_from skipn]. destruct (starts_with sep (c :: s)) eqn:E.
      * rewrite join_cons by apply split_from_not_nil.
        pose proof (starts_with_length _ _ E) as Hl.
        pose proof (starts_with_app _ _ E) as Ha.
        destruct sep as [|x sep]; [congruence|].
        simpl in Hl. rewrite IH by (simpl; lia).
        f_equal. rewrite Ha at 1. simpl. now rewrite Nat.sub_0_r.
      * rewrite IH by lia. simpl. now rewrite <- app_assoc.
    + cbn [split_from skipn]. apply IH. simpl in Hk. lia.
Qed.

Lemma join_split (sep s : str) : sep <> [] -> join sep (split sep s) = s.
Proof.
  intro H. unfold split. rewrite join_split_from by (assumption || lia).
  reflexivity.
Qed.

(** ** Author names *)

Lemma normalise_with_comma (name : str) :
  contains 44%N name = true -> _normalise_author name = strip name.
Proof.
  intro H. unfold _normalise_author.
  now rewrite contains_strip, H by reflexivity.
Qed.

Lemma normalise_tokens (name : str) :
  contains 44%N name = false -> 2 <= length (split_ws name) ->
  _normalise_author name
  = last (split_ws name) [] ++ ", " ++ join " " (removelast (split_ws name)).
Proof.
  intros H Hl. unfold _normalise_author.
  rewrite contains_strip, H by reflexivity. rewrite split_ws_strip.
  destruct (Nat.leb_spec (length (split_ws name)) 1); [lia | reflexivity].
Qed.

Lemma normalise_one_token (name : str) :
  contains 44%N name = false -> length (split_ws name) <= 1 ->
  _normalise_author name = concat (split_ws name).
Proof.
  intros H Hl. unfold _normalise_author.
  rewrite contains_strip, H by reflexivity. rewrite split_ws_strip.
  destruct (Nat.leb_spec (length (split_ws name)) 1); [|lia].
  now apply strip_one_token.
Qed.

(** C6, as amended.  The field is cut at the separator; a name with a
    comma is stripped of the white space around it; a name without a
    comma and with two or more tokens becomes the last token, a comma and
    the other tokens; a name of one token becomes that token. *)
Theorem parse_authors_normalises :
  (forall raw,
     _parse_authors raw = map _normalise_author (split " and " raw)
     /\ join " and " (split " and " raw) = raw)
  /\ (forall name,
        contains 44%N name = true -> _normalise_author name = strip name)
  /\ (forall name,
        contains 44%N name = false -> 2 <= length (split_ws name) ->
        _normalise_author name
        = last (split_ws name) [] ++ ", "
          ++ join " " (removelast (split_ws name)))
  /\ (forall name token,
        contains 44%N name = false -> split_ws name = [token] ->
        _normalise_author name = token)
  /\ _parse_authors "John Smith and Jane Doe" = ["Smith, John"; "Doe, Jane"]
  /\ _parse_authors "Plato and Jane Smith" = ["Plato"; "Smith, Jane"].
Proof.
  split; [|split; [|split; [|split; [|split]]]].
  - intro raw. split; [reflexivity | now apply join_split].
  - apply normalise_with_comma.
  - apply normalise_tokens.
  - intros name token H Ht.
    rewrite normalise_one_token by (assumption || (rewrite Ht; simpl; lia)).
    rewrite Ht. simpl. apply app_nil_r.
  - reflexivity.
  - reflexivity.
Qed.

Lemma parse_authors_normalises_witness :
  _normalise_author "Smith, John " = "Smith, John"
  /\ _normalise_author "John Smith" = "Smith, John"
  /\ _normalise_author " Plato " = "Plato".
Proof.
  destruct parse_authors_normalises as [_ [H1 [H2 [H3 _]]]].
  split; [|split].
  - rewrite (H1 "Smith, John "); reflexivity.
  - rewrite (H2 "John Smith"); [reflexivity | reflexivity | simpl; lia].
  - apply (H3 " Plato " "Plato"); reflexivity.
Defined.

(** C6, as stated, fails: a name with a comma is not left unchanged when
    white space surrounds it. *)
Lemma parse_authors_strips :
  contains 44%N (hd [] (split " and " two_blanks)) = true
  /\ hd [] (_parse_authors two_blanks) <> hd [] (split " and " two_blanks)
  /\ _parse_authors two_blanks <> spec_parse_authors two_blanks.
Proof. split; [reflexivity|]. split; discriminate. Qed.

(** ** Dicts built by assignment *)

Lemma dict_get_none {A} (d : dict A) (k : str) :
  dict_get d k = None <-> ~ In k (dict_keys d).
Proof.
  induction d as [|[k0 v0] d IH]; simpl.
  - tauto.
  - destruct (str_eqb k k0) eqn:E.
    + apply str_eqb_eq in E. subst. split; [discriminate | tauto].
    + apply str_eqb_neq in E. rewrite IH. intuition congruence.
Qed.

Lemma dict_set_keys {A} (d : dict A) (k : str) (v : A) :
  dict_keys (dict_set d k v)
  = if mem k (dict_keys d) then dict_keys d else dict_keys d ++ [k].
Proof.
  induction d as [|[k0 v0] d IH]; simpl; [reflexivity|].
  destruct (str_eqb k k0) eqn:E; simpl; [reflexivity|].
  rewrite IH. unfold mem. now destruct (existsb (str_eqb k) (dict_keys d)).
Qed.

Lemma dict_set_nodup {A} (d : dict A) (k : str) (v : A) :
  NoDup (dict_keys d) -> NoDup (dict_keys (dict_set d k v)).
Proof.
  intro H. rewrite dict_set_keys. destruct (mem k (dict_keys d)) eqn:E.
  - exact H.
  - apply NoDup_app; [exact H | repeat constructor; intros [] |].
    intros x Hx [<-|[]]. apply mem_In in Hx. congruence.
Qed.

Lemma dict_get_update {A} (e d : dict A) (k : str) :
  NoDup (dict_keys e) ->
  dict_get (dict_update d e) k
  = match dict_get e k with
    | Some v => Some v
    | None => dict_get d k
    end.
Proof.
  unfold dict_update. revert d.
  induction e as [|[k0 v0] e IH]; intros d H; simpl; [reflexivity|].
  inversion H as [|? ? Hnin Hnd]; subst.
  rewrite IH by assumption. rewrite dict_get_set.
  destruct (str_eqb k k0) eqn:E; [|reflexivity].
  apply str_eqb_eq in E. subst.
  apply dict_get_none in Hnin. now rewrite Hnin.
Qed.

Section ParserKwargs.
Context {U : Unicode}.

Lemma copy_field_nodup (fields : dict str) (name : str) (kw : dict val) :
  NoDup (dict_keys kw) -> NoDup (dict_keys (copy_field fields name kw)).
Proof.
  intro H. unfold copy_field. destruct (dict_get fields name);
    [now apply dict_set_nodup | exact H].
Qed.

Lemma copy_authors_field_nodup (fields : dict str) (name : str)
    (kw : dict val) :
  NoDup (dict_keys kw) ->
  NoDup (dict_keys (copy_authors_field fields name kw)).
Proof.
  intro H. unfold copy_authors_field. destruct (dict_get fields name);
    [now apply dict_set_nodup | exact H].
Qed.

Lemma copy_int_field_nodup (fields : dict str) (name : str)
    (kw kw' : dict val) :
  copy_int_field fields name kw = Ok kw' ->
  NoDup (dict_keys kw) -> NoDup (dict_keys kw').
Proof.
  unfold copy_int_field. destruct (dict_get fields name).
  - destruct (py_int s); [|discriminate].
    intro E. injection E as <-. now apply dict_set_nodup.
  - intro E. injection E as <-. auto.
Qed.

Lemma type_kwargs_nodup (c : variant) (fields : dict str) (et : str)
    (extra : dict val) :
  type_kwargs c fields et = Ok extra -> NoDup (dict_keys extra).
Proof.
  destruct c; simpl; unfold _article_kwargs, _book_kwargs,
    _inproceedings_kwargs, _techreport_kwargs, _thesis_kwargs,
    _software_kwargs; simpl.
  - destruct (copy_int_field fields "volume" _) as [kw1|] eqn:E; simpl;
      [|discriminate].
    intro H. apply (copy_int_field_nodup _ _ _ _ H).
    repeat apply copy_field_nodup.
    apply (copy_int_field_nodup _ _ _ _ E).
    apply copy_field_nodup. constructor.
  - intro H; injection H as <-.
    apply copy_authors_field_nodup. repeat apply copy_field_nodup.
    constructor.
  - intro H; injection H as <-.
    apply copy_authors_field_nodup. repeat apply copy_field_nodup.
    constructor.
  - intro H; injection H as <-. repeat apply copy_field_nodup. constructor.
  - intro H; injection H as <-. apply dict_set_nodup.
    apply copy_field_nodup. constructor.
  - intro H; injection H as <-. repeat apply copy_field_nodup. constructor.
  - intro H; injection H as <-. constructor.
Qed.

(** What a copied field becomes. *)
Lemma copy_field_same (fields : dict str) (name : str) (kw : dict val) :
  dict_get (copy_field fields name kw) name
  = match dict_get fields name with
    | Some v => Some (VStr v)
    | None => dict_get kw name
    end.
Proof.
  unfold copy_field. destruct (dict_get fields name); [|reflexivity].
  rewrite dict_get_set. now rewrite str_eqb_refl.
Qed.

Lemma copy_authors_field_same (fields : dict str) (name : str)
    (kw : dict val) :
  dict_get (copy_authors_field fields name kw) name
  = match dict_get fields name with
    | Some v => Some (VList (_parse_authors v))
    | None => dict_get kw name
    end.
Proof.
  unfold copy_authors_field. destruct (dict_get fields name); [|reflexivity].
  rewrite dict_get_set. now rewrite str_eqb_refl.
Qed.

Lemma copy_int_field_same (fields : dict str) (name : str)
    (kw kw' : dict val) :
  copy_int_field fields name kw = Ok kw' ->
  dict_get kw' name
  = match dict_get fields name with
    | Some v => option_map VInt (py_int v)
    | None => dict_get kw name
    end
  /\ forall v, dict_get fields name = Some v -> py_int v <> None.
Proof.
  unfold copy_int_field. destruct (dict_get fields name).
  - destruct (py_int s) eqn:E; [|discriminate].
    intro H. injection H as <-. rewrite dict_get_set, str_eqb_refl.
    split; [reflexivity|]. intros v Hv. injection Hv as <-. congruence.
  - intro H. injection H as <-. split; [reflexivity | discriminate].
Qed.

Lemma copy_int_field_fails (fields : dict str) (name v : str)
    (kw : dict val) :
  dict_get fields name = Some v -> py_int v = None ->
  copy_int_field fields name kw = Err NumericFieldParseError.
Proof. intros H1 H2. unfold copy_int_field. now rewrite H1, H2. Qed.

Lemma copy_int_field_error (fields : dict str) (name : str)
    (kw : dict val) (e : error) :
  copy_int_field fields name kw = Err e -> e = NumericFieldParseError.
Proof.
  unfold copy_int_field. destruct (dict_get fields name).
  - destruct (py_int s); [discriminate | congruence].
  - discriminate.
Qed.

Lemma common_kwargs_year (fields : dict str) (cite_key : str)
    (kw : dict val) :
  _common_kwargs fields cite_key = Ok kw ->
  dict_get kw "year"
  = match dict_get fields "year" with
    | Some v => option_map VInt (py_int v)
    | None => None
    end
  /\ forall v, dict_get fields "year" = Some v -> py_int v <> None.
Proof.
  unfold _common_kwargs.
  destruct (copy_int_field fields "year" _) as [kw1|] eqn:E; simpl;
    [|discriminate].
  intro H. injection H as <-. simpl.
  rewrite !copy_field_get by reflexivity.
  destruct (copy_int_field_same _ _ _ _ E) as [H1 H2].
  split; [|exact H2]. rewrite H1.
  destruct (dict_get fields "year"); [reflexivity|].
  rewrite copy_field_get, copy_authors_field_get by reflexivity.
  reflexivity.
Qed.

Lemma common_kwargs_error (fields : dict str) (cite_key : str) (e : error) :
  _common_kwargs fields cite_key = Err e -> e = NumericFieldParseError.
Proof.
  unfold _common_kwargs.
  destruct (copy_int_field fields "year" _) as [kw1|] eqn:E; simpl;
    [discriminate|].
  intro H. injection H as <-. now apply copy_int_field_error in E.
Qed.

Lemma type_kwargs_no_year (c : variant) (fields : dict str) (et : str)
    (extra : dict val) :
  type_kwargs c fields et = Ok extra -> dict_get extra "year" = None.
Proof.
  destruct c; simpl; unfold _article_kwargs, _book_kwargs,
    _inproceedings_kwargs, _techreport_kwargs, _thesis_kwargs,
    _software_kwargs; simpl.
  - destruct (copy_int_field fields "volume" _) as [kw1|] eqn:E; simpl;
      [|discriminate].
    intro H.
    rewrite (copy_int_field_get fields "number" "year" _ _ eq_refl H).
    rewrite !copy_field_get by reflexivity.
    rewrite (copy_int_field_get fields "volume" "year" _ _ eq_refl E).
    rewrite !copy_field_get by reflexivity. reflexivity.
  - intro H; injection H as <-.
    rewrite copy_authors_field_get, !copy_field_get by reflexivity.
    reflexivity.
  - intro H; injection H as <-.
    rewrite copy_authors_field_get, !copy_field_get by reflexivity.
    reflexivity.
  - intro H; injection H as <-. rewrite !copy_field_get by reflexivity.
    reflexivity.
  - intro H; injection H as <-. rewrite dict_get_set. simpl.
    rewrite !copy_field_get by reflexivity. reflexivity.
  - intro H; injection H as <-. rewrite !copy_field_get by reflexivity.
    reflexivity.
  - intro H; injection H as <-. reflexivity.
Qed.

(** The volume and the number of an article. *)
Lemma article_kwargs_numeric (fields : dict str) (extra : dict val)
    (name : str) :
  _article_kwargs fields = Ok extra ->
  name = "volume" \/ name = "number" ->
  dict_get extra name
  = match dict_get fields name with
    | Some v => option_map VInt (py_int v)
    | None => None
    end
  /\ forall v, dict_get fields name = Some v -> py_int v <> None.
Proof.
  unfold _article_kwargs.
  destruct (copy_int_field fields "volume" _) as [kw1|] eqn:E; simpl;
    [|discriminate].
  intros H [->| ->].
  - rewrite (copy_int_field_get fields "number" "volume" _ _ eq_refl H).
    rewrite !copy_field_get by reflexivity.
    destruct (copy_int_field_same _ _ _ _ E) as [H1 H2].
    split; [|exact H2]. rewrite H1.
    destruct (dict_get fields "volume"); [reflexivity|].
    rewrite copy_field_get by reflexivity. reflexivity.
  - destruct (copy_int_field_same _ _ _ _ H) as [H1 H2].
    split; [|exact H2]. rewrite H1.
    destruct (dict_get fields "number"); [reflexivity|].
    rewrite !copy_field_get by reflexivity.
    rewrite (copy_int_field_get fields "volume" "number" _ _ eq_refl E).
    rewrite copy_field_get by reflexivity. reflexivity.
Qed.

Lemma article_kwargs_fails (fields : dict str) (name v : str) :
  name = "volume" \/ name = "number" ->
  dict_get fields name = Some v -> py_int v = None ->
  _article_kwargs fields = Err NumericFieldParseError.
Proof.
  intros Hn Hv Hi. unfold _article_kwargs.
  destruct (copy_int_field fields "volume" _) as [kw1|e] eqn:E; simpl.
  - destruct Hn as [->| ->].
    + rewrite (copy_int_field_fails _ _ _ _ Hv Hi) in E. discriminate.
    + now apply copy_int_field_fails with (v := v).
  - now apply copy_int_field_error in E; subst.
Qed.

Lemma attr_entry_of (c : variant) (kw : dict val) (k : val) (name : str) :
  In name (own_params c) \/ In name ["author"; "title"; "year"; "doi";
                                     "url"; "note"; "app"] ->
  attr (entry_of c kw k) name = opt kw name.
Proof.
  intros [H|H].
  - destruct c; simpl in H;
      repeat (destruct H as [<-|H]; [reflexivity|]); destruct H.
  - simpl in H.
    repeat (destruct H as [<-|H]; [reflexivity|]); destruct H.
Qed.

End ParserKwargs.

(** ** Numeric fields *)

Lemma numeric_field_cases (c : variant) (name : str) :
  numeric_field c name = true ->
  name = "year" \/ (c = Article /\ (name = "volume" \/ name = "number")).
Proof.
  unfold numeric_field. intro H. apply orb_prop in H. destruct H as [H|H].
  - left. now apply str_eqb_eq.
  - right. destruct c; try discriminate. split; [reflexivity|].
    apply orb_prop in H. destruct H as [H|H]; apply str_eqb_eq in H; auto.
Qed.

(** C5, as amended.  The year of every variant and the volume and the
    number of an article are converted to integers, and text that is no
    integer in one of them makes the parser fail with the numeric error;
    the number of a technical report is kept as text. *)
Theorem numeric_fields_are_converted {U : Unicode}
    (s t k body : str) (c : variant) (fields : dict str) :
  _extract_entries s = [(t, k, body)] ->
  dict_get _TYPE_MAP (str_lower t) = Some c ->
  _parse_fields body = Ok fields ->
  (forall name v,
     numeric_field c name = true -> dict_get fields name = Some v ->
     py_int v = None ->
     from_bibtex_string s = Err NumericFieldParseError)
  /\ (forall e,
        from_bibtex_string s = Ok e ->
        (forall name v,
           numeric_field c name = true -> dict_get fields name = Some v ->
           exists z, py_int v = Some z /\ attr e name = VInt z)
        /\ (c = TechReport ->
            forall v, dict_get fields "number" = Some v ->
                      attr e "number" = VStr v)).
Proof.
  intros He Hc Hf. rewrite (from_bibtex_string_one s t k body He).
  rewrite Hc, Hf. cbn [bind]. split.
  - intros name v Hn Hv Hi.
    destruct (numeric_field_cases c name Hn) as [->|[-> Hname]].
    + unfold _common_kwargs.
      now rewrite (copy_int_field_fails _ _ _ _ Hv Hi).
    + destruct (_common_kwargs fields k) as [kw|e] eqn:Ek; cbn [bind].
      * cbn [type_kwargs _TYPE_KWARGS].
        now rewrite (article_kwargs_fails fields name v Hname Hv Hi).
      * now apply common_kwargs_error in Ek; subst.
  - intros e Hok.
    destruct (_common_kwargs fields k) as [kw|] eqn:Ek; cbn [bind] in Hok;
      [|discriminate].
    destruct (type_kwargs c fields (str_lower t)) as [extra|] eqn:Ex;
      cbn [bind] in Hok; [|discriminate].
    apply new_inv in Hok. destruct Hok as [_ [_ [k' [_ ->]]]].
    pose proof (type_kwargs_nodup _ _ _ _ Ex) as Hnd.
    split.
    + intros name v Hn Hv.
      destruct (numeric_field_cases c name Hn) as [->|[-> Hname]].
      * rewrite attr_entry_of by (right; simpl; tauto).
        unfold opt. rewrite dict_get_update by assumption.
        rewrite (type_kwargs_no_year _ _ _ _ Ex).
        destruct (common_kwargs_year _ _ _ Ek) as [H1 H2].
        rewrite H1, Hv. specialize (H2 v Hv).
        destruct (py_int v) as [z|]; [|congruence].
        exists z. split; reflexivity.
      * rewrite attr_entry_of
          by (left; destruct Hname as [->| ->]; simpl; tauto).
        unfold opt. rewrite dict_get_update by assumption.
        cbn [type_kwargs _TYPE_KWARGS] in Ex.
        destruct (article_kwargs_numeric fields extra name Ex Hname)
          as [H1 H2].
        rewrite H1, Hv. specialize (H2 v Hv).
        destruct (py_int v) as [z|]; [|congruence].
        exists z. split; reflexivity.
    + intros -> v Hv.
      rewrite attr_entry_of by (left; simpl; tauto).
      unfold opt. rewrite dict_get_update by assumption.
      cbn [type_kwargs _TYPE_KWARGS] in Ex. unfold _techreport_kwargs in Ex.
      injection Ex as <-. rewrite copy_field_same, Hv. reflexivity.
Qed.

Lemma numeric_fields_are_converted_witness :
  from_bibtex_string bad_year_text = Err NumericFieldParseError
  /\ exists e,
       from_bibtex_string techreport_text = Ok e
       /\ (exists z, py_int "1936" = Some z /\ attr e "year" = VInt z)
       /\ attr e "number" = VStr "TR-42".
Proof.
  split.
  - refine (proj1 (@numeric_fields_are_converted ascii_tables bad_year_text
                     "misc" "k" (skipn 8 (removelast bad_year_text)) Misc
                     [("author", "Smith, A"); ("title", "Something");
                      ("year", "MMXXIV")] _ _ _) "year" "MMXXIV" _ _ _);
      vm_compute; reflexivity.
  - exists techreport_entry.
    pose proof (@numeric_fields_are_converted ascii_tables techreport_text
                  "techreport" "Turing.1936"
                  (skipn 24 (removelast (removelast (tl techreport_text))))
                  TechReport
                  [("author", "Turing, Alan");
                   ("title", "On Computable Numbers");
                   ("institution", "Cambridge"); ("year", "1936");
                   ("number", "TR-42")]) as H.
    destruct H as [_ H]; try (vm_compute; reflexivity).
    destruct (H techreport_entry) as [H1 H2]; [vm_compute; reflexivity|].
    split; [vm_compute; reflexivity|]. split.
    + apply (H1 "year" "1936"); reflexivity.
    + apply (H2 eq_refl "TR-42"). reflexivity.
Defined.

(** C5, as stated, fails: the number of a technical report is no integer
    and the record is parsed, with the number kept as text. *)
Lemma techreport_number_is_text :
  dict_get _TYPE_MAP "techreport" = Some TechReport
  /\ py_int "TR-42" = None
  /\ exists e,
       from_bibtex_string techreport_text = Ok e
       /\ cls e = TechReport
       /\ attr e "number" = VStr "TR-42".
Proof.
  split; [reflexivity|]. split; [reflexivity|].
  exists techreport_entry. split; [vm_compute; reflexivity|].
  split; reflexivity.
Qed.

(** ** Slices *)

Lemma firstn_app_exact {A} (x s : list A) : firstn (length x) (x ++ s) = x.
Proof.
  rewrite firstn_app, Nat.sub_diag, firstn_all. simpl. apply app_nil_r.
Qed.

Lemma skipn_app_exact {A} (x s : list A) : skipn (length x) (x ++ s) = s.
Proof. rewrite skipn_app, Nat.sub_diag, skipn_all. reflexivity. Qed.

(** ** The entry-start pattern *)

Section EntryStart.
Context {U : Unicode}.

Lemma is_word_ascii (c : N) :
  is_ascii c = true -> is_word c = (ascii_isalnum c || (c =? 95)%N).
Proof. intro H. unfold is_word. now rewrite uni_isalnum_ascii. Qed.

Lemma is_word_not_space (c : N) : is_word c = true -> is_space c = false.
Proof.
  unfold is_word. intro H. apply orb_prop in H. destruct H as [H|H].
  - now apply uni_isalnum_not_space.
  - apply N.eqb_eq in H. now subst.
Qed.

Lemma is_space_not_word (c : N) : is_space c = true -> is_word c = false.
Proof.
  intro H. destruct (is_word c) eqn:E; [|reflexivity].
  apply is_word_not_space in E. congruence.
Qed.

Lemma is_word_at : is_word 64%N = false.
Proof. now rewrite is_word_ascii. Qed.

Lemma is_word_brace : is_word 123%N = false.
Proof. now rewrite is_word_ascii. Qed.

Lemma take_while_stop (p : N -> bool) (x : str) (c : N) (s : str) :
  forallb p x = true -> p c = false -> take_while p (x ++ c :: s) = x.
Proof.
  intros Hx Hc. rewrite take_while_app_all by assumption. simpl.
  rewrite Hc. apply app_nil_r.
Qed.

Lemma drop_while_stop (p : N -> bool) (x : str) (c : N) (s : str) :
  forallb p x = true -> p c = false -> drop_while p (x ++ c :: s) = c :: s.
Proof.
  intros Hx Hc. rewrite drop_while_app_all by assumption. simpl.
  now rewrite Hc.
Qed.

(** The word characters at the head of [w ++ sp ++ "{" ++ rest]. *)
Lemma word_run (w sp rest : str) :
  forallb is_word w = true -> forallb is_space sp = true ->
  take_while is_word (w ++ sp ++ 123%N :: rest) = w
  /\ drop_while is_word (w ++ sp ++ 123%N :: rest) = sp ++ 123%N :: rest.
Proof.
  intros Hw Hsp. destruct sp as [|c sp].
  - simpl. split; [apply take_while_stop | apply drop_while_stop];
      auto using is_word_brace.
  - simpl in Hsp. apply andb_prop in Hsp. destruct Hsp as [Hc _].
    apply is_space_not_word in Hc. simpl.
    split; [apply take_while_stop | apply drop_while_stop]; auto.
Qed.

Lemma match_entry_start_shape (s w : str) (n : nat) :
  match_entry_start s = Some (w, n) ->
  exists sp rest,
    s = 64%N :: w ++ sp ++ 123%N :: rest
    /\ w <> [] /\ forallb is_word w = true /\ forallb is_space sp = true
    /\ n = length w + length sp + 2.
Proof.
  unfold match_entry_start. destruct s as [|c r]; [discriminate|].
  destruct (N.eqb_spec c 64) as [->|Hc].
  2:{ destruct c as [|p]; [discriminate|].
      repeat (destruct p as [p|p|]; try discriminate); congruence. }
  destruct (take_while is_word r) as [|x w'] eqn:Ew; [discriminate|].
  destruct (drop_while is_space (drop_while is_word r)) as [|b rest] eqn:Ed;
    [discriminate|].
  destruct (N.eqb_spec b 123) as [->|Hb].
  2:{ destruct b as [|p]; [discriminate|].
      repeat (destruct p as [p|p|]; try discriminate); congruence. }
  intro H. injection H as <- <-.
  exists (take_while is_space (drop_while is_word r)), rest.
  split; [|split; [discriminate|split; [|split]]].
  - f_equal. rewrite <- Ed, <- Ew.
    rewrite <- take_drop_while. apply take_drop_while.
  - rewrite <- Ew. apply take_while_all.
  - apply take_while_all.
  - simpl. lia.
Qed.

Lemma match_entry_start_here (w sp rest : str) :
  w <> [] -> forallb is_word w = true -> forallb is_space sp = true ->
  match_entry_start (64%N :: w ++ sp ++ 123%N :: rest)
  = Some (w, length w + length sp + 2).
Proof.
  intros Hne Hw Hsp. unfold match_entry_start.
  destruct (word_run w sp rest Hw Hsp) as [-> ->].
  destruct w as [|x w]; [congruence|].
  rewrite take_while_stop, drop_while_stop by (assumption || reflexivity).
  f_equal. f_equal. lia.
Qed.

Lemma matches_here_iff (s : str) (i : nat) :
  matches_here (skipn i s) = true <-> entry_start_at s i.
Proof.
  unfold matches_here, entry_start_at. split.
  - destruct (match_entry_start (skipn i s)) as [[w n]|] eqn:E;
      [|discriminate].
    intros _. apply match_entry_start_shape in E.
    destruct E as [sp [rest [E [H1 [H2 [H3 _]]]]]]. now exists w, sp, rest.
  - intros [w [sp [rest [E [H1 [H2 H3]]]]]]. rewrite E.
    now rewrite match_entry_start_here.
Qed.

Lemma matches_here_at (c : N) (s : str) :
  c <> 64%N -> matches_here (c :: s) = false.
Proof.
  intro H. unfold matches_here.
  destruct (match_entry_start (c :: s)) as [[w n]|] eqn:E; [|reflexivity].
  apply match_entry_start_shape in E.
  destruct E as [sp [rest [E _]]]. congruence.
Qed.

Lemma no_at_run (w sp : str) :
  forallb is_word w = true -> forallb is_space sp = true ->
  no_at (w ++ sp ++ [123%N]) = true.
Proof.
  intros Hw Hsp. unfold no_at. rewrite !forallb_app.
  repeat (apply andb_true_intro; split); try reflexivity.
  - apply forallb_forall. intros c Hc.
    rewrite forallb_forall in Hw. specialize (Hw c Hc).
    apply negb_true_iff, N.eqb_neq. intros ->. rewrite is_word_at in Hw.
    discriminate.
  - apply forallb_forall. intros c Hc.
    rewrite forallb_forall in Hsp. specialize (Hsp c Hc).
    apply negb_true_iff, N.eqb_neq. intros ->. discriminate.
Qed.

(** The matches of [finditer] start where the pattern matches. *)
Lemma finditer_starts (s : str) (pos skip : nat) (i : nat) :
  no_at (firstn skip s) = true ->
  In i (map match_start (finditer_entry_start s pos skip))
  <-> pos <= i /\ matches_here (skipn (i - pos) s) = true.
Proof.
  revert pos skip. induction s as [|c s IH]; intros pos skip Hskip.
  - simpl. rewrite skipn_nil. unfold matches_here. simpl.
    split; [intros [] | intros [_ H]; discriminate].
  - destruct skip as [|k].
    + cbn [finditer_entry_start].
      destruct (match_entry_start (c :: s)) as [[w n]|] eqn:E.
      * cbn [map In]. unfold match_start at 1. cbn [fst snd].
        pose proof (match_entry_start_shape _ _ _ E)
          as [sp [rest [Es [_ [Hw [Hsp Hn]]]]]].
        injection Es as -> ->.
        rewrite IH.
        2:{ replace (n - 1) with (length (w ++ sp ++ [123%N]))
              by (rewrite !length_app; simpl; lia).
            replace (w ++ sp ++ 123%N :: rest)
              with ((w ++ sp ++ [123%N]) ++ rest)
              by (now rewrite <- !app_assoc).
            rewrite firstn_app_exact. now apply no_at_run. }
        split.
        -- intros [<-|[Hle Hm]].
           ++ split; [lia|]. rewrite Nat.sub_diag. cbn [skipn].
              unfold matches_here. now rewrite E.
           ++ split; [lia|].
              replace (i - pos) with (S (i - S pos)) by lia. exact Hm.
        -- intros [Hle Hm]. destruct (Nat.eq_dec i pos) as [->|Hne];
             [now left|]. right. split; [lia|].
           replace (i - pos) with (S (i - S pos)) in Hm by lia. exact Hm.
      * rewrite IH by reflexivity. split.
        -- intros [Hle Hm]. split; [lia|].
           replace (i - pos) with (S (i - S pos)) by lia. exact Hm.
        -- intros [Hle Hm]. destruct (Nat.eq_dec i pos) as [->|Hne].
           ++ rewrite Nat.sub_diag in Hm. cbn [skipn] in Hm.
              unfold matches_here in Hm. rewrite E in Hm. discriminate.
           ++ split; [lia|].
              replace (i - pos) with (S (i - S pos)) in Hm by lia. exact Hm.
    + cbn [finditer_entry_start]. cbn [firstn no_at forallb] in Hskip.
      apply andb_prop in Hskip. destruct Hskip as [Hc Hk].
      apply negb_true_iff, N.eqb_neq in Hc.
      rewrite IH by exact Hk. split.
      * intros [Hle Hm]. split; [lia|].
        replace (i - pos) with (S (i - S pos)) by lia. exact Hm.
      * intros [Hle Hm]. destruct (Nat.eq_dec i pos) as [->|Hne].
        -- rewrite Nat.sub_diag in Hm. cbn [skipn] in Hm.
           rewrite matches_here_at in Hm by assumption. discriminate.
        -- split; [lia|].
           replace (i - pos) with (S (i - S pos)) in Hm by lia. exact Hm.
Qed.

(** The matches start at different positions, each at or after [pos]. *)
Lemma finditer_starts_bound (s : str) (pos skip : nat) (i : nat) :
  In i (map match_start (finditer_entry_start s pos skip)) -> pos <= i.
Proof.
  revert pos skip. induction s as [|c s IH]; intros pos skip;
    cbn [finditer_entry_start].
  - intros [].
  - destruct skip as [|k].
    + destruct (match_entry_start (c :: s)) as [[w n]|].
      * cbn [map In]. intros [<-|H]; [unfold match_start; simpl; lia|].
        apply IH in H. lia.
      * intro H. apply IH in H. lia.
    + intro H. apply IH in H. lia.
Qed.

Lemma finditer_starts_nodup (s : str) (pos skip : nat) :
  NoDup (map match_start (finditer_entry_start s pos skip)).
Proof.
  revert pos skip. induction s as [|c s IH]; intros pos skip;
    cbn [finditer_entry_start].
  - constructor.
  - destruct skip as [|k]; [|apply IH].
    destruct (match_entry_start (c :: s)) as [[w n]|]; [|apply IH].
    cbn [map]. constructor; [|apply IH].
    intro H. apply finditer_starts_bound in H. unfold match_start in H.
    simpl in H. lia.
Qed.

Lemma entry_starts (s : str) (i : nat) :
  In i (map match_start (finditer_entry_start s 0 0)) <-> entry_start_at s i.
Proof.
  rewrite finditer_starts by reflexivity. rewrite Nat.sub_0_r.
  rewrite matches_here_iff. split; [tauto | intro; split; [lia | assumption]].
Qed.

End EntryStart.

(** ** The errors of each stage *)

Section Errors.
Context {U : Unicode}.

Lemma extract_value_error (raw : str) (e : error) :
  _extract_value raw = Err e -> e = SubstringNotFound.
Proof.
  unfold _extract_value.
  destruct (starts_with "{" (strip raw)).
  - destruct (close_brace (strip raw) 0 0); discriminate.
  - destruct (starts_with [34%N] (strip raw)); [|discriminate].
    destruct (find 34%N (skipn 1 (strip raw))); [discriminate | congruence].
Qed.

Lemma parse_matches_error (body : str) (ms : list re_match)
    (fields : dict str) (e : error) :
  parse_matches body ms fields = Err e -> e = SubstringNotFound.
Proof.
  revert fields. induction ms as [|[[w st] en] ms IH]; intros fields;
    cbn [parse_matches]; [discriminate|].
  destruct (_extract_value _) as [v|e'] eqn:E; cbn [bind].
  - apply IH.
  - intro H. injection H as <-. now apply extract_value_error in E.
Qed.

Lemma type_kwargs_error (c : variant) (fields : dict str) (et : str)
    (e : error) :
  type_kwargs c fields et = Err e -> e = NumericFieldParseError.
Proof.
  destruct c; simpl; try discriminate.
  unfold _article_kwargs.
  destruct (copy_int_field fields "volume" _) as [kw1|e'] eqn:E; cbn [bind].
  - apply copy_int_field_error.
  - intro H. injection H as <-. now apply copy_int_field_error in E.
Qed.

Lemma new_error (c : variant) (kw : dict val) (e : error) :
  new c kw = Err e -> other_error e.
Proof.
  intro H. destruct (bind_args c kw) as [[]|e'] eqn:Hb.
  - destruct (violation c kw) eqn:Hv.
    + destruct (new_rejects c kw Hb Hv) as [why Hw].
      rewrite Hw in H. injection H as <-. split; discriminate.
    + rewrite (new_accepts c kw Hb Hv) in H. unfold default_key in H.
      destruct (opt kw "key"); simpl in H; try discriminate.
      destruct (opt kw "author"); simpl in H;
        try (injection H as <-; split; discriminate).
      destruct (opt kw "year"); simpl in H;
        try (injection H as <-; split; discriminate).
      discriminate.
  - rewrite (new_unbound c kw e' Hb) in H. injection H as <-.
    destruct (bind_args_error c kw e' Hb) as [->|[name ->]];
      split; discriminate.
Qed.

(** With one record found, the parser raises neither of the two errors
    on the number of records. *)
Lemma one_entry_error (s : str) (x : str * str * str) (e : error) :
  _extract_entries s = [x] -> from_bibtex_string s = Err e -> other_error e.
Proof.
  destruct x as [[t k] body]. intros Hx H.
  rewrite (from_bibtex_string_one s t k body Hx) in H.
  destruct (dict_get _TYPE_MAP (str_lower t)) as [c|].
  2:{ injection H as <-. split; discriminate. }
  destruct (_parse_fields body) as [fields|e1] eqn:E1; cbn [bind] in H.
  2:{ injection H as <-. apply parse_matches_error in E1. subst.
      split; discriminate. }
  destruct (_common_kwargs fields k) as [kw|e2] eqn:E2; cbn [bind] in H.
  2:{ injection H as <-. apply common_kwargs_error in E2. subst.
      split; discriminate. }
  destruct (type_kwargs c fields (str_lower t)) as [extra|e3] eqn:E3;
    cbn [bind] in H.
  2:{ injection H as <-. apply type_kwargs_error in E3. subst.
      split; discriminate. }
  now apply new_error in H.
Qed.

End Errors.

(** C4. The parser fails with the no-entry error exactly when the
    entry-start pattern occurs nowhere in the text, and with the
    multiple-entries error exactly when it occurs at two places or more;
    with one occurrence it raises neither. *)
Theorem entry_count_errors {U : Unicode} (s : str) :
  (from_bibtex_string s = Err NoEntryFound
   <-> forall i, ~ entry_start_at s i)
  /\ (from_bibtex_string s = Err MultipleEntriesFound
      <-> exists i j, i <> j /\ entry_start_at s i /\ entry_start_at s j)
  /\ (forall i,
        entry_start_at s i -> (forall j, entry_start_at s j -> j = i) ->
        from_bibtex_string s <> Err NoEntryFound
        /\ from_bibtex_string s <> Err MultipleEntriesFound).
Proof.
  pose proof (entry_starts s) as Hin.
  pose proof (finditer_starts_nodup s 0 0) as Hnd.
  destruct (finditer_entry_start s 0 0) as [|m1 [|m2 ms]] eqn:EL;
    cbn [map] in *.
  - assert (R : from_bibtex_string s = Err NoEntryFound)
      by (unfold from_bibtex_string, _extract_entries; now rewrite EL).
    rewrite R. split; [|split].
    + split; [|reflexivity]. intros _ i Hi. now apply Hin in Hi.
    + split; [discriminate|]. intros [i [j [_ [Hi _]]]]. now apply Hin in Hi.
    + intros i Hi. now apply Hin in Hi.
  - assert (H1 : entry_start_at s (match_start m1))
      by (apply Hin; now left).
    assert (Hall : forall i, entry_start_at s i -> i = match_start m1).
    { intros i Hi. apply Hin in Hi. destruct Hi as [<-|[]]. reflexivity. }
    assert (Hx : _extract_entries s = [extract_entry s m1])
      by (unfold _extract_entries; now rewrite EL).
    assert (Hr : from_bibtex_string s <> Err NoEntryFound
                 /\ from_bibtex_string s <> Err MultipleEntriesFound).
    { destruct (from_bibtex_string s) as [e|e] eqn:R; [split; discriminate|].
      destruct (one_entry_error s _ e Hx R) as [Ha Hb]. split; congruence. }
    destruct Hr as [Hr1 Hr2]. split; [|split].
    + split; [intro H; now destruct (Hr1 H) | intro H; now destruct (H _ H1)].
    + split; [intro H; now destruct (Hr2 H)|].
      intros [i [j [Hne [Hi Hj]]]]. apply Hall in Hi, Hj. congruence.
    + intros _ _ _. now split.
  - assert (R : from_bibtex_string s = Err MultipleEntriesFound).
    { unfold from_bibtex_string, _extract_entries. rewrite EL. cbn [map].
      now destruct (extract_entry s m1) as [[t k] b]. }
    inversion Hnd as [|? ? Hnin _]; subst.
    assert (H1 : entry_start_at s (match_start m1))
      by (apply Hin; now left).
    assert (H2 : entry_start_at s (match_start m2))
      by (apply Hin; right; now left).
    assert (Hne : match_start m1 <> match_start m2)
      by (intro E; apply Hnin; rewrite E; now left).
    rewrite R. split; [|split].
    + split; [discriminate | intro H; now destruct (H _ H1)].
    + split; [|reflexivity]. intros _.
      now exists (match_start m1), (match_start m2).
    + intros i Hi Hu. exfalso. apply Hne.
      rewrite (Hu _ H1), (Hu _ H2). reflexivity.
Qed.

Lemma entry_count_errors_witness :
  (forall i, ~ entry_start_at "not a bibtex string" i)
  /\ entry_start_at blank_before_brace 0
  /\ from_bibtex_string blank_before_brace <> Err NoEntryFound.
Proof.
  assert (H0 : entry_start_at blank_before_brace 0).
  { exists "misc", " ", (skipn 7 blank_before_brace).
    repeat split; try reflexivity. discriminate. }
  split; [|split].
  - apply (proj1 (proj1 (@entry_count_errors ascii_tables _))).
    vm_compute. reflexivity.
  - exact H0.
  - intro H.
    apply (proj1 (proj1 (@entry_count_errors ascii_tables _)) H 0 H0).
Defined.

(** C4, as stated, fails: in a record with a blank between the type and
    the brace the pattern of the specification, an at sign, a word and an
    opening brace, occurs nowhere, and the parser finds the record and
    returns its entry.  The pattern of the source allows white space
    before the brace. *)
Lemma blank_before_brace_is_parsed :
  (forall i, ~ spec_entry_start_at blank_before_brace i)
  /\ exists e,
       from_bibtex_string blank_before_brace = Ok e
       /\ cls e = Misc /\ attr e "key" = VStr "k".
Proof.
  split.
  - intros i [w [rest [E [Hne Hw]]]].
    assert (Hi : entry_start_at blank_before_brace i).
    { exists w, [], rest. repeat split; assumption. }
    apply entry_starts in Hi. vm_compute in Hi.
    destruct Hi as [<-|[]]. cbn [skipn] in E.
    unfold blank_before_brace in E. cbn [app] in E.
    injection E as E.
    destruct w as [|c1 [|c2 [|c3 [|c4 [|c5 w]]]]];
      cbn [app] in E; try discriminate E.
    injection E as E1 E2 E3 E4 E5 _. subst c1 c2 c3 c4 c5.
    vm_compute in Hw. discriminate Hw.
  - eexists. split; [vm_compute; reflexivity|]. split; reflexivity.
Qed.

(** ** Integers and their digits *)

Lemma drop_while_head (p : N -> bool) (c : N) (s : str) :
  p c = false -> drop_while p (c :: s) = c :: s.
Proof. intro H. simpl. now rewrite H. Qed.



Section IntRoundTrip.
Context {U : Unicode}.




End IntRoundTrip.



(** ** Plain texts *)

Lemma plain_app (a b : str) : plain (a ++ b) = plain a && plain b.
Proof. apply forallb_app. Qed.

(** ** Stripped texts *)

Lemma rstrip_last (x : str) (c : N) :
  is_space c = false -> rstrip (x ++ [c]) = x ++ [c].
Proof.
  intro H. unfold rstrip. rewrite rev_app_distr. cbn [rev app].
  rewrite drop_while_head by assumption.
  cbn [rev]. now rewrite rev_involutive.
Qed.

Lemma drop_while_app_stop (p : N -> bool) (x : str) (c : N) (y : str) :
  p c = false -> drop_while p (x ++ c :: y) = drop_while p x ++ c :: y.
Proof.
  intro Hc. induction x as [|a x IH]; cbn [app drop_while].
  - now rewrite Hc.
  - destruct (p a); [exact IH | reflexivity].
Qed.

(** [rstrip] stops at a character that is no white space. *)
Lemma rstrip_keep (x : str) (c : N) (rest : str) :
  is_space c = false -> rstrip (x ++ c :: rest) = x ++ c :: rstrip rest.
Proof.
  intro Hc. unfold rstrip. rewrite rev_app_distr. cbn [rev].
  rewrite <- app_assoc. cbn [app].
  rewrite drop_while_app_stop by exact Hc.
  rewrite rev_app_distr. cbn [rev]. rewrite rev_involutive.
  now rewrite <- app_assoc.
Qed.

Lemma strip_keep (ws : str) (c : N) (rest : str) :
  forallb is_space ws = true -> is_space c = false ->
  strip (ws ++ c :: rest) = c :: rstrip rest.
Proof.
  intros Hws Hc. unfold strip, lstrip.
  rewrite drop_while_stop by assumption.
  exact (rstrip_keep [] c rest Hc).
Qed.

Lemma drop_while_length (p : N -> bool) (s : str) :
  length (drop_while p s) <= length s.
Proof.
  induction s as [|c s IH]; cbn [drop_while length]; [lia|].
  destruct (p c); cbn [length]; lia.
Qed.

Lemma drop_while_fixed (p : N -> bool) (c : N) (s : str) :
  drop_while p (c :: s) = c :: s -> p c = false.
Proof.
  cbn [drop_while]. destruct (p c); [|reflexivity].
  intro H. pose proof (drop_while_length p s) as L. rewrite H in L.
  cbn [length] in L. lia.
Qed.

Lemma rstrip_length (s : str) : length (rstrip s) <= length s.
Proof.
  unfold rstrip. rewrite length_rev.
  etransitivity; [apply drop_while_length|]. now rewrite length_rev.
Qed.

(** A text that [strip] leaves as it is has no white space at its ends. *)
Lemma stripped_ends (v : str) :
  strip v = v -> lstrip v = v /\ rstrip v = v.
Proof.
  intro H. assert (Hl : lstrip v = v).
  { pose proof (lstrip_decomp v) as E.
    pose proof (rstrip_length (lstrip v)) as L. fold (strip v) in L.
    rewrite H in L.
    assert (L2 : length v = length (take_while is_space v)
                            + length (lstrip v))
      by (rewrite E at 1; apply length_app).
    destruct (take_while is_space v) as [|c t] eqn:T.
    - now rewrite E at 2.
    - cbn [length] in L2. lia. }
  split; [exact Hl|]. unfold strip in H. now rewrite Hl in H.
Qed.

Lemma stripped_head (c : N) (m : str) :
  strip (c :: m) = c :: m -> is_space c = false.
Proof.
  intro H. apply stripped_ends in H. destruct H as [H _].
  exact (drop_while_fixed is_space c m H).
Qed.

Lemma rstrip_fixed_last (x : str) (z : N) :
  rstrip (x ++ [z]) = x ++ [z] -> is_space z = false.
Proof.
  unfold rstrip. rewrite rev_app_distr. cbn [rev app]. intro H.
  apply (f_equal (@rev N)) in H. rewrite rev_involutive in H.
  rewrite rev_app_distr in H. cbn [rev app] in H.
  exact (drop_while_fixed is_space z (rev x) H).
Qed.

Lemma stripped_last (x : str) (z : N) :
  strip (x ++ [z]) = x ++ [z] -> is_space z = false.
Proof.
  intro H. apply stripped_ends in H. destruct H as [_ H].
  now apply rstrip_fixed_last in H.
Qed.

(** A text without white space at its ends is left as it is. *)
Lemma strip_ends (c : N) (m : str) (z : N) :
  is_space c = false -> is_space z = false ->
  strip (c :: m ++ [z]) = c :: m ++ [z].
Proof.
  intros Hc Hz. pose proof (strip_keep [] c (m ++ [z]) eq_refl Hc) as E.
  cbn [app] in E. rewrite E. now rewrite rstrip_last.
Qed.

Lemma strip_one (c : N) : is_space c = false -> strip [c] = [c].
Proof. intro Hc. exact (strip_keep [] c [] eq_refl Hc). Qed.

Lemma drop_while_head_stop (p : N -> bool) (s : str) (c : N) (t : str) :
  drop_while p s = c :: t -> p c = false.
Proof.
  induction s as [|a s IH]; cbn [drop_while]; [discriminate|].
  destruct (p a) eqn:Ha; [exact IH|]. intro H. now injection H as <- _.
Qed.

Lemma drop_while_idem (p : N -> bool) (s : str) :
  drop_while p (drop_while p s) = drop_while p s.
Proof.
  induction s as [|a s IH]; cbn [drop_while]; [reflexivity|].
  destruct (p a) eqn:Ha; [exact IH|]. cbn [drop_while]. now rewrite Ha.
Qed.

Lemma rstrip_rstrip (s : str) : rstrip (rstrip s) = rstrip s.
Proof.
  unfold rstrip. rewrite rev_involutive. now rewrite drop_while_idem.
Qed.

Lemma strip_strip (s : str) : strip (strip s) = strip s.
Proof.
  unfold strip. destruct (lstrip s) as [|a u] eqn:L; [reflexivity|].
  pose proof (drop_while_head_stop is_space s a u L) as Ha.
  pose proof (rstrip_keep [] a u Ha) as K. cbn [app] in K.
  rewrite K. unfold lstrip. cbn [drop_while]. rewrite Ha.
  rewrite <- K. apply rstrip_rstrip.
Qed.

(** ** The text of a record, read by the parser *)

Lemma plain_no_at (s : str) : plain s = true -> no_at s = true.
Proof.
  unfold plain, no_at. intro H. rewrite forallb_forall in *.
  intros c Hc. specialize (H c Hc). unfold plain_char in H.
  destruct (c =? 64)%N; [|reflexivity].
  now rewrite !orb_true_r in H.
Qed.

Lemma plain_no_brace (s : str) : plain s = true -> no_brace s = true.
Proof.
  unfold plain, no_brace. intro H. rewrite forallb_forall in *.
  intros c Hc. specialize (H c Hc). unfold plain_char in H.
  destruct ((c =? 123) || (c =? 125))%N; [|reflexivity]. exact H.
Qed.

Lemma plain_no_nl (s : str) : plain s = true -> no_nl s = true.
Proof.
  unfold plain, no_nl. intro H. rewrite forallb_forall in *.
  intros c Hc. specialize (H c Hc). unfold plain_char in H.
  destruct (c =? 10)%N; [|reflexivity].
  now rewrite !orb_true_r in H.
Qed.

Lemma lower_char (c : N) :
  ascii_islower c || (c =? 95)%N = true ->
  (97 <= c <= 122 \/ c = 95)%N.
Proof.
  unfold ascii_islower. intro H. bool_to_prop_in H. lia.
Qed.

Lemma lower_name_plain (n : str) : lower_name n = true -> plain n = true.
Proof.
  destruct n as [|x n]; [discriminate|]. unfold lower_name, plain.
  intro H. rewrite forallb_forall in *. intros c Hc.
  specialize (H c Hc). apply lower_char in H. unfold plain_char.
  apply negb_true_iff. bool_to_prop. lia.
Qed.

Lemma lower_name_not_nil (n : str) : lower_name n = true -> n <> [].
Proof. destruct n; [discriminate | discriminate]. Qed.

Lemma plain_repeat_blank (k : nat) : plain (repeat 32%N k) = true.
Proof. induction k; simpl; auto. Qed.

Lemma plain_pad10 (n : str) : lower_name n = true -> plain (pad10 n) = true.
Proof.
  intro H. unfold pad10. rewrite plain_app, (lower_name_plain n H).
  apply plain_repeat_blank.
Qed.

(** Both sides of an equation as lists built to the right. *)
Ltac app_norm :=
  repeat rewrite <- app_assoc; cbn [app]; repeat rewrite <- app_assoc;
  cbn [app].

Ltac len_norm :=
  repeat first [rewrite length_app | progress cbn [length]].

(** The three parts of a line. *)
Lemma fmt_parts (n v : str) :
  fmt (n, v) = field_head "  " n ++ field_value v.
Proof.
  unfold fmt, _format_bibtex_field, field_head, field_value. cbn [fst snd].
  rewrite <- !app_assoc. reflexivity.
Qed.

Section ReadRecord.
Context {U : Unicode}.

Lemma readable_facts (v : str) :
  readable v = true ->
  balanced v = true /\ entry_free v = true /\ field_free v = true.
Proof.
  unfold readable. intro H. apply andb_prop in H. destruct H as [H H3].
  apply andb_prop in H. destruct H as [H1 H2]. auto.
Qed.

Lemma readable_balanced (v : str) : readable v = true -> balanced v = true.
Proof. intro H. now apply readable_facts in H. Qed.

Lemma readable_entry_free (v : str) :
  readable v = true -> entry_free v = true.
Proof. intro H. now apply readable_facts in H. Qed.

Lemma readable_field_free (v : str) :
  readable v = true -> field_free v = true.
Proof. intro H. now apply readable_facts in H. Qed.

Lemma lower_char_word (c : N) :
  ascii_islower c || (c =? 95)%N = true -> is_word c = true.
Proof.
  intro H. pose proof (lower_char c H) as Hc.
  rewrite is_word_ascii by (unfold is_ascii; apply N.ltb_lt; lia).
  unfold ascii_isalnum. apply orb_prop in H. destruct H as [H|H];
    rewrite H; now rewrite ?orb_true_r.
Qed.

Lemma lower_name_word (n : str) :
  lower_name n = true -> forallb is_word n = true.
Proof.
  destruct n as [|x n]; [discriminate|]. unfold lower_name.
  intro H. rewrite forallb_forall in *. intros c Hc.
  apply lower_char_word. now apply H.
Qed.

Lemma lower_char_ascii_lower (c : N) :
  ascii_islower c || (c =? 95)%N = true ->
  is_ascii c = true /\ ascii_lower c = c.
Proof.
  intro H. apply lower_char in H. split.
  - unfold is_ascii. apply N.ltb_lt. lia.
  - unfold ascii_lower, ascii_isupper.
    destruct ((65 <=? c) && (c <=? 90))%N eqn:E; [|reflexivity].
    bool_to_prop_in E. lia.
Qed.

(** [lower()] leaves a name of the rendering as it is. *)
Lemma str_lower_name (n : str) : lower_name n = true -> str_lower n = n.
Proof.
  intro H. assert (Ha : forallb (fun c => ascii_islower c || (c =? 95)%N) n
                        = true) by (destruct n; [discriminate | exact H]).
  clear H. rewrite str_lower_ascii.
  - induction n as [|c n IH]; [reflexivity|]. cbn [forallb] in Ha.
    apply andb_prop in Ha. destruct Ha as [Hc Hn]. cbn [map].
    rewrite (IH Hn). now rewrite (proj2 (lower_char_ascii_lower c Hc)).
  - rewrite forallb_forall in *. intros c Hc.
    apply (lower_char_ascii_lower c). now apply Ha.
Qed.

(** *** The one entry start *)

Lemma finditer_entry_skip (x s : str) (pos : nat) :
  finditer_entry_start (x ++ s) pos (length x)
  = finditer_entry_start s (pos + length x) 0.
Proof.
  revert pos. induction x as [|c x IH]; intro pos.
  - simpl. now rewrite Nat.add_0_r.
  - cbn [app length finditer_entry_start]. rewrite IH. f_equal. lia.
Qed.

Lemma finditer_entry_no_at (s : str) (pos : nat) :
  no_at s = true -> finditer_entry_start s pos 0 = [].
Proof.
  revert pos. induction s as [|c s IH]; intros pos H; [reflexivity|].
  cbn [no_at forallb] in H. apply andb_prop in H. destruct H as [Hc Hs].
  apply negb_true_iff, N.eqb_neq in Hc.
  cbn [finditer_entry_start].
  pose proof (matches_here_at c s Hc) as Hm. unfold matches_here in Hm.
  destruct (match_entry_start (c :: s)); [discriminate|].
  now apply IH.
Qed.

Lemma finditer_entry_lead (pre s : str) (pos : nat) :
  no_at pre = true ->
  finditer_entry_start (pre ++ s) pos 0
  = finditer_entry_start s (pos + length pre) 0.
Proof.
  revert pos. induction pre as [|c pre IH]; intros pos H.
  - cbn [app length]. now rewrite Nat.add_0_r.
  - cbn [no_at forallb] in H. apply andb_prop in H. destruct H as [Hc Hp].
    apply negb_true_iff, N.eqb_neq in Hc.
    cbn [app finditer_entry_start length].
    pose proof (matches_here_at c (pre ++ s) Hc) as Hm.
    unfold matches_here in Hm.
    destruct (match_entry_start (c :: pre ++ s)); [discriminate|].
    rewrite (IH (S pos) Hp). f_equal. lia.
Qed.

Lemma take_while_app_stop (p : N -> bool) (x : str) (c : N) (y : str) :
  p c = false -> take_while p (x ++ c :: y) = take_while p x.
Proof.
  intro Hc. induction x as [|a x IH]; cbn [app take_while].
  - now rewrite Hc.
  - destruct (p a); [now rewrite IH | reflexivity].
Qed.

(** A match of [_ENTRY_START_RE] does not run over a character that is
    no word character, no white space and no opening brace. *)
Lemma match_entry_start_stop (t : str) (c : N) (r : str) :
  is_word c = false -> is_space c = false -> c <> 123%N -> c <> 64%N ->
  match_entry_start t = None -> match_entry_start (t ++ c :: r) = None.
Proof.
  intros Hw Hs Hb Ha H.
  assert (Hno : forall a s, a <> 64%N -> match_entry_start (a :: s) = None).
  { intros a s Hne. pose proof (matches_here_at a s Hne) as M.
    unfold matches_here in M. now destruct (match_entry_start (a :: s)). }
  destruct t as [|a t]; cbn [app]; [now apply Hno|].
  destruct (N.eqb_spec a 64) as [->|Hne]; [|now apply Hno].
  unfold match_entry_start in *. cbv beta iota zeta in *.
  rewrite take_while_app_stop by exact Hw.
  destruct (take_while is_word t) as [|x w]; [reflexivity|].
  rewrite (drop_while_app_stop is_word t c r Hw).
  rewrite (drop_while_app_stop is_space _ c r Hs).
  destruct (drop_while is_space (drop_while is_word t)) as [|b q];
    cbn [app].
  - destruct c as [|p]; [reflexivity|].
    repeat (destruct p as [p|p|]; try reflexivity). congruence.
  - destruct b as [|p]; [reflexivity|].
    repeat (destruct p as [p|p|]; try reflexivity). discriminate H.
Qed.

(** The matches of [_ENTRY_START_RE] pass over a text without an entry
    start, up to a character that ends every match. *)
Lemma finditer_entry_free (x : str) (c : N) (s : str) (pos : nat) :
  entry_free x = true ->
  is_word c = false -> is_space c = false -> c <> 123%N -> c <> 64%N ->
  finditer_entry_start (x ++ c :: s) pos 0
  = finditer_entry_start (c :: s) (pos + length x) 0.
Proof.
  intros H Hw Hs Hb Ha. revert pos.
  induction x as [|a x IH]; intro pos.
  - cbn [app length]. now rewrite Nat.add_0_r.
  - cbn [entry_free] in H. apply andb_prop in H. destruct H as [Hm Hx].
    apply negb_true_iff in Hm. unfold matches_here in Hm.
    destruct (match_entry_start (a :: x)) eqn:E; [discriminate|].
    pose proof (match_entry_start_stop (a :: x) c s Hw Hs Hb Ha E) as E'.
    cbn [app] in E'.
    replace (pos + length (a :: x)) with (S pos + length x)
      by (cbn [length]; lia).
    rewrite <- (IH Hx (S pos)). cbn [app finditer_entry_start].
    now rewrite E'.
Qed.

Lemma no_at_entry_free (s : str) : no_at s = true -> entry_free s = true.
Proof.
  induction s as [|c s IH]; intro H; [reflexivity|].
  cbn [no_at forallb] in H. apply andb_prop in H. destruct H as [Hc Hs].
  apply negb_true_iff, N.eqb_neq in Hc. cbn [entry_free].
  rewrite (matches_here_at c s Hc). exact (IH Hs).
Qed.

Lemma render_entry_start (bt rest : str) :
  lower_name bt = true ->
  finditer_entry_start (64%N :: bt ++ 123%N :: rest) 0 0
  = (bt, 0, length bt + 2)
    :: finditer_entry_start rest (length bt + 2) 0.
Proof.
  intros Hbt. cbn [finditer_entry_start].
  pose proof (match_entry_start_here bt [] rest (lower_name_not_nil _ Hbt)
                (lower_name_word _ Hbt) eq_refl) as E.
  cbn [app length] in E. rewrite E. rewrite Nat.add_0_r.
  f_equal.
  replace (length bt + 2 - 1) with (length (bt ++ [123%N]))
    by (rewrite length_app; simpl; lia).
  replace (bt ++ 123%N :: rest) with ((bt ++ [123%N]) ++ rest)
    by (now rewrite <- app_assoc).
  rewrite finditer_entry_skip. f_equal. rewrite length_app. simpl. lia.
Qed.

(** *** The braces *)

Lemma scan_braces_plain (x s : str) (pos : nat) (d : Z) :
  no_brace x = true -> (d > 0)%Z ->
  scan_braces (x ++ s) pos d = scan_braces s (pos + length x) d.
Proof.
  revert pos. induction x as [|c x IH]; intros pos Hx Hd.
  - simpl. now rewrite Nat.add_0_r.
  - cbn [no_brace forallb] in Hx. apply andb_prop in Hx.
    destruct Hx as [Hc Hx]. apply negb_true_iff in Hc.
    apply orb_false_elim in Hc. destruct Hc as [H1 H2].
    cbn [app scan_braces length].
    destruct (Z.gtb_spec d 0); [|lia]. rewrite H1, H2.
    rewrite IH by assumption. f_equal. lia.
Qed.

Lemma scan_braces_open (s : str) (pos : nat) (d : Z) :
  (d > 0)%Z ->
  scan_braces (123%N :: s) pos d = scan_braces s (S pos) (d + 1).
Proof.
  intro Hd. cbn [scan_braces]. destruct (Z.gtb_spec d 0); [|lia].
  reflexivity.
Qed.

Lemma scan_braces_close (s : str) (pos : nat) (d : Z) :
  (d > 0)%Z ->
  scan_braces (125%N :: s) pos d = scan_braces s (S pos) (d - 1).
Proof.
  intro Hd. cbn [scan_braces]. destruct (Z.gtb_spec d 0); [|lia].
  reflexivity.
Qed.

Lemma no_brace_app (a b : str) : no_brace (a ++ b) = no_brace a && no_brace b.
Proof. apply forallb_app. Qed.

Lemma scan_braces_nested (v s : str) (pos d d' : nat) :
  nesting v d = Some d' ->
  scan_braces (v ++ s) pos (Z.of_nat d + 1)
  = scan_braces s (pos + length v) (Z.of_nat d' + 1).
Proof.
  revert pos d. induction v as [|c v IH]; intros pos d H.
  - cbn [nesting] in H. injection H as <-. cbn [app length].
    now rewrite Nat.add_0_r.
  - cbn [nesting] in H. cbn [app scan_braces length].
    destruct (Z.gtb_spec (Z.of_nat d + 1) 0); [|lia].
    destruct (c =? 123)%N.
    + replace (Z.of_nat d + 1 + 1)%Z with (Z.of_nat (S d) + 1)%Z by lia.
      rewrite (IH (S pos) (S d) H). f_equal. lia.
    + destruct (c =? 125)%N.
      * destruct d as [|d0]; [discriminate|].
        replace (Z.of_nat (S d0) + 1 - 1)%Z with (Z.of_nat d0 + 1)%Z by lia.
        rewrite (IH (S pos) d0 H). f_equal. lia.
      * rewrite (IH (S pos) d H). f_equal. lia.
Qed.

Lemma nesting_shift (v : str) (d d' k : nat) :
  nesting v d = Some d' -> nesting v (d + k) = Some (d' + k).
Proof.
  revert d. induction v as [|c v IH]; intros d H.
  - cbn [nesting] in *. now injection H as <-.
  - cbn [nesting] in *. destruct (c =? 123)%N; [exact (IH (S d) H)|].
    destruct (c =? 125)%N; [|exact (IH d H)].
    destruct d as [|d0]; [discriminate | exact (IH d0 H)].
Qed.

Lemma balanced_nesting (v : str) (d : nat) :
  balanced v = true -> nesting v d = Some d.
Proof.
  unfold balanced. intro H.
  destruct (nesting v 0) as [[|k]|] eqn:N; try discriminate.
  exact (nesting_shift v 0 0 d N).
Qed.

Lemma no_brace_nesting (s : str) (d : nat) :
  no_brace s = true -> nesting s d = Some d.
Proof.
  revert d. induction s as [|c s IH]; intros d H; [reflexivity|].
  cbn [no_brace forallb] in H. apply andb_prop in H. destruct H as [Hc Hs].
  apply negb_true_iff, orb_false_elim in Hc. destruct Hc as [H1 H2].
  cbn [nesting]. rewrite H1, H2. now apply IH.
Qed.

Lemma scan_braces_line (nv : str * str) (s : str) (pos d : nat) :
  field_readable nv = true ->
  scan_braces ((nl ++ fmt nv) ++ s) pos (Z.of_nat d + 1)
  = scan_braces s (pos + length (nl ++ fmt nv)) (Z.of_nat d + 1).
Proof.
  destruct nv as [n v]. unfold field_readable. cbn [fst snd]. intro H.
  apply andb_prop in H. destruct H as [Hn Hv].
  unfold readable in Hv. apply andb_prop in Hv. destruct Hv as [Hv _].
  apply andb_prop in Hv. destruct Hv as [Hv _].
  rewrite fmt_parts. unfold field_value.
  replace ((nl ++ field_head "  " n ++ "{" ++ v ++ "},") ++ s)
    with ((nl ++ field_head "  " n)
          ++ 123%N :: v ++ 125%N :: 44%N :: s).
  2:{ unfold field_head. app_norm. reflexivity. }
  rewrite scan_braces_plain; [|
    unfold field_head; rewrite !no_brace_app;
    rewrite (plain_no_brace _ (plain_pad10 n Hn)); reflexivity | lia].
  rewrite scan_braces_open by lia.
  replace (Z.of_nat d + 1 + 1)%Z with (Z.of_nat (S d) + 1)%Z by lia.
  rewrite (scan_braces_nested v _ _ (S d) (S d) (balanced_nesting v _ Hv)).
  rewrite scan_braces_close by lia.
  replace (Z.of_nat (S d) + 1 - 1)%Z with (Z.of_nat d + 1)%Z by lia.
  change (44%N :: s) with ([44%N] ++ s).
  rewrite scan_braces_plain by (auto; lia).
  f_equal. unfold field_head, nl. len_norm. lia.
Qed.

Lemma scan_braces_lines (fields : list (str * str)) (s : str)
    (pos d : nat) :
  forallb field_readable fields = true ->
  scan_braces (concat (map (fun nv => nl ++ fmt nv) fields) ++ s) pos
    (Z.of_nat d + 1)
  = scan_braces s
      (pos + length (concat (map (fun nv => nl ++ fmt nv) fields)))
      (Z.of_nat d + 1).
Proof.
  revert pos. induction fields as [|nv fields IH]; intros pos H.
  - simpl. now rewrite Nat.add_0_r.
  - cbn [forallb] in H. apply andb_prop in H. destruct H as [Hnv Hf].
    cbn [map concat]. rewrite <- app_assoc.
    rewrite scan_braces_line by assumption. rewrite IH by assumption.
    f_equal. len_norm. lia.
Qed.

(** *** The key *)

Lemma find_first (c : N) (x s : str) :
  contains c x = false -> find c (x ++ c :: s) = Some (length x).
Proof.
  induction x as [|y x IH]; intro H.
  - simpl. now rewrite N.eqb_refl.
  - cbn [contains existsb] in H. apply orb_false_elim in H.
    destruct H as [H1 H2]. cbn [app find length].
    rewrite N.eqb_sym, H1. now rewrite (IH H2).
Qed.

End ReadRecord.

(** *** The fields *)

Section ReadFields.
Context {U : Unicode}.

Lemma run_stop (p : N -> bool) (x y : str) (c : N) (rest : str) :
  forallb p x = true ->
  (forall a, In a y -> p a = false) -> p c = false ->
  take_while p (x ++ y ++ c :: rest) = x
  /\ drop_while p (x ++ y ++ c :: rest) = y ++ c :: rest.
Proof.
  intros Hx Hy Hc. destruct y as [|a y].
  - simpl. split; [now apply take_while_stop | now apply drop_while_stop].
  - cbn [app]. assert (Ha : p a = false) by (apply Hy; now left).
    split; [now apply take_while_stop | now apply drop_while_stop].
Qed.

Lemma spaces_not_word (sp : str) :
  forallb is_space sp = true -> forall a, In a sp -> is_word a = false.
Proof.
  intros H a Ha. rewrite forallb_forall in H.
  apply is_space_not_word. now apply H.
Qed.

Lemma words_not_space (w : str) :
  forallb is_word w = true -> forall a, In a w -> is_space a = false.
Proof.
  intros H a Ha. rewrite forallb_forall in H.
  apply is_word_not_space. now apply H.
Qed.

Lemma is_word_equals : is_word 61%N = false.
Proof. now rewrite is_word_ascii. Qed.

(** [_FIELD_START_RE] at a line of the rendering. *)
Lemma match_field_start_line (ws n sp t : str) :
  forallb is_space ws = true -> lower_name n = true ->
  forallb is_space sp = true ->
  match_field_start (ws ++ n ++ sp ++ 61%N :: 32%N :: 123%N :: t)
  = Some (n, length ws + length n + length sp + 1 + 1).
Proof.
  intros Hws Hn Hsp.
  pose proof (lower_name_word n Hn) as Hw.
  pose proof (lower_name_not_nil n Hn) as Hne.
  unfold match_field_start.
  assert (E1 : take_while is_space (ws ++ n ++ sp ++ 61%N :: 32%N :: 123%N :: t)
               = ws
               /\ drop_while is_space
                    (ws ++ n ++ sp ++ 61%N :: 32%N :: 123%N :: t)
                  = n ++ sp ++ 61%N :: 32%N :: 123%N :: t).
  { destruct n as [|x n]; [congruence|]. cbn [app].
    cbn [forallb] in Hw. apply andb_prop in Hw. destruct Hw as [Hx _].
    apply is_word_not_space in Hx.
    split; [now apply take_while_stop | now apply drop_while_stop]. }
  destruct E1 as [-> ->].
  destruct (run_stop is_word n sp 61%N (32%N :: 123%N :: t) Hw
              (spaces_not_word sp Hsp) is_word_equals) as [-> ->].
  destruct n as [|x n]; [congruence|].
  rewrite take_while_stop, drop_while_stop by (assumption || reflexivity).
  reflexivity.
Qed.

Lemma finditer_field_cons_skip (c : N) (s : str) (pos k : nat) (bol : bool) :
  finditer_field_start (c :: s) pos (S k) bol
  = finditer_field_start s (S pos) k (c =? 10)%N.
Proof. reflexivity. Qed.

Lemma finditer_field_skip (x s : str) (pos : nat) (bol : bool) :
  x <> [] ->
  finditer_field_start (x ++ s) pos (length x) bol
  = finditer_field_start s (pos + length x) 0 (last x 0 =? 10)%N.
Proof.
  revert pos bol. induction x as [|c x IH]; intros pos bol Hne;
    [congruence|].
  destruct x as [|c' x].
  - cbn [app length finditer_field_start last]. f_equal. lia.
  - pose proof (IH (S pos) (c =? 10)%N ltac:(discriminate)) as E.
    cbn [app length] in E. cbn [app length].
    rewrite finditer_field_cons_skip, E. cbn [last]. f_equal. lia.
Qed.

(** A match of [_FIELD_START_RE] does not run over a character that is
    no white space, no word character and no equals sign. *)
Lemma match_field_start_stop (t : str) (c : N) (r : str) :
  is_space c = false -> is_word c = false -> c <> 61%N ->
  match_field_start t = None -> match_field_start (t ++ c :: r) = None.
Proof.
  intros Hs Hw He H. unfold match_field_start in *.
  cbv beta iota zeta in *.
  rewrite (drop_while_app_stop is_space t c r Hs).
  rewrite (take_while_app_stop is_word _ c r Hw).
  destruct (take_while is_word (drop_while is_space t)) as [|x w];
    [reflexivity|].
  rewrite (drop_while_app_stop is_word _ c r Hw).
  rewrite (drop_while_app_stop is_space _ c r Hs).
  destruct (drop_while is_space (drop_while is_word (drop_while is_space t)))
    as [|b q]; cbn [app].
  - destruct c as [|p]; [reflexivity|].
    repeat (destruct p as [p|p|]; try reflexivity). congruence.
  - destruct b as [|p]; [reflexivity|].
    repeat (destruct p as [p|p|]; try reflexivity). discriminate H.
Qed.

Lemma match_field_start_brace (s : str) :
  match_field_start (125%N :: s) = None.
Proof.
  unfold match_field_start. cbn [take_while drop_while].
  change (is_space 125%N) with false. cbv iota. cbn [take_while].
  now rewrite is_word_ascii.
Qed.

(** The matches of [_FIELD_START_RE] pass over the value of a line and
    the brace, the comma and the line feed after it. *)
Lemma finditer_field_value (v s : str) (pos : nat) (bol : bool) :
  field_free v = true -> (bol = true -> field_here v = false) ->
  finditer_field_start (v ++ 125%N :: 44%N :: 10%N :: s) pos 0 bol
  = finditer_field_start s (pos + length v + 3) 0 true.
Proof.
  revert pos bol. induction v as [|a v IH]; intros pos bol H Hb.
  - cbn [app finditer_field_start length]. rewrite match_field_start_brace.
    change (125 =? 10)%N with false. change (44 =? 10)%N with false.
    change (10 =? 10)%N with true. cbv iota.
    destruct bol; f_equal; lia.
  - cbn [field_free] in H. apply andb_prop in H. destruct H as [Ha Hv].
    cbn [app finditer_field_start length].
    assert (E : (if bol
                 then match_field_start (a :: v ++ 125%N :: 44%N :: 10%N :: s)
                 else None) = None).
    { destruct bol; [|reflexivity]. specialize (Hb eq_refl).
      unfold field_here in Hb.
      destruct (match_field_start (a :: v)) eqn:M; [discriminate|].
      apply (match_field_start_stop (a :: v) 125%N (44%N :: 10%N :: s));
        try reflexivity; try discriminate; try assumption.
      now rewrite is_word_ascii. }
    rewrite E. rewrite IH; [f_equal; lia | exact Hv |].
    intro Hnl. rewrite Hnl in Ha. cbn [negb orb] in Ha.
    now apply negb_true_iff in Ha.
Qed.

Lemma no_nl_field_free (s : str) : no_nl s = true -> field_free s = true.
Proof.
  induction s as [|c s IH]; intro H; [reflexivity|].
  cbn [no_nl forallb] in H. apply andb_prop in H. destruct H as [Hc Hs].
  cbn [field_free]. rewrite Hc. exact (IH Hs).
Qed.

Lemma no_nl_app (a b : str) : no_nl (a ++ b) = no_nl a && no_nl b.
Proof. apply forallb_app. Qed.

Lemma last_app_one {A} (x : list A) (c d : A) : last (x ++ [c]) d = c.
Proof. apply last_last. Qed.

Lemma spaces_repeat (k : nat) : forallb is_space (repeat 32%N k) = true.
Proof. induction k; simpl; auto. Qed.

(** The head of a line, written for [match_field_start_line]. *)
Lemma field_head_shape (ws n t : str) :
  field_head ws n ++ 123%N :: t
  = ws ++ n ++ repeat 32%N (10 - length n) ++ 61%N :: 32%N :: 123%N :: t.
Proof. unfold field_head, pad10. app_norm. reflexivity. Qed.

Lemma field_head_length (ws n : str) :
  length (field_head ws n)
  = length ws + length n + length (repeat 32%N (10 - length n)) + 1 + 1.
Proof. unfold field_head, pad10. len_norm. lia. Qed.

(** The matches of [_FIELD_START_RE] on a line and what follows it. *)
Lemma finditer_field_line (ws n v s : str) (pos : nat) :
  ws <> [] -> forallb is_space ws = true -> lower_name n = true ->
  field_free v = true ->
  finditer_field_start (field_head ws n ++ field_value v ++ nl ++ s) pos 0 true
  = (n, pos, pos + length (field_head ws n))
    :: finditer_field_start s
         (pos + length (field_head ws n ++ field_value v ++ nl)) 0 true.
Proof.
  intros Hne Hws Hn Hv.
  assert (Hm : match_field_start
                 (field_head ws n ++ field_value v ++ nl ++ s)
               = Some (n, length (field_head ws n))).
  { unfold field_value. cbn [app]. rewrite field_head_shape.
    rewrite match_field_start_line by (auto using spaces_repeat).
    now rewrite field_head_length. }
  destruct (field_head ws n) as [|c0 hd] eqn:Eh.
  { unfold field_head in Eh. destruct ws; [congruence | discriminate]. }
  cbn [app finditer_field_start]. cbn [app] in Hm. rewrite Hm.
  f_equal. cbn [length]. rewrite Nat.sub_succ, Nat.sub_0_r.
  assert (Hhd : hd <> [] /\ last hd 0%N = 32%N).
  { assert (E : c0 :: hd = (ws ++ pad10 n ++ [61%N]) ++ [32%N])
      by (rewrite <- Eh; unfold field_head; app_norm; reflexivity).
    destruct ws as [|w0 ws]; [congruence|]. cbn [app] in E.
    injection E as _ E. rewrite E. split.
    - destruct (ws ++ pad10 n ++ [61%N]); discriminate.
    - apply last_last. }
  destruct Hhd as [Hhd Hlast].
  rewrite finditer_field_skip by assumption. rewrite Hlast.
  change (32 =? 10)%N with false.
  unfold field_value.
  replace (("{" ++ v ++ "},") ++ nl ++ s)
    with (123%N :: v ++ 125%N :: 44%N :: 10%N :: s)
    by (unfold nl; app_norm; reflexivity).
  cbn [finditer_field_start]. change (123 =? 10)%N with false.
  rewrite (finditer_field_value v s _ false Hv) by discriminate.
  f_equal. len_norm. unfold nl. cbn [length]. lia.
Qed.

(** *** The value of a field *)

Lemma close_brace_nested (v s : str) (i d d' : nat) :
  nesting v d = Some d' ->
  close_brace (v ++ s) i (Z.of_nat d + 1)
  = close_brace s (i + length v) (Z.of_nat d' + 1).
Proof.
  revert i d. induction v as [|c v IH]; intros i d H.
  - cbn [nesting] in H. injection H as <-. cbn [app length].
    now rewrite Nat.add_0_r.
  - cbn [nesting] in H. cbn [app close_brace length].
    destruct (c =? 123)%N.
    + replace (Z.of_nat d + 1 + 1)%Z with (Z.of_nat (S d) + 1)%Z by lia.
      rewrite (IH (S i) (S d) H). f_equal. lia.
    + destruct (c =? 125)%N.
      * destruct d as [|d0]; [discriminate|].
        replace (Z.of_nat (S d0) + 1 - 1)%Z with (Z.of_nat d0 + 1)%Z by lia.
        destruct (Z.eqb_spec (Z.of_nat d0 + 1) 0); [lia|].
        rewrite (IH (S i) d0 H). f_equal. lia.
      * rewrite (IH (S i) d H). f_equal. lia.
Qed.

Lemma close_brace_open (v : str) (i d d' : nat) :
  nesting v d = Some d' -> close_brace v i (Z.of_nat d + 1) = None.
Proof.
  intro H. pose proof (close_brace_nested v [] i d d' H) as E.
  now rewrite app_nil_r in E.
Qed.

Lemma nesting_app (a b : str) (d d' : nat) :
  nesting a d = Some d' -> nesting (a ++ b) d = nesting b d'.
Proof.
  revert d. induction a as [|c a IH]; intros d H.
  - cbn [nesting] in H. now injection H as <-.
  - cbn [nesting app] in *. destruct (c =? 123)%N; [now apply IH|].
    destruct (c =? 125)%N; [|now apply IH].
    destruct d; [discriminate | now apply IH].
Qed.

Lemma nesting_prefix (a b : str) (d : nat) :
  nesting (a ++ b) d <> None -> nesting a d <> None.
Proof.
  revert d. induction a as [|c a IH]; intros d H; [discriminate|].
  cbn [nesting app] in *. destruct (c =? 123)%N; [now apply IH|].
  destruct (c =? 125)%N; [|now apply IH].
  destruct d; [exact H | now apply IH].
Qed.

(** A value in braces that are balanced, with any text after it. *)
Lemma extract_value_balanced (ws v rest : str) :
  forallb is_space ws = true -> balanced v = true ->
  _extract_value (ws ++ "{" ++ v ++ "}" ++ rest) = Ok v.
Proof.
  intros Hws Hv. unfold balanced in Hv.
  destruct (nesting v 0) as [[|d]|] eqn:N; try discriminate.
  unfold _extract_value. cbn [app].
  rewrite (strip_keep ws 123%N (v ++ 125%N :: rest) Hws eq_refl).
  rewrite (rstrip_keep v 125%N rest eq_refl).
  cbn [starts_with]. change (123 =? 123)%N with true. cbn [andb].
  cbn [close_brace]. change (123 =? 123)%N with true. cbv iota.
  change (0 + 1)%Z with (Z.of_nat 0 + 1)%Z.
  rewrite (close_brace_nested v _ 1 0 0 N).
  cbn [close_brace]. change (125 =? 123)%N with false.
  change (125 =? 125)%N with true. cbv iota.
  change (Z.of_nat 0 + 1 - 1 =? 0)%Z with true. cbv iota.
  unfold slice. cbn [skipn].
  replace (1 + length v - 1) with (length v) by lia.
  now rewrite firstn_app_exact.
Qed.

Lemma extract_value_braced (v : str) :
  balanced v = true -> _extract_value (field_value v ++ nl) = Ok v.
Proof.
  intro Hv. unfold field_value.
  replace (("{" ++ v ++ "},") ++ nl) with ([] ++ "{" ++ v ++ "}" ++ "," ++ nl)
    by (app_norm; reflexivity).
  now apply extract_value_balanced.
Qed.

End ReadFields.

Section ReadBody.
Context {U : Unicode}.

Lemma slice_mid (a b c : str) :
  slice (a ++ b ++ c) (length a) (length a + length b) = b.
Proof.
  unfold slice. rewrite skipn_app_exact.
  replace (length a + length b - length a) with (length b) by lia.
  apply firstn_app_exact.
Qed.

Lemma body_lines_cons (nv : str * str) (rest : list (str * str)) :
  body_lines (nv :: rest)
  = field_head "  " (fst nv) ++ field_value (snd nv) ++ nl ++ body_lines rest.
Proof.
  unfold body_lines, body_line. cbn [map concat]. app_norm. reflexivity.
Qed.

(** Where the next match starts. *)
Lemma finditer_lines_start (fields : list (str * str)) (q : nat) :
  forallb field_readable fields = true ->
  match finditer_field_start (body_lines fields) q 0 true with
  | [] => fields = []
  | (_, st, _) :: _ => st = q
  end.
Proof.
  destruct fields as [|[n v] rest]; intro H; [reflexivity|].
  cbn [forallb] in H. apply andb_prop in H. destruct H as [Hnv _].
  unfold field_readable in Hnv. cbn [fst snd] in Hnv. apply andb_prop in Hnv.
  destruct Hnv as [Hn Hv].
  rewrite body_lines_cons. cbn [fst snd].
  rewrite finditer_field_line
    by (auto using readable_field_free; discriminate). reflexivity.
Qed.

(** One step of the loop of [_parse_fields]. *)
Lemma parse_matches_step (pre hd v : str) (n : str) (st : nat)
    (rest : list (str * str)) (D : dict str) :
  forallb field_readable rest = true -> lower_name n = true -> readable v = true ->
  parse_matches (pre ++ hd ++ field_value v ++ nl ++ body_lines rest)
    ((n, st, length pre + length hd)
     :: finditer_field_start (body_lines rest)
          (length pre + length (hd ++ field_value v ++ nl)) 0 true) D
  = parse_matches (pre ++ hd ++ field_value v ++ nl ++ body_lines rest)
      (finditer_field_start (body_lines rest)
         (length pre + length (hd ++ field_value v ++ nl)) 0 true)
      (dict_set D n v).
Proof.
  intros Hrest Hn Hv.
  set (body := pre ++ hd ++ field_value v ++ nl ++ body_lines rest).
  set (q := length pre + length (hd ++ field_value v ++ nl)).
  pose proof (finditer_lines_start rest q Hrest) as Hs.
  cbn [parse_matches].
  assert (Hend : match finditer_field_start (body_lines rest) q 0 true with
                 | [] => length body
                 | (_, next_start, _) :: _ => next_start
                 end = q).
  { destruct (finditer_field_start (body_lines rest) q 0 true)
      as [|[[w st'] en'] ms].
    - subst rest. unfold body, q, body_lines. cbn [map concat].
      len_norm. lia.
    - exact Hs. }
  rewrite Hend.
  assert (Hsl : slice body (length pre + length hd) q = field_value v ++ nl).
  { unfold body, q.
    replace (pre ++ hd ++ field_value v ++ nl ++ body_lines rest)
      with ((pre ++ hd) ++ (field_value v ++ nl) ++ body_lines rest)
      by (app_norm; reflexivity).
    replace (length pre + length hd) with (length (pre ++ hd))
      by (now rewrite length_app).
    replace (length pre + length (hd ++ field_value v ++ nl))
      with (length (pre ++ hd) + length (field_value v ++ nl))
      by (len_norm; lia).
    apply slice_mid. }
  rewrite Hsl, extract_value_braced by now apply readable_balanced. cbn [bind].
  now rewrite str_lower_name.
Qed.

Lemma parse_lines (fields : list (str * str)) (pre : str) (D : dict str) :
  forallb field_readable fields = true ->
  parse_matches (pre ++ body_lines fields)
    (finditer_field_start (body_lines fields) (length pre) 0 true) D
  = Ok (dict_update D fields).
Proof.
  revert pre D. induction fields as [|[n v] rest IH]; intros pre D H.
  - reflexivity.
  - cbn [forallb] in H. apply andb_prop in H. destruct H as [Hnv Hrest].
    unfold field_readable in Hnv. cbn [fst snd] in Hnv. apply andb_prop in Hnv.
    destruct Hnv as [Hn Hv].
    rewrite body_lines_cons. cbn [fst snd].
    rewrite finditer_field_line
    by (auto using readable_field_free; discriminate).
    rewrite parse_matches_step by assumption.
    specialize (IH (pre ++ field_head "  " n ++ field_value v ++ nl)
                   (dict_set D n v) Hrest).
    replace (length (pre ++ field_head "  " n ++ field_value v ++ nl))
      with (length pre + length (field_head "  " n ++ field_value v ++ nl))
      in IH by (len_norm; lia).
    replace ((pre ++ field_head "  " n ++ field_value v ++ nl)
             ++ body_lines rest)
      with (pre ++ field_head "  " n ++ field_value v ++ nl
            ++ body_lines rest) in IH by (app_norm; reflexivity).
    exact IH.
Qed.

Lemma body_of_lines (fields : list (str * str)) :
  body_of fields = nl ++ body_lines fields.
Proof.
  unfold body_of, body_lines.
  induction fields as [|[n v] rest IH]; [reflexivity|].
  cbn [map concat]. unfold body_line. cbn [fst snd]. rewrite fmt_parts.
  rewrite <- app_assoc, IH. unfold field_head. app_norm. reflexivity.
Qed.

Lemma body_of_cons (n v : str) (rest : list (str * str)) :
  body_of ((n, v) :: rest)
  = field_head (nl ++ "  ") n ++ field_value v ++ nl ++ body_lines rest.
Proof.
  rewrite body_of_lines, body_lines_cons. cbn [fst snd].
  unfold field_head. app_norm. reflexivity.
Qed.

(** The fields of the body of a rendered record. *)
Lemma parse_fields_body (fields : list (str * str)) :
  forallb field_readable fields = true ->
  _parse_fields (body_of fields) = Ok (dict_update [] fields).
Proof.
  destruct fields as [|[n v] rest]; intro H; [reflexivity|].
  cbn [forallb] in H. apply andb_prop in H. destruct H as [Hnv Hrest].
  unfold field_readable in Hnv. cbn [fst snd] in Hnv. apply andb_prop in Hnv.
  destruct Hnv as [Hn Hv].
  unfold _parse_fields. rewrite body_of_cons.
  rewrite finditer_field_line
    by (auto using readable_field_free; discriminate).
  pose proof (parse_matches_step [] (field_head (nl ++ "  ") n) v n 0 rest []
                Hrest Hn Hv) as E.
  cbn [app length Nat.add] in E. cbn [Nat.add]. rewrite E.
  pose proof (parse_lines rest (field_head (nl ++ "  ") n ++ field_value v ++ nl)
                (dict_set [] n v) Hrest) as E2.
  replace ((field_head (nl ++ "  ") n ++ field_value v ++ nl)
           ++ body_lines rest)
    with (field_head (nl ++ "  ") n ++ field_value v ++ nl
          ++ body_lines rest) in E2 by (app_norm; reflexivity).
  exact E2.
Qed.

End ReadBody.

Section ReadEntry.
Context {U : Unicode}.

Lemma no_at_app (a b : str) : no_at (a ++ b) = no_at a && no_at b.
Proof. apply forallb_app. Qed.

Lemma finditer_entry_line (nv : str * str) (s : str) (pos : nat) :
  field_readable nv = true ->
  finditer_entry_start ((nl ++ fmt nv) ++ s) pos 0
  = finditer_entry_start s (pos + length (nl ++ fmt nv)) 0.
Proof.
  destruct nv as [n v]. unfold field_readable. cbn [fst snd]. intro H.
  apply andb_prop in H. destruct H as [Hn Hv].
  apply readable_entry_free in Hv.
  rewrite fmt_parts. unfold field_value.
  replace ((nl ++ field_head "  " n ++ "{" ++ v ++ "},") ++ s)
    with ((nl ++ field_head "  " n ++ "{") ++ v ++ 125%N :: [44%N] ++ s)
    by (unfold field_head; app_norm; reflexivity).
  rewrite finditer_entry_lead.
  2:{ unfold field_head. rewrite !no_at_app.
      rewrite (plain_no_at _ (plain_pad10 n Hn)). reflexivity. }
  rewrite (finditer_entry_free v 125%N) by
    (try assumption; try reflexivity; try discriminate;
     now rewrite is_word_ascii).
  change (125%N :: [44%N] ++ s) with ([125%N; 44%N] ++ s).
  rewrite finditer_entry_lead by reflexivity.
  f_equal. unfold field_head, nl. len_norm. lia.
Qed.

Lemma finditer_entry_lines (fields : list (str * str)) (s : str)
    (pos : nat) :
  forallb field_readable fields = true ->
  finditer_entry_start (concat (map (fun nv => nl ++ fmt nv) fields) ++ s)
    pos 0
  = finditer_entry_start s
      (pos + length (concat (map (fun nv => nl ++ fmt nv) fields))) 0.
Proof.
  revert pos. induction fields as [|nv rest IH]; intros pos H.
  - simpl. now rewrite Nat.add_0_r.
  - cbn [forallb] in H. apply andb_prop in H. destruct H as [Hnv Hrest].
    cbn [map concat]. rewrite <- app_assoc.
    rewrite finditer_entry_line by assumption. rewrite IH by assumption.
    f_equal. len_norm. lia.
Qed.

Lemma readable_key_facts (key : str) :
  readable_key key = true ->
  (exists d, nesting key 0 = Some d) /\ entry_free key = true
  /\ contains 44%N key = false /\ strip key = key.
Proof.
  unfold readable_key. intro H. apply andb_prop in H. destruct H as [H H4].
  apply andb_prop in H. destruct H as [H H3].
  apply andb_prop in H. destruct H as [H1 H2].
  apply negb_true_iff in H3. apply str_eqb_eq in H4.
  destruct (nesting key 0) as [d|]; [|discriminate]. eauto.
Qed.

(** The one record of a rendered text. *)
Lemma extract_entries_render (bt key : str) (fields : list (str * str)) :
  lower_name bt = true -> readable_key key = true ->
  forallb field_readable fields = true ->
  _extract_entries (render bt key fields) = [(bt, key, body_of fields)].
Proof.
  intros Hbt Hkey Hf.
  destruct (readable_key_facts key Hkey) as [[dk Hk0] [Hk1 [Hk2 Hk3]]].
  set (L := concat (map (fun nv => nl ++ fmt nv) fields)).
  set (R := key ++ "," ++ L ++ nl ++ "}").
  assert (Et : render bt key fields = (64%N :: bt ++ [123%N]) ++ R)
    by (unfold render, R, L; app_norm; reflexivity).
  assert (Hat : finditer_entry_start R (length bt + 2) 0 = []).
  { unfold R. change ("," ++ L ++ nl ++ "}") with (44%N :: L ++ nl ++ "}").
    rewrite (finditer_entry_free key 44%N) by
      (try assumption; try reflexivity; try discriminate;
       now rewrite is_word_ascii).
    change (44%N :: L ++ nl ++ "}") with ([44%N] ++ L ++ nl ++ "}").
    rewrite finditer_entry_lead by reflexivity.
    unfold L. rewrite finditer_entry_lines by assumption.
    now apply finditer_entry_no_at. }
  unfold _extract_entries.
  replace (finditer_entry_start (render bt key fields) 0 0)
    with [(bt, 0, length bt + 2)].
  2:{ symmetry. rewrite Et. cbn [app]. rewrite <- app_assoc. cbn [app].
      rewrite render_entry_start by assumption. now rewrite Hat. }
  cbn [map]. unfold extract_entry.
  assert (Hskip : skipn (length bt + 2) (render bt key fields) = R).
  { rewrite Et.
    replace (length bt + 2) with (length (64%N :: bt ++ [123%N]))
      by (len_norm; lia).
    apply skipn_app_exact. }
  rewrite Hskip.
  assert (Hscan : scan_braces R (length bt + 2) 1
                  = length bt + 2 + length R).
  { unfold R. change 1%Z with (Z.of_nat 0 + 1)%Z.
    rewrite (scan_braces_nested key _ _ 0 dk Hk0).
    change ("," ++ L ++ nl ++ "}") with ([44%N] ++ L ++ nl ++ "}").
    rewrite scan_braces_plain by (auto; lia).
    unfold L. rewrite scan_braces_lines by assumption. fold L.
    rewrite scan_braces_plain by (auto; lia).
    rewrite scan_braces_close by lia. cbn [scan_braces].
    len_norm. unfold nl. cbn [length]. lia. }
  rewrite Hscan.
  assert (Hbody : slice (render bt key fields) (length bt + 2)
                    (length bt + 2 + length R - 1)
                  = key ++ 44%N :: body_of fields).
  { unfold slice. rewrite Hskip.
    replace (length bt + 2 + length R - 1 - (length bt + 2))
      with (length (key ++ 44%N :: body_of fields)).
    - unfold R, body_of. fold L.
      replace (key ++ "," ++ L ++ nl ++ "}")
        with ((key ++ 44%N :: L ++ nl) ++ "}") by (app_norm; reflexivity).
      apply firstn_app_exact.
    - unfold R, body_of. fold L. len_norm. unfold nl. cbn [length]. lia. }
  rewrite Hbody. rewrite find_first by assumption.
  rewrite firstn_app_exact, Hk3.
  replace (key ++ 44%N :: body_of fields)
    with ((key ++ [44%N]) ++ body_of fields) by (app_norm; reflexivity).
  replace (length key + 1) with (length (key ++ [44%N]))
    by (len_norm; lia).
  now rewrite skipn_app_exact.
Qed.

(** Plain texts are readable. *)
Lemma plain_readable (v : str) : plain v = true -> readable v = true.
Proof.
  intro H. unfold readable, balanced.
  rewrite (no_brace_nesting v 0 (plain_no_brace v H)).
  rewrite (no_at_entry_free v (plain_no_at v H)).
  now rewrite (no_nl_field_free v (plain_no_nl v H)).
Qed.

Lemma fields_ok_readable (fields : list (str * str)) :
  forallb field_ok fields = true -> forallb field_readable fields = true.
Proof.
  intro H. rewrite forallb_forall in *. intros nv Hin.
  specialize (H nv Hin). unfold field_ok in H. unfold field_readable.
  apply andb_prop in H. destruct H as [H1 H2].
  now rewrite H1, (plain_readable _ H2).
Qed.

Lemma plain_key_readable (key : str) :
  plain_key key = true -> readable_key key = true.
Proof.
  unfold plain_key, readable_key. intro H.
  apply andb_prop in H. destruct H as [H H3].
  apply andb_prop in H. destruct H as [H1 H2].
  rewrite (no_brace_nesting key 0 (plain_no_brace key H1)).
  rewrite (no_at_entry_free key (plain_no_at key H1)).
  now rewrite H2, H3.
Qed.

End ReadEntry.

(** ** The rendering of a readable entry *)


Lemma dict_get_In {A} (d : dict A) (k : str) (v : A) :
  dict_get d k = Some v -> In (k, v) d.
Proof.
  induction d as [|[k0 v0] d IH]; simpl; [discriminate|].
  destruct (str_eqb k k0) eqn:E.
  - apply str_eqb_eq in E. subst. intro H. injection H as ->. now left.
  - intro H. right. now apply IH.
Qed.

Section Rendering.
Context {U : Unicode}.












End Rendering.

(** ** The keywords that the parser makes of a rendering *)





Ltac name_cases :=
  repeat match goal with
         | |- context [str_eqb ?k ?s] =>
             is_var k;
             let E := fresh "E" in
             destruct (str_eqb k s) eqn:E;
             [apply str_eqb_eq in E; subst k | ]
         end.

Section Kwargs.
Context {U : Unicode}.


(** What the statements of the keyword functions look up. *)
Lemma copy_field_lookup (fields : dict str) (name k : str) (kw : dict val) :
  dict_get (copy_field fields name kw) k
  = if str_eqb k name
    then match dict_get fields name with
         | Some v => Some (VStr v)
         | None => dict_get kw k
         end
    else dict_get kw k.
Proof.
  unfold copy_field. destruct (dict_get fields name);
    [rewrite dict_get_set|]; now destruct (str_eqb k name).
Qed.

Lemma copy_authors_field_lookup (fields : dict str) (name k : str)
    (kw : dict val) :
  dict_get (copy_authors_field fields name kw) k
  = if str_eqb k name
    then match dict_get fields name with
         | Some v => Some (VList (_parse_authors v))
         | None => dict_get kw k
         end
    else dict_get kw k.
Proof.
  unfold copy_authors_field. destruct (dict_get fields name);
    [rewrite dict_get_set|]; now destruct (str_eqb k name).
Qed.

Lemma copy_int_field_lookup (fields : dict str) (name k : str)
    (kw kw' : dict val) :
  copy_int_field fields name kw = Ok kw' ->
  dict_get kw' k
  = if str_eqb k name
    then match dict_get fields name with
         | Some v => option_map VInt (py_int v)
         | None => dict_get kw k
         end
    else dict_get kw k.
Proof.
  unfold copy_int_field. destruct (dict_get fields name) as [v|].
  - destruct (py_int v) as [z|]; [|discriminate]. intro H.
    injection H as <-. rewrite dict_get_set. now destruct (str_eqb k name).
  - intro H. injection H as <-. now destruct (str_eqb k name).
Qed.


Ltac intro_copies :=
  repeat match goal with
         | |- (_ <- copy_int_field ?f ?n ?kw ;; _) = Ok _ -> _ =>
             let kw1 := fresh "kw" in
             let H := fresh "H" in
             destruct (copy_int_field f n kw) as [kw1|] eqn:H;
             [cbn [bind] | discriminate]
         | |- copy_int_field ?f ?n ?kw = Ok _ -> _ =>
             let H := fresh "H" in intro H
         | |- Ok _ = Ok _ -> _ =>
             let H := fresh "H" in intro H; injection H as <-
         end.

Ltac lookups :=
  repeat first
    [ rewrite dict_get_set
    | rewrite copy_field_lookup
    | rewrite copy_authors_field_lookup
    | match goal with
      | H : copy_int_field _ _ _ = Ok ?kw |- context [dict_get ?kw _] =>
          rewrite (copy_int_field_lookup _ _ _ _ _ H)
      end ].

Lemma common_kwargs_lookup (fields : dict str) (key : str) (kw : dict val)
    (k : str) :
  _common_kwargs fields key = Ok kw ->
  dict_get kw k
  = if str_eqb k "note" then as_str fields "note"
    else if str_eqb k "url" then as_str fields "url"
    else if str_eqb k "doi" then as_str fields "doi"
    else if str_eqb k "year" then as_int fields "year"
    else if str_eqb k "title" then as_str fields "title"
    else if str_eqb k "author" then as_names fields "author"
    else if str_eqb k "key" then Some (VStr key)
    else None.
Proof.
  unfold _common_kwargs. intro_copies. cbn [fold_left]. lookups.
  cbn [dict_get]. unfold as_str, as_int, as_names.
  name_cases; try reflexivity;
    match goal with
    | |- context [dict_get fields ?n] => now destruct (dict_get fields n)
    end.
Qed.

Ltac unfold_kwargs :=
  unfold type_kwargs, _TYPE_KWARGS, _article_kwargs, _book_kwargs,
    _inproceedings_kwargs, _techreport_kwargs, _thesis_kwargs,
    _software_kwargs.

(** The keywords of the call that the parser makes, by the fields of the
    record. *)
Lemma kwargs_lookup (c : variant) (fields : dict str) (key et : str)
    (kw extra : dict val) (n : str) :
  _common_kwargs fields key = Ok kw ->
  type_kwargs c fields et = Ok extra ->
  dict_get (dict_update kw extra) n
  = match dict_get (field_table c) n with
    | Some kd =>
        match dict_get fields n with
        | Some t => convert kd t
        | None => None
        end
    | None =>
        if str_eqb n "key" then Some (VStr key)
        else match c with
             | Thesis =>
                 if str_eqb n "thesis_type" then Some (thesis_type_of et)
                 else None
             | _ => None
             end
    end.
Proof.
  intros H1 H2.
  rewrite (dict_get_update extra kw n (type_kwargs_nodup _ _ _ _ H2)).
  rewrite (common_kwargs_lookup _ _ _ n H1). clear H1. revert H2.
  destruct c; unfold_kwargs; intro_copies; cbn [fold_left]; lookups;
    cbn [field_table app dict_get];
    unfold as_str, as_int, as_names, thesis_type_of;
    name_cases; simpl str_eqb; cbv iota; unfold convert;
    repeat match goal with
           | |- context [dict_get fields ?s] => destruct (dict_get fields s)
           | |- context [py_int ?s] => destruct (py_int s)
           end;
    reflexivity.
Qed.



End Kwargs.

(** ** The entry that the parser makes of a rendering *)

Lemma table_params (c : variant) (n : str) (kd : kind) :
  In (n, kd) (field_table c) -> In n (params c).
Proof.
  intro H. destruct c; cbn in H;
    repeat (destruct H as [H|H]; [injection H as <- <-; apply mem_In;
                                  reflexivity|]);
    contradiction.
Qed.



Lemma attr_entry_of_params (c : variant) (kw : dict val) (k : val)
    (n : str) :
  attr (entry_of c kw k) n
  = if str_eqb n "key" then k
    else if mem n (params c) then opt kw n else VNone.
Proof.
  unfold attr, entry_of. cbn [vars].
  destruct c;
    cbn [own_params map app dict_get params common_params mem existsb];
    name_cases; reflexivity.
Qed.

Lemma violation_ext (c : variant) (kw1 kw2 : dict val) :
  (forall n, In n (params c) -> n <> "key" -> n <> "app" ->
             opt kw1 n = opt kw2 n) ->
  violation c kw1 = violation c kw2.
Proof.
  intro H. unfold violation.
  assert (Ha : opt kw1 "author" = opt kw2 "author")
    by (apply H; [apply mem_In; now destruct c | discriminate..]).
  rewrite Ha. f_equal; [f_equal|].
  - destruct c; cbn [required_fields existsb]; try reflexivity;
      repeat match goal with
             | |- context [opt kw1 ?n] =>
                 rewrite (H n) by
                   first [discriminate | apply mem_In; reflexivity]
             end; reflexivity.
  - destruct c; try reflexivity;
      repeat match goal with
             | |- context [opt kw1 ?n] =>
                 rewrite (H n) by
                   first [discriminate | apply mem_In; reflexivity]
             end; reflexivity.
Qed.




(** ** The round trip through BibTeX *)

Section RoundTrip.
Context {U : Unicode}.



End RoundTrip.




(** ** The errors of [from_dict] *)

Lemma new_error_kind (c : variant) (kw : dict val) (e : error) :
  new c kw = Err e -> constructor_error e.
Proof.
  intro H. destruct (bind_args c kw) as [[]|e'] eqn:Hb.
  - destruct (violation c kw) eqn:Hv.
    + destruct (new_rejects c kw Hb Hv) as [why Hw].
      rewrite Hw in H. injection H as <-. exact I.
    + rewrite (new_accepts c kw Hb Hv) in H. unfold default_key in H.
      destruct (opt kw "key"); simpl in H; try discriminate.
      destruct (opt kw "author"); simpl in H;
        try (injection H as <-; exact I).
      destruct (opt kw "year"); simpl in H;
        try (injection H as <-; exact I).
      discriminate.
  - rewrite (new_unbound c kw e' Hb) in H. injection H as <-.
    destruct (bind_args_error c kw e' Hb) as [->|[name ->]]; exact I.
Qed.

Lemma entry_types_names (s : str) (c : variant) :
  dict_get _ENTRY_TYPES s = Some c <-> s = class_name c.
Proof.
  split.
  - unfold _ENTRY_TYPES. cbn [dict_get]. name_cases;
      try (intro H; injection H as <-; reflexivity).
    discriminate.
  - intros ->. now destruct c.
Qed.

(** What [from_dict] returns, by the dict behind its argument. *)
Lemma from_dict_result (data : ref) (h : store) :
  fst (from_dict data h)
  = match dict_get (nth data h []) "type" with
    | None => Err MissingTypeDiscriminator
    | Some v =>
        if is_none v then Err MissingTypeDiscriminator
        else match entry_type_of v with
             | None => Err (UnknownType v)
             | Some c => new c (dict_del (nth data h []) "type")
             end
    end.
Proof.
  unfold from_dict, dict_copy, dict_pop, bindM, load, alloc, store_dict,
    ret, raise, lift.
  cbn [fst snd]. rewrite nth_store_middle.
  destruct (dict_get (nth data h []) "type") as [v|]; [|reflexivity].
  destruct (is_none v); [reflexivity|].
  destruct (entry_type_of v) as [c|]; [|reflexivity].
  rewrite store_update_middle. now rewrite nth_store_middle.
Qed.

(** X1. [from_dict] fails for a missing type exactly when its dict has no
    ["type"] key or has [None] under it; it fails for an unknown type
    exactly when the value under ["type"] is not [None] and is not the
    name of one of the seven classes, written as the class is; and with
    the name of a class under ["type"] it returns what the call of that
    class with the other items as keywords returns. *)
Theorem from_dict_errors (data : ref) (h : store) :
  let d := nth data h [] in
  (fst (from_dict data h) = Err MissingTypeDiscriminator
   <-> dict_get d "type" = None \/ dict_get d "type" = Some VNone)
  /\ (forall v,
        fst (from_dict data h) = Err (UnknownType v)
        <-> dict_get d "type" = Some v /\ v <> VNone
            /\ forall c, v <> VStr (class_name c))
  /\ (forall c,
        dict_get d "type" = Some (VStr (class_name c)) ->
        fst (from_dict data h) = new c (dict_del d "type")).
Proof.
  intro d. rewrite from_dict_result. fold d.
  assert (Hty : forall v c, entry_type_of v = Some c <-> v = VStr (class_name c)).
  { intros v c. destruct v as [|s| |]; cbn [entry_type_of];
      try (split; discriminate).
    rewrite entry_types_names. split; [now intros -> | congruence]. }
  split; [|split].
  - destruct (dict_get d "type") as [v|]; [|tauto].
    destruct v as [|s|z|l]; cbn [is_none]; try tauto;
      (split; [|intros [H|H]; discriminate]);
      destruct (entry_type_of _) as [c|]; try discriminate;
      intro H; apply new_error_kind in H; contradiction.
  - intro v. destruct (dict_get d "type") as [w|].
    2:{ split; [discriminate | intros [H _]; discriminate]. }
    destruct (is_none w) eqn:Hn.
    { destruct w; try discriminate. split; [discriminate|].
      intros [H [Hv _]]. congruence. }
    destruct (entry_type_of w) as [c|] eqn:Ht.
    + split.
      * intro H. apply new_error_kind in H. contradiction.
      * intros [H [_ Hc]]. injection H as <-. apply Hty in Ht.
        now apply Hc in Ht.
    + split.
      * intro H. injection H as <-. split; [reflexivity|]. split.
        -- intros ->. discriminate.
        -- intros c Hc. apply Hty in Hc. congruence.
      * intros [H _]. now injection H as <-.
  - intros c H. rewrite H. cbn [is_none].
    now rewrite (proj2 (Hty _ c) eq_refl).
Qed.

(** ** Equality as a relation *)

(** X2. [==] on entries is reflexive, symmetric and transitive, and two
    entries that are equal have the same hash, whatever their
    attributes are. *)
Theorem eq_is_equivalence :
  (forall a, py_eq a a = true)
  /\ (forall a b, py_eq a b = py_eq b a)
  /\ (forall a b c, py_eq a b = true -> py_eq b c = true -> py_eq a c = true)
  /\ (forall hash a b, py_eq a b = true -> __hash__ hash a = __hash__ hash b).
Proof.
  split; [exact py_eq_refl|]. split; [|split].
  - intros a b. apply eq_true_iff_eq. rewrite !py_eq_iff.
    split; intros [H1 H2]; split; congruence.
  - intros a b c Hab Hbc. apply py_eq_iff in Hab, Hbc. apply py_eq_iff.
    destruct Hab, Hbc. split; congruence.
  - intros hash a b H. apply py_eq_iff in H. destruct H as [H1 H2].
    unfold __hash__. now rewrite H1, H2.
Qed.

(** ** The fields of [__repr__] *)

Lemma dict_get_app {A} (a b : dict A) (k : str) :
  dict_get (a ++ b) k
  = match dict_get a k with
    | Some v => Some v
    | None => dict_get b k
    end.
Proof.
  induction a as [|[k0 v0] a IH]; [reflexivity|].
  cbn [app dict_get]. now destruct (str_eqb k k0).
Qed.

Lemma dict_get_append_if_set (self : entry) (name : str)
    (fields : list (str * val)) (k : str) :
  dict_get (append_if_set self name fields) k
  = match dict_get fields k with
    | Some v => Some v
    | None =>
        if str_eqb k name
        then if is_none (attr self name) then None
             else Some (attr self name)
        else None
    end.
Proof.
  unfold append_if_set. destruct (is_none (attr self name)).
  - destruct (dict_get fields k); [reflexivity|].
    now destruct (str_eqb k name).
  - rewrite dict_get_app. cbn [dict_get].
    destruct (dict_get fields k); reflexivity.
Qed.

(** The parameters that [_repr_fields] lists only when they are set. *)
Lemma repr_fields_get (self : entry) (k : str) :
  dict_get (_repr_fields self) k
  = if mem k (required_params (cls self)) then Some (attr self k)
    else if mem k (params (cls self)) && negb (mem k _EXCLUDED)
         then if is_none (attr self k) then None else Some (attr self k)
         else None.
Proof.
  unfold _repr_fields, _append_common_optional_repr.
  destruct (cls self);
    rewrite ?dict_get_append_if_set, ?dict_get_app;
    cbn [dict_get required_params params common_params own_params app mem
         existsb _EXCLUDED];
    name_cases; cbn; try reflexivity;
    repeat match goal with
           | |- context [is_none ?v] => destruct (is_none v)
           end; reflexivity.
Qed.

Lemma val_eqb_eq (a b : val) : val_eqb a b = true -> a = b.
Proof.
  destruct a as [|s|x|l], b as [|t|y|m]; cbn [val_eqb]; try discriminate.
  - reflexivity.
  - intro H. apply str_eqb_eq in H. now subst.
  - intro H. apply Z.eqb_eq in H. now subst.
  - intro H. apply andb_prop in H. destruct H as [Hl Hf].
    apply Nat.eqb_eq in Hl. f_equal. revert m Hl Hf.
    induction l as [|x l IH]; intros [|y m] Hl Hf; try discriminate;
      [reflexivity|].
    cbn [combine forallb fst snd] in Hf. apply andb_prop in Hf.
    destruct Hf as [Hx Hf]. apply str_eqb_eq in Hx. subst y. f_equal.
    apply IH; [now injection Hl | exact Hf].
Qed.

(** X3. The fields that [__repr__] writes are keywords that rebuild the
    entry: for an entry that a constructor returned, with a list of
    authors and an integer year, the call of its class with these fields
    returns an entry that is equal to it and has its key and all its
    attributes but [app], which [__repr__] does not write. *)
Theorem repr_fields_rebuild (c : variant) (kw : dict val) (e : entry)
    (l : list str) (y : Z) :
  new c kw = Ok e ->
  attr e "author" = VList l -> attr e "year" = VInt y ->
  exists fields e',
    repr_fields e = Ok fields
    /\ new c fields = Ok e'
    /\ py_eq e' e = true
    /\ attr e' "key" = attr e "key"
    /\ attr e' "app" = VNone
    /\ forall name, name <> "app" -> attr e' name = attr e name.
Proof.
  intros Hnew Ha Hy.
  destruct (new_inv _ _ _ Hnew) as [Hb [Hv [k [Hk He]]]].
  assert (Hc : cls e = c) by (subst e; reflexivity).
  assert (Hkey : attr e "key" = k)
    by (rewrite He; apply attr_key_entry_of).
  pose proof (default_key_not_none _ _ _ _ Hk) as Hkn.
  assert (Hfields : exists fields,
             repr_fields e = Ok fields
             /\ (forall n, n <> "key" ->
                           dict_get fields n = dict_get (_repr_fields e) n)
             /\ default_key (opt fields "key") (VList l) (VInt y) = Ok k).
  { unfold repr_fields. rewrite Ha, Hy, Hkey.
    destruct (val_eqb k (VStr (generate_key l y))) eqn:E; cbn [negb].
    - eexists. split; [reflexivity|]. split; [reflexivity|].
      apply val_eqb_eq in E. unfold opt. rewrite repr_fields_get.
      rewrite Hc. replace (mem "key" (required_params c)) with false
        by now destruct c.
      replace (mem "key" (params c) && negb (mem "key" _EXCLUDED))
        with false by now destruct c.
      now rewrite E.
    - eexists. split; [reflexivity|]. split.
      + intros n Hn. cbn [dict_get].
        destruct (str_eqb n "key") eqn:En; [|reflexivity].
        apply str_eqb_eq in En. contradiction.
      + unfold opt. cbn [dict_get str_eqb N.eqb Pos.eqb andb].
        now apply default_key_given. }
  destruct Hfields as [fields [Hr [Hget Hdk]]].
  assert (Hopt : forall n, In n (params c) -> n <> "key" -> n <> "app" ->
                           opt fields n = attr e n).
  { intros n Hin Hn1 Hn2. unfold opt. rewrite (Hget n Hn1).
    rewrite repr_fields_get, Hc.
    destruct (mem n (required_params c)); [reflexivity|].
    rewrite (proj2 (mem_In _ _) Hin).
    replace (mem n _EXCLUDED) with false.
    - cbn [negb andb]. now destruct (attr e n).
    - symmetry. cbn [_EXCLUDED mem existsb].
      apply str_eqb_neq in Hn1, Hn2. now rewrite Hn1, Hn2. }
  assert (HeK : forall n, In n (params c) -> n <> "key" -> n <> "app" ->
                          opt fields n = opt kw n).
  { intros n Hin Hn1 Hn2. rewrite (Hopt n Hin Hn1 Hn2). rewrite He.
    rewrite attr_entry_of_params.
    destruct (str_eqb n "key") eqn:E;
      [apply str_eqb_eq in E; contradiction|].
    now rewrite (proj2 (mem_In _ _) Hin). }
  assert (Happ : dict_get fields "app" = None).
  { rewrite Hget by discriminate. rewrite repr_fields_get, Hc.
    now destruct c. }
  assert (HbK : bind_args c fields = Ok tt).
  { apply bind_args_binds. split.
    - intros n Hin. destruct (str_eqb n "key") eqn:En.
      + apply str_eqb_eq in En. subst n. apply mem_In. now destruct c.
      + apply str_eqb_neq in En.
        destruct (dict_get fields n) as [v|] eqn:G.
        2:{ apply dict_get_none in G. contradiction. }
        rewrite (Hget n En), repr_fields_get, Hc in G.
        destruct (mem n (required_params c)) eqn:M.
        * apply mem_In in M. apply mem_In. revert M.
          unfold params, required_params.
          destruct c; cbn; intuition (subst; reflexivity).
        * destruct (mem n (params c)) eqn:M2; [now apply mem_In|].
          discriminate.
    - intros p Hp.
      assert (Hpk : p <> "key")
        by (intros ->; destruct c; cbn in Hp; intuition discriminate).
      rewrite (Hget p Hpk), repr_fields_get, Hc.
      now rewrite (proj2 (mem_In _ _) Hp). }
  assert (HvK : violation c fields = false)
    by (rewrite (violation_ext c fields kw HeK); exact Hv).
  assert (Hau : opt fields "author" = VList l).
  { rewrite <- Ha. apply Hopt; [apply mem_In; now destruct c | discriminate..]. }
  assert (Hye : opt fields "year" = VInt y).
  { rewrite <- Hy. apply Hopt; [apply mem_In; now destruct c | discriminate..]. }
  assert (Hattr : forall n, n <> "app" ->
                            attr (entry_of c fields k) n = attr e n).
  { intros n Hn. rewrite attr_entry_of_params.
    destruct (str_eqb n "key") eqn:E.
    - apply str_eqb_eq in E. subst n. now rewrite Hkey.
    - destruct (mem n (params c)) eqn:M.
      + apply Hopt; [now apply mem_In | | exact Hn].
        intro Hn'. subst n. discriminate E.
      + rewrite He, attr_entry_of_params, E, M. reflexivity. }
  exists fields, (entry_of c fields k).
  split; [exact Hr|]. split.
  { rewrite (new_accepts c fields HbK HvK), Hau, Hye, Hdk. reflexivity. }
  split.
  { apply py_eq_iff. split; [now rewrite He|].
    rewrite He at 1. apply content_fields_attrs. intros n Hn.
    rewrite <- He. apply Hattr. intro Hn'. subst n. discriminate Hn. }
  split; [apply Hattr; discriminate|]. split; [|exact Hattr].
  rewrite attr_entry_of by (right; cbn; tauto). unfold opt.
  now rewrite Happ.
Qed.

(** ** The three forms of a field value *)

(** X4. A value in braces is the text between the opening brace and the
    brace that closes it, with the braces nested in it, whatever follows
    the closing brace; when no brace closes it, the value is the text
    with its opening brace, without the white space after it. *)
Theorem extract_value_braces (ws v rest : str) :
  forallb is_space ws = true ->
  (balanced v = true ->
   _extract_value (ws ++ "{" ++ v ++ "}" ++ rest) = Ok v)
  /\ (nesting v 0 <> None ->
      _extract_value (ws ++ "{" ++ v) = Ok ("{" ++ rstrip v)).
Proof.
  intro Hws. split.
  - intro Hv. now apply extract_value_balanced.
  - intro Hv. unfold _extract_value. cbn [app].
    rewrite (strip_keep ws 123%N v Hws eq_refl).
    cbn [starts_with]. change (123 =? 123)%N with true. cbn [andb].
    cbn [close_brace]. change (123 =? 123)%N with true. cbv iota.
    destruct (rstrip_decomp v) as [sp [E _]].
    assert (Hr : nesting (rstrip v) 0 <> None)
      by (apply (nesting_prefix _ sp); now rewrite <- E).
    destruct (nesting (rstrip v) 0) as [d|] eqn:N; [|congruence].
    change (0 + 1)%Z with (Z.of_nat 0 + 1)%Z.
    now rewrite (close_brace_open _ 1 0 d N).
Qed.

Lemma find_none (c : N) (s : str) :
  find c s = None <-> contains c s = false.
Proof.
  induction s as [|x s IH]; [split; reflexivity|].
  cbn [find contains existsb]. rewrite (N.eqb_sym c x).
  destruct (x =? c)%N; cbn [orb].
  - split; discriminate.
  - unfold contains in IH. rewrite <- IH.
    destruct (find c s); split; (discriminate || reflexivity).
Qed.

(** X5. A value in double quotes is the text between the first quote and
    the next one, whatever follows; and the failure on a quote that is
    not closed - a text that, stripped, starts with a double quote and
    has no other - is the one failure of [_extract_value]. *)
Theorem extract_value_quotes :
  (forall ws v rest,
     forallb is_space ws = true -> contains 34%N v = false ->
     _extract_value (ws ++ [34%N] ++ v ++ [34%N] ++ rest) = Ok v)
  /\ (forall raw e,
        _extract_value raw = Err e
        <-> e = SubstringNotFound
            /\ exists t, strip raw = 34%N :: t /\ contains 34%N t = false).
Proof.
  split.
  - intros ws v rest Hws Hv. unfold _extract_value. cbn [app].
    rewrite (strip_keep ws 34%N (v ++ 34%N :: rest) Hws eq_refl).
    rewrite (rstrip_keep v 34%N rest eq_refl).
    cbn [starts_with skipn]. change (123 =? 34)%N with false.
    change (34 =? 34)%N with true. cbn [andb].
    rewrite (find_first 34%N v (rstrip rest) Hv).
    unfold slice. cbn [skipn].
    replace (1 + length v - 1) with (length v) by lia.
    now rewrite firstn_app_exact.
  - intros raw e. unfold _extract_value.
    destruct (strip raw) as [|c t] eqn:E.
    { cbn. split; [discriminate | intros [_ [t [H _]]]; discriminate]. }
    cbn [starts_with skipn]. rewrite !andb_true_r.
    destruct (Pos.eqb_spec 123 1) as [|_]; [discriminate|].
    destruct (N.eqb_spec 123 c) as [<-|Hb].
    { destruct (close_brace _ 0 0);
        (split; [discriminate | intros [_ [t' [H _]]]; discriminate]). }
    destruct (N.eqb_spec 34 c) as [<-|Hq].
    + destruct (find 34%N t) as [j|] eqn:F.
      * split; [discriminate|]. intros [_ [t' [H Hc]]].
        injection H as <-. apply find_none in Hc. congruence.
      * split.
        -- intro H. injection H as <-. split; [reflexivity|].
           exists t. split; [reflexivity | now apply find_none].
        -- intros [-> _]. reflexivity.
    + split; [discriminate|]. intros [_ [t' [H _]]]. congruence.
Qed.

Lemma starts_with_one_app (c : N) (v s : str) :
  v <> [] -> starts_with [c] (v ++ s) = starts_with [c] v.
Proof. destruct v as [|x v]; [congruence|]. reflexivity. Qed.

Lemma rstrip_comma_commas (v : str) (k : nat) :
  rstrip_comma (v ++ repeat 44%N k) = rstrip_comma v.
Proof.
  unfold rstrip_comma. rewrite rev_app_distr.
  rewrite drop_while_app_all; [reflexivity|].
  rewrite forallb_rev. induction k; cbn; auto.
Qed.

(** X6. A bare value - a text that starts with neither a brace nor a
    double quote, has no white space at its ends and does not end with a
    comma - is read as it is, without the commas and the white space
    that follow it and the white space before it. *)
Theorem extract_value_bare (ws v ws' : str) (k : nat) :
  forallb is_space ws = true -> forallb is_space ws' = true ->
  v <> [] -> strip v = v -> rstrip_comma v = v ->
  starts_with "{" v = false -> starts_with [34%N] v = false ->
  _extract_value (ws ++ v ++ repeat 44%N k ++ ws') = Ok v.
Proof.
  intros Hws Hws' Hne Hs Hc Hb Hq.
  destruct v as [|c m]; [congruence|].
  pose proof (stripped_head c m Hs) as Hhd.
  destruct (stripped_ends _ Hs) as [_ Hr].
  assert (Es : strip (ws ++ (c :: m) ++ repeat 44%N k ++ ws')
               = (c :: m) ++ repeat 44%N k).
  { cbn [app]. rewrite (strip_keep ws c _ Hws Hhd).
    rewrite app_assoc, rstrip_app_space by exact Hws'.
    destruct k as [|k].
    - cbn [repeat]. rewrite app_nil_r.
      pose proof (rstrip_keep [] c m Hhd) as K. cbn [app] in K.
      rewrite K in Hr. exact Hr.
    - replace (repeat 44%N (S k)) with (repeat 44%N k ++ [44%N])
        by (rewrite <- repeat_cons; reflexivity).
      rewrite app_assoc, rstrip_last by reflexivity. reflexivity. }
  unfold _extract_value. rewrite Es.
  rewrite !starts_with_one_app by discriminate.
  change (starts_with "{" (c :: m)) with (starts_with [123%N] (c :: m)) in Hb.
  rewrite Hb, Hq. now rewrite rstrip_comma_commas, Hc, Hs.
Qed.

(** ** Records on one line *)

Lemma forallb_firstn {A} (p : A -> bool) (n : nat) (l : list A) :
  forallb p l = true -> forallb p (firstn n l) = true.
Proof.
  revert n. induction l as [|x l IH]; intros [|n] H; try reflexivity.
  cbn [forallb firstn] in *. apply andb_prop in H. destruct H as [H1 H2].
  now rewrite H1, IH.
Qed.

Lemma forallb_skipn {A} (p : A -> bool) (n : nat) (l : list A) :
  forallb p l = true -> forallb p (skipn n l) = true.
Proof.
  revert n. induction l as [|x l IH]; intros [|n] H; try reflexivity.
  - exact H.
  - cbn [forallb skipn] in *. apply andb_prop in H. now apply IH.
Qed.

Lemma dict_set_length {A} (d : dict A) (k : str) (v : A) :
  length (dict_set d k v) <= S (length d).
Proof.
  induction d as [|[k0 v0] d IH]; cbn [dict_set length]; [lia|].
  destruct (str_eqb k k0); cbn [length]; lia.
Qed.

Lemma two_keys {A} (d : dict A) (a b : str) :
  a <> b -> dict_get d a <> None -> dict_get d b <> None -> 2 <= length d.
Proof.
  intros Hab Ha Hb. destruct d as [|[k1 v1] [|[k2 v2] d]]; cbn [length];
    [now cbn in Ha | | lia].
  exfalso. cbn [dict_get] in Ha, Hb.
  destruct (str_eqb a k1) eqn:E1; [|congruence].
  destruct (str_eqb b k1) eqn:E2; [|congruence].
  apply str_eqb_eq in E1, E2. congruence.
Qed.

Section OneLine.
Context {U : Unicode}.

(** Past the start of a text without a line feed there is no start of a
    line, and no match of [_FIELD_START_RE]. *)
Lemma finditer_field_inside (s : str) (pos skip : nat) :
  no_nl s = true -> finditer_field_start s pos skip false = [].
Proof.
  revert pos skip. induction s as [|c s IH]; intros pos skip H;
    [reflexivity|].
  cbn [no_nl forallb] in H. apply andb_prop in H. destruct H as [Hc Hs].
  apply negb_true_iff in Hc. cbn [finditer_field_start]. rewrite Hc.
  destruct skip; now apply IH.
Qed.

Lemma finditer_field_one_line (s : str) :
  no_nl s = true -> length (finditer_field_start s 0 0 true) <= 1.
Proof.
  destruct s as [|c s]; intro H; [cbn; lia|].
  cbn [no_nl forallb] in H. apply andb_prop in H. destruct H as [Hc Hs].
  apply negb_true_iff in Hc. cbn [finditer_field_start]. rewrite Hc.
  destruct (match_field_start (c :: s)) as [[w n]|]; cbn [length];
    rewrite (finditer_field_inside s _ _ Hs); cbn [length]; lia.
Qed.

Lemma parse_matches_length (body : str) (ms : list re_match)
    (fields d : dict str) :
  parse_matches body ms fields = Ok d ->
  length d <= length fields + length ms.
Proof.
  revert fields. induction ms as [|[[w st] en] ms IH]; intros fields;
    cbn [parse_matches length].
  - intro H. injection H as <-. lia.
  - destruct (_extract_value _) as [v|]; cbn [bind]; [|discriminate].
    intro H. apply IH in H.
    pose proof (dict_set_length fields (str_lower w) v). lia.
Qed.

(** The body of a record is a part of the text. *)
Lemma extract_entry_part (p : N -> bool) (s : str) (m : re_match) :
  forallb p s = true -> forallb p (snd (extract_entry s m)) = true.
Proof.
  intro H. destruct m as [[w st] en]. unfold extract_entry, slice.
  destruct (find 44%N _); cbn [snd]; [|reflexivity].
  now apply forallb_skipn, forallb_firstn, forallb_skipn.
Qed.

(** X7. A record that is written on one line is never parsed: on a text
    without a line feed [from_bibtex_string] returns no entry, since a
    field is only found at the start of a line and no class takes less
    than an author, a title and a year. *)
Theorem one_line_record_fails (s : str) :
  no_nl s = true -> forall e, from_bibtex_string s <> Ok e.
Proof.
  intros Hs e H.
  destruct (_extract_entries s) as [|[[t k] body] [|x l]] eqn:E;
    try (unfold from_bibtex_string in H; rewrite E in H; discriminate).
  rewrite (from_bibtex_string_one s t k body E) in H.
  assert (Hb : no_nl body = true).
  { unfold _extract_entries in E.
    destruct (finditer_entry_start s 0 0) as [|m ms]; [discriminate|].
    cbn [map] in E. injection E as E _.
    pose proof (extract_entry_part (fun c => negb (c =? 10)%N) s m Hs) as P.
    now rewrite E in P. }
  destruct (dict_get _TYPE_MAP (str_lower t)) as [c|]; [|discriminate].
  destruct (_parse_fields body) as [fields|] eqn:E1; cbn [bind] in H;
    [|discriminate].
  destruct (_common_kwargs fields k) as [kw|] eqn:E2; cbn [bind] in H;
    [|discriminate].
  destruct (type_kwargs c fields (str_lower t)) as [extra|] eqn:E3;
    cbn [bind] in H; [|discriminate].
  destruct (new_inv _ _ _ H) as [Hbind _].
  apply bind_args_binds in Hbind. destruct Hbind as [_ Hreq].
  assert (Ha : dict_get fields "author" <> None).
  { pose proof (Hreq "author" ltac:(now left)) as R.
    rewrite (kwargs_lookup c fields k (str_lower t) kw extra "author" E2 E3)
      in R.
    cbn in R. now destruct (dict_get fields "author"). }
  assert (Ht : dict_get fields "title" <> None).
  { pose proof (Hreq "title" ltac:(right; now left)) as R.
    rewrite (kwargs_lookup c fields k (str_lower t) kw extra "title" E2 E3)
      in R.
    cbn in R. now destruct (dict_get fields "title"). }
  pose proof (two_keys fields "author" "title" ltac:(discriminate) Ha Ht) as L.
  unfold _parse_fields in E1. apply parse_matches_length in E1.
  pose proof (finditer_field_one_line body Hb). cbn [length] in E1. lia.
Qed.

End OneLine.

(** ** The text around a record *)

Section Around.
Context {U : Unicode}.

Lemma finditer_entry_shift (s : str) (p q skip : nat) :
  finditer_entry_start s (p + q) skip
  = map (shift_match q) (finditer_entry_start s p skip).
Proof.
  revert p skip. induction s as [|c s IH]; intros p skip; [reflexivity|].
  cbn [finditer_entry_start]. destruct skip as [|k].
  - destruct (match_entry_start (c :: s)) as [[w n]|]; cbn [map].
    + f_equal.
      * unfold shift_match. cbn [fst snd]. f_equal. lia.
      * exact (IH (S p) (n - 1)).
    + exact (IH (S p) 0).
  - exact (IH (S p) k).
Qed.

Lemma finditer_entry_end (s : str) (pos skip : nat) (m : re_match) :
  In m (finditer_entry_start s pos skip) -> 1 <= snd m.
Proof.
  revert pos skip. induction s as [|c s IH]; intros pos skip;
    [contradiction|].
  cbn [finditer_entry_start]. destruct skip as [|k]; [|apply IH].
  destruct (match_entry_start (c :: s)) as [[w n]|] eqn:E; [|apply IH].
  intros [<-|H]; [|now apply IH in H].
  apply match_entry_start_shape in E.
  destruct E as [sp [rest [_ [_ [_ [_ ->]]]]]]. cbn [snd]. lia.
Qed.

Lemma scan_braces_shift (x : str) (pos q : nat) (d : Z) :
  scan_braces x (pos + q) d = scan_braces x pos d + q.
Proof.
  revert pos d. induction x as [|c x IH]; intros pos d; [reflexivity|].
  cbn [scan_braces]. destruct (d >? 0)%Z; [|reflexivity].
  exact (IH (S pos) _).
Qed.

Lemma scan_braces_bound (x : str) (pos : nat) (d : Z) :
  pos <= scan_braces x pos d.
Proof.
  revert pos d. induction x as [|c x IH]; intros pos d; cbn [scan_braces];
    [lia|].
  destruct (d >? 0)%Z; [|lia].
  etransitivity; [|apply IH]. lia.
Qed.

Lemma skipn_lead {A} (x s : list A) (n : nat) :
  skipn (n + length x) (x ++ s) = skipn n s.
Proof.
  rewrite <- skipn_skipn. now rewrite skipn_app_exact.
Qed.

Lemma extract_entry_lead (pre s : str) (m : re_match) :
  1 <= snd m ->
  extract_entry (pre ++ s) (shift_match (length pre) m) = extract_entry s m.
Proof.
  destruct m as [[w st] en]. cbn [snd]. intro Hen.
  unfold extract_entry, shift_match. cbn [fst snd].
  rewrite skipn_lead, scan_braces_shift.
  pose proof (scan_braces_bound (skipn en s) en 1) as B.
  unfold slice. rewrite skipn_lead.
  replace (scan_braces (skipn en s) en 1 + length pre - 1
           - (en + length pre))
    with (scan_braces (skipn en s) en 1 - 1 - en) by lia.
  reflexivity.
Qed.

Lemma extract_entries_lead (pre s : str) :
  no_at pre = true -> _extract_entries (pre ++ s) = _extract_entries s.
Proof.
  intro H. unfold _extract_entries.
  rewrite (finditer_entry_lead pre s 0 H).
  rewrite (finditer_entry_shift s 0 (length pre) 0). rewrite map_map.
  apply map_ext_in. intros m Hm. apply extract_entry_lead.
  exact (finditer_entry_end s 0 0 m Hm).
Qed.

(** X8. The text before the record is ignored when it holds no at sign:
    with it and without it [from_bibtex_string] returns the same. *)
Theorem leading_text_ignored (pre s : str) :
  no_at pre = true -> from_bibtex_string (pre ++ s) = from_bibtex_string s.
Proof.
  intro H. unfold from_bibtex_string.
  now rewrite (extract_entries_lead pre s H).
Qed.

(** The scan of a record whose braces close, with any text after it. *)
Lemma scan_braces_closed (v post : str) (pos : nat) :
  balanced v = true ->
  scan_braces (v ++ 125%N :: post) pos 1 = pos + length v + 1.
Proof.
  intro Hv. unfold balanced in Hv.
  destruct (nesting v 0) as [[|d]|] eqn:N; try discriminate.
  change 1%Z with (Z.of_nat 0 + 1)%Z.
  rewrite (scan_braces_nested v _ pos 0 0 N).
  cbn [scan_braces]. change (Z.of_nat 0 + 1 >? 0)%Z with true. cbv iota.
  change (125 =? 123)%N with false. change (125 =? 125)%N with true.
  cbv iota. change (Z.of_nat 0 + 1 - 1)%Z with 0%Z.
  destruct post; cbn [scan_braces]; [|change (0 >? 0)%Z with false; cbv iota];
    lia.
Qed.

Lemma entry_start_only (w sp rest : str) :
  w <> [] -> forallb is_word w = true -> forallb is_space sp = true ->
  no_at rest = true ->
  finditer_entry_start (64%N :: w ++ sp ++ 123%N :: rest) 0 0
  = [(w, 0, length w + length sp + 2)].
Proof.
  intros Hne Hw Hsp Hrest. cbn [finditer_entry_start].
  rewrite (match_entry_start_here w sp rest Hne Hw Hsp). cbn [Nat.add].
  f_equal.
  replace (length w + length sp + 2 - 1)
    with (length (w ++ sp ++ [123%N]))
    by (rewrite !length_app; cbn [length]; lia).
  replace (w ++ sp ++ 123%N :: rest) with ((w ++ sp ++ [123%N]) ++ rest)
    by (rewrite <- !app_assoc; reflexivity).
  rewrite finditer_entry_skip. now apply finditer_entry_no_at.
Qed.

(** X9. The record ends at the brace that closes it: when the braces of
    the record are balanced and no at sign comes after its start, the
    text after the closing brace is ignored. *)
Theorem trailing_text_ignored (w sp v post : str) :
  w <> [] -> forallb is_word w = true -> forallb is_space sp = true ->
  balanced v = true -> no_at v = true -> no_at post = true ->
  from_bibtex_string ("@" ++ w ++ sp ++ "{" ++ v ++ "}" ++ post)
  = from_bibtex_string ("@" ++ w ++ sp ++ "{" ++ v ++ "}").
Proof.
  intros Hne Hw Hsp Hv Hnv Hnp.
  assert (E : forall post', no_at post' = true ->
                _extract_entries ("@" ++ w ++ sp ++ "{" ++ v ++ "}" ++ post')
                = [extract_entry ("@" ++ w ++ sp ++ "{" ++ v ++ "}")
                     (w, 0, length w + length sp + 2)]).
  { intros post' Hp. unfold _extract_entries. cbn [app].
    rewrite (entry_start_only w sp (v ++ 125%N :: post') Hne Hw Hsp)
      by (rewrite no_at_app, Hnv; exact Hp).
    cbn [map]. f_equal. unfold extract_entry.
    assert (S1 : forall t,
               skipn (length w + length sp + 2)
                 (64%N :: w ++ sp ++ 123%N :: t) = t).
    { intro t.
      replace (64%N :: w ++ sp ++ 123%N :: t)
        with ((64%N :: w ++ sp ++ [123%N]) ++ t)
        by (cbn [app]; rewrite <- !app_assoc; reflexivity).
      replace (length w + length sp + 2)
        with (length (64%N :: w ++ sp ++ [123%N]))
        by (cbn [length]; rewrite !length_app; cbn [length]; lia).
      apply skipn_app_exact. }
    unfold slice. rewrite !S1.
    rewrite !scan_braces_closed by exact Hv.
    replace (length w + length sp + 2 + length v + 1 - 1
             - (length w + length sp + 2)) with (length v) by lia.
    change (v ++ [125%N]) with (v ++ 125%N :: []).
    now rewrite !firstn_app_exact. }
  unfold from_bibtex_string.
  rewrite (E post Hnp).
  pose proof (E [] eq_refl) as E0. rewrite app_nil_r in E0.
  now rewrite E0.
Qed.

End Around.

(** ** The errors of the parser *)

Section ParserErrors.
Context {U : Unicode}.

(** The keywords that the parser passes are parameters of the class. *)
Lemma kwargs_keys (c : variant) (fields : dict str) (key et : str)
    (kw extra : dict val) (n : str) :
  _common_kwargs fields key = Ok kw ->
  type_kwargs c fields et = Ok extra ->
  In n (dict_keys (dict_update kw extra)) -> In n (params c).
Proof.
  intros H1 H2 Hin.
  destruct (dict_get (dict_update kw extra) n) as [v|] eqn:G.
  2:{ apply dict_get_none in G. contradiction. }
  revert G. rewrite (kwargs_lookup c fields key et kw extra n H1 H2).
  destruct (dict_get (field_table c) n) as [kd|] eqn:T.
  - intros _. apply dict_get_In in T. exact (table_params _ _ _ T).
  - destruct (str_eqb n "key") eqn:E.
    + apply str_eqb_eq in E. subst n. intros _. apply mem_In.
      now destruct c.
    + destruct c; try discriminate.
      destruct (str_eqb n "thesis_type") eqn:E2; [|discriminate].
      apply str_eqb_eq in E2. subst n. intros _. apply mem_In.
      reflexivity.
Qed.

(** The call that the parser makes fails in the checks of the
    constructor or for a parameter that the record does not give. *)
Lemma parsed_call_error (c : variant) (fields : dict str) (key et : str)
    (kw extra : dict val) (e : error) :
  _common_kwargs fields key = Ok kw ->
  type_kwargs c fields et = Ok extra ->
  new c (dict_update kw extra) = Err e ->
  (exists why, e = InvalidEntry why) \/ exists name, e = ArgumentMissing name.
Proof.
  intros H1 H2 H. set (K := dict_update kw extra) in *.
  assert (Hkey : opt K "key" = VStr key).
  { unfold opt, K. rewrite (kwargs_lookup c fields key et kw extra "key" H1 H2).
    now destruct c. }
  destruct (bind_args c K) as [[]|e'] eqn:Hb.
  - destruct (violation c K) eqn:Hv.
    + destruct (new_rejects c K Hb Hv) as [why Hw].
      rewrite Hw in H. injection H as <-. left. now exists why.
    + rewrite (new_accepts c K Hb Hv), Hkey in H. discriminate.
  - rewrite (new_unbound c K e' Hb) in H. injection H as <-. right.
    unfold bind_args in Hb.
    assert (Hn : check_names (params c) K = Ok tt).
    { apply check_names_ok. intros n Hin.
      exact (kwargs_keys c fields key et kw extra n H1 H2 Hin). }
    rewrite Hn in Hb. cbn [bind] in Hb.
    now apply required_error in Hb.
Qed.

(** The errors of the stages that follow the look-up of the type. *)
Lemma record_error (c : variant) (key body et : str) (e : error) :
  (fields <- _parse_fields body ;;
   kwargs <- _common_kwargs fields key ;;
   extra <- type_kwargs c fields et ;;
   new c (dict_update kwargs extra)) = Err e ->
  e = SubstringNotFound \/ e = NumericFieldParseError
  \/ (exists why, e = InvalidEntry why)
  \/ exists name, e = ArgumentMissing name.
Proof.
  destruct (_parse_fields body) as [fields|e1] eqn:E1; cbn [bind].
  2:{ intro H. injection H as <-. apply parse_matches_error in E1. auto. }
  destruct (_common_kwargs fields key) as [kw|e2] eqn:E2; cbn [bind].
  2:{ intro H. injection H as <-. apply common_kwargs_error in E2. auto. }
  destruct (type_kwargs c fields et) as [extra|e3] eqn:E3; cbn [bind].
  2:{ intro H. injection H as <-. apply type_kwargs_error in E3. auto. }
  intro H. right. right.
  exact (parsed_call_error c fields key et kw extra e E2 E3 H).
Qed.

(** X10. [from_bibtex_string] fails in seven ways only: no record, more
    than one record, a type that is not supported, a numeric field that
    is no number, a quote that is not closed, a check of the constructor,
    a required parameter that the record does not give.  It never passes
    a keyword that the constructor does not take, and never a value of
    another type than the annotation of the key. *)
Theorem parser_errors (s : str) (e : error) :
  from_bibtex_string s = Err e ->
  parser_error e /\ e <> ArgumentUnexpected /\ e <> IllTyped.
Proof.
  intro H.
  assert (P : parser_error e);
    [|split; [exact P|]; split; intros ->; exact P].
  destruct (_extract_entries s) as [|[[t k] body] [|x l]] eqn:E;
    try (unfold from_bibtex_string in H; rewrite E in H;
         injection H as <-; exact I).
  rewrite (from_bibtex_string_one s t k body E) in H.
  destruct (dict_get _TYPE_MAP (str_lower t)) as [c|].
  - apply record_error in H.
    destruct H as [->|[->|[[why ->]|[name ->]]]]; exact I.
  - injection H as <-. exact I.
Qed.

(** X11. [from_bibtex_string] fails for the type of the record exactly
    when the text holds one record and the type of that record, in lower
    case, is none of article, book, inproceedings, techreport, phdthesis,
    mastersthesis, software and misc; the error names the type in lower
    case. *)
Theorem unsupported_type (s tok : str) :
  from_bibtex_string s = Err (UnsupportedEntryType tok)
  <-> exists t k body,
        _extract_entries s = [(t, k, body)]
        /\ tok = str_lower t
        /\ dict_get _TYPE_MAP tok = None.
Proof.
  split.
  - intro H.
    destruct (_extract_entries s) as [|[[t k] body] [|x l]] eqn:E;
      try (unfold from_bibtex_string in H; rewrite E in H; discriminate).
    rewrite (from_bibtex_string_one s t k body E) in H.
    destruct (dict_get _TYPE_MAP (str_lower t)) as [c|] eqn:T.
    + apply record_error in H.
      destruct H as [H|[H|[[why H]|[name H]]]]; discriminate.
    + injection H as <-. now exists t, k, body.
  - intros [t [k [body [E [-> T]]]]].
    rewrite (from_bibtex_string_one s t k body E). now rewrite T.
Qed.

End ParserErrors.

(** ** The lines of a record *)

Lemma dict_get_update_rev {A} (d l : dict A) (k : str) :
  dict_get (dict_update d l) k
  = match dict_get (rev l) k with
    | Some v => Some v
    | None => dict_get d k
    end.
Proof.
  unfold dict_update. revert d.
  induction l as [|[k0 v0] l IH]; intro d; [reflexivity|].
  cbn [fold_left fst snd rev]. rewrite IH, dict_get_app, dict_get_set.
  cbn [dict_get]. destruct (dict_get (rev l) k); [reflexivity|].
  now destruct (str_eqb k k0).
Qed.

Lemma dict_update_keys_nodup {A} (d l : dict A) :
  NoDup (dict_keys d) -> NoDup (dict_keys (dict_update d l)).
Proof.
  unfold dict_update. revert d.
  induction l as [|[k0 v0] l IH]; intros d H; [exact H|].
  cbn [fold_left fst snd]. apply IH. now apply dict_set_nodup.
Qed.

Section Lines.
Context {U : Unicode}.

(** X12. The lines of a record are read back as they are written: from
    the lines [name = {value},] of any list of fields with names in lower
    case and values without brace, at sign or line feed,
    [_parse_fields] returns a dict that gives for every name the value
    of its last line, and that has every name once. *)
Theorem parse_fields_last_wins (fields : list (str * str)) :
  forallb field_ok fields = true ->
  exists d,
    _parse_fields (body_of fields) = Ok d
    /\ (forall n, dict_get d n = dict_get (rev fields) n)
    /\ NoDup (dict_keys d).
Proof.
  intro H. exists (dict_update [] fields).
  split; [exact (parse_fields_body fields (fields_ok_readable fields H))|].
  split.
  - intro n. rewrite dict_get_update_rev. cbn [dict_get].
    now destruct (dict_get (rev fields) n).
  - apply dict_update_keys_nodup. constructor.
Qed.

Lemma copy_field_ext (f1 f2 : dict str) (name : str) (kw : dict val) :
  dict_get f1 name = dict_get f2 name ->
  copy_field f1 name kw = copy_field f2 name kw.
Proof. unfold copy_field. now intros ->. Qed.

Lemma copy_int_field_ext (f1 f2 : dict str) (name : str) (kw : dict val) :
  dict_get f1 name = dict_get f2 name ->
  copy_int_field f1 name kw = copy_int_field f2 name kw.
Proof. unfold copy_int_field. now intros ->. Qed.

Lemma copy_authors_field_ext (f1 f2 : dict str) (name : str)
    (kw : dict val) :
  dict_get f1 name = dict_get f2 name ->
  copy_authors_field f1 name kw = copy_authors_field f2 name kw.
Proof. unfold copy_authors_field. now intros ->. Qed.

(** The keywords depend on the fields of the class only. *)
Lemma kwargs_ext (c : variant) (f1 f2 : dict str) (key et : str) :
  (forall n, dict_get (field_table c) n <> None ->
             dict_get f1 n = dict_get f2 n) ->
  _common_kwargs f1 key = _common_kwargs f2 key
  /\ type_kwargs c f1 et = type_kwargs c f2 et.
Proof.
  intro H.
  assert (Hc : forall n, In n ["author"; "title"; "year"; "doi"; "url";
                               "note"] ->
                         dict_get f1 n = dict_get f2 n).
  { intros n Hn. apply H. destruct c; cbn in Hn;
      repeat (destruct Hn as [<-|Hn]; [discriminate|]); contradiction. }
  split.
  - unfold _common_kwargs. cbn [fold_left].
    rewrite (copy_authors_field_ext f1 f2 "author") by (apply Hc; cbn; tauto).
    rewrite (copy_field_ext f1 f2 "title") by (apply Hc; cbn; tauto).
    rewrite (copy_int_field_ext f1 f2 "year") by (apply Hc; cbn; tauto).
    destruct (copy_int_field f2 "year" _) as [kw|]; cbn [bind];
      [|reflexivity].
    rewrite (copy_field_ext f1 f2 "doi") by (apply Hc; cbn; tauto).
    rewrite (copy_field_ext f1 f2 "url") by (apply Hc; cbn; tauto).
    rewrite (copy_field_ext f1 f2 "note") by (apply Hc; cbn; tauto).
    reflexivity.
  - destruct c; unfold type_kwargs, _TYPE_KWARGS, _article_kwargs,
      _book_kwargs, _inproceedings_kwargs, _techreport_kwargs,
      _thesis_kwargs, _software_kwargs; cbn [fold_left];
      repeat match goal with
             | |- context [copy_field f1 ?n ?kw] =>
                 rewrite (copy_field_ext f1 f2 n kw)
                   by (apply H; discriminate)
             | |- context [copy_int_field f1 ?n ?kw] =>
                 rewrite (copy_int_field_ext f1 f2 n kw)
                   by (apply H; discriminate)
             | |- context [copy_authors_field f1 ?n ?kw] =>
                 rewrite (copy_authors_field_ext f1 f2 n kw)
                   by (apply H; discriminate)
             | |- context [bind (copy_int_field f2 ?n ?kw)] =>
                 destruct (copy_int_field f2 n kw); cbn [bind]
             end; reflexivity.
Qed.

Lemma dict_get_without (l1 l2 : list (str * str)) (n v m : str) :
  m <> n ->
  dict_get (rev (l1 ++ (n, v) :: l2)) m = dict_get (rev (l1 ++ l2)) m.
Proof.
  intro Hm. rewrite !rev_app_distr. cbn [rev].
  rewrite <- app_assoc, !dict_get_app. cbn [app dict_get].
  apply str_eqb_neq in Hm. now rewrite Hm.
Qed.

(** X13. A line with a field that the class of the record does not read
    changes nothing: with it and without it [from_bibtex_string] returns
    the same for a record as [__str__] lays it out, whatever its type,
    its other lines and the place of the line. *)
Theorem unknown_field_ignored (bt key : str) (l1 l2 : list (str * str))
    (n v : str) :
  lower_name bt = true -> plain_key key = true ->
  forallb field_ok (l1 ++ (n, v) :: l2) = true ->
  (forall c, dict_get _TYPE_MAP bt = Some c ->
             dict_get (field_table c) n = None) ->
  from_bibtex_string (render bt key (l1 ++ (n, v) :: l2))
  = from_bibtex_string (render bt key (l1 ++ l2)).
Proof.
  intros Hbt Hkey Hf Hn.
  assert (Hf' : forallb field_ok (l1 ++ l2) = true).
  { rewrite forallb_app in *. cbn [forallb] in Hf.
    apply andb_prop in Hf. destruct Hf as [H1 H2].
    apply andb_prop in H2. destruct H2 as [_ H2]. now rewrite H1, H2. }
  apply plain_key_readable in Hkey.
  apply fields_ok_readable in Hf, Hf'.
  rewrite (from_bibtex_string_one _ _ _ _
             (extract_entries_render bt key _ Hbt Hkey Hf)).
  rewrite (from_bibtex_string_one _ _ _ _
             (extract_entries_render bt key _ Hbt Hkey Hf')).
  rewrite (str_lower_name bt Hbt).
  destruct (dict_get _TYPE_MAP bt) as [c|] eqn:T; [|reflexivity].
  rewrite (parse_fields_body _ Hf), (parse_fields_body _ Hf').
  cbn [bind].
  destruct (kwargs_ext c (dict_update [] (l1 ++ (n, v) :: l2))
              (dict_update [] (l1 ++ l2)) key bt) as [E1 E2].
  { intros m Hm. rewrite !dict_get_update_rev.
    rewrite (dict_get_without l1 l2 n v m); [reflexivity|].
    intros ->. apply Hm. now apply Hn. }
  now rewrite E1, E2.
Qed.

End Lines.

(** ** The entries that the parser returns *)



Section Parsed.
Context {U : Unicode}.



End Parsed.

(** ** Names in normal form *)

Lemma split_ws_from_tokens (cur s : str) :
  forallb (fun c => negb (is_space c)) cur = true ->
  Forall token (split_ws_from cur s).
Proof.
  revert cur. induction s as [|c s IH]; intros cur Hcur.
  - cbn [split_ws_from]. destruct cur as [|x cur]; constructor; [|constructor].
    split; [|now rewrite forallb_rev].
    intro E. apply (f_equal (@length _)) in E. rewrite length_rev in E.
    discriminate.
  - cbn [split_ws_from]. destruct (is_space c) eqn:Ec.
    + destruct cur as [|x cur]; [now apply IH|].
      constructor; [|now apply IH].
      split; [|now rewrite forallb_rev].
      intro E. apply (f_equal (@length _)) in E. rewrite length_rev in E.
      discriminate.
    + apply IH. cbn [forallb]. now rewrite Ec.
Qed.

Lemma token_ends (t : str) :
  token t ->
  exists y z, t = y ++ [z] /\ is_space z = false.
Proof.
  intros [Hne H]. destruct (exists_last Hne) as [y [z ->]].
  exists y, z. split; [reflexivity|].
  rewrite forallb_app in H. apply andb_prop in H. destruct H as [_ H].
  cbn [forallb] in H. rewrite andb_true_r in H. now apply negb_true_iff.
Qed.

Lemma join_tokens_end (l : list str) :
  l <> [] -> Forall token l ->
  exists y z, join " " l = y ++ [z] /\ is_space z = false.
Proof.
  induction l as [|x l IH]; intros Hne H; [congruence|].
  inversion H as [|? ? Hx Hl]; subst. destruct l as [|x' l].
  - cbn [join]. now apply token_ends.
  - destruct (IH ltac:(discriminate) Hl) as [y [z [E Hz]]].
    exists (x ++ " " ++ y), z. split; [|exact Hz].
    change (join " " (x :: x' :: l)) with (x ++ " " ++ join " " (x' :: l)).
    rewrite E. now rewrite <- !app_assoc.
Qed.

Lemma Forall_last_token (l : list str) :
  l <> [] -> Forall token l -> token (last l []).
Proof.
  induction l as [|x l IH]; intros Hne H; [congruence|].
  inversion H as [|? ? Hx Hl]; subst. destruct l as [|x' l]; [exact Hx|].
  change (last (x :: x' :: l) []) with (last (x' :: l) []).
  apply IH; [discriminate | exact Hl].
Qed.

Lemma Forall_removelast {A} (P : A -> Prop) (l : list A) :
  Forall P l -> Forall P (removelast l).
Proof.
  induction l as [|x l IH]; intro H; [constructor|].
  inversion H; subst. destruct l as [|x' l]; [constructor|].
  change (removelast (x :: x' :: l)) with (x :: removelast (x' :: l)).
  constructor; auto.
Qed.

(** The name that is put together of two tokens or more has no white
    space at its ends. *)
Lemma strip_reordered (parts : list str) :
  Forall token parts -> 2 <= length parts ->
  strip (last parts [] ++ ", " ++ join " " (removelast parts))
  = last parts [] ++ ", " ++ join " " (removelast parts).
Proof.
  intros H Hl.
  assert (Hne : parts <> []) by (destruct parts; [cbn in Hl; lia | discriminate]).
  destruct (Forall_last_token parts Hne H) as [Hn Hf].
  destruct (last parts []) as [|c t] eqn:El; [congruence|].
  cbn [forallb] in Hf. apply andb_prop in Hf. destruct Hf as [Hc _].
  apply negb_true_iff in Hc.
  assert (Hr : removelast parts <> []).
  { destruct parts as [|a [|b p]]; cbn in Hl; try lia. discriminate. }
  destruct (join_tokens_end _ Hr (Forall_removelast _ _ H)) as [y [z [E Hz]]].
  rewrite E.
  replace ((c :: t) ++ ", " ++ y ++ [z]) with (c :: (t ++ ", " ++ y) ++ [z])
    by (cbn [app]; now rewrite <- !app_assoc).
  now apply strip_ends.
Qed.

Lemma contains_reordered (a b : str) : contains 44%N (a ++ ", " ++ b) = true.
Proof.
  rewrite contains_app. cbn. now rewrite orb_true_r.
Qed.

Lemma normalise_author_stripped (name : str) :
  strip (_normalise_author name) = _normalise_author name.
Proof.
  unfold _normalise_author.
  destruct (contains 44%N (strip name)); [apply strip_strip|].
  destruct (Nat.leb_spec (length (split_ws (strip name))) 1);
    [apply strip_strip|].
  apply strip_reordered; [|lia]. exact (split_ws_from_tokens [] _ eq_refl).
Qed.

(** X15. [_normalise_author] brings a name to a normal form: applied to
    its own result it changes nothing, and the result has no white space
    at its ends.  So every name that [_parse_authors] returns is in that
    form, and it returns one name at least. *)
Theorem normalise_author_idempotent (name raw : str) :
  _normalise_author (_normalise_author name) = _normalise_author name
  /\ strip (_normalise_author name) = _normalise_author name
  /\ Forall (fun n => _normalise_author n = n /\ strip n = n)
       (_parse_authors raw)
  /\ 1 <= length (_parse_authors raw).
Proof.
  assert (I : forall x,
             _normalise_author (_normalise_author x) = _normalise_author x).
  { intro x. destruct (contains 44%N x) eqn:C.
    - rewrite (normalise_with_comma x C).
      rewrite normalise_with_comma by (now rewrite contains_strip).
      apply strip_strip.
    - destruct (Nat.leb_spec (length (split_ws x)) 1) as [L|L].
      + assert (E : _normalise_author x = strip x).
        { unfold _normalise_author.
          rewrite contains_strip, C, split_ws_strip by reflexivity.
          destruct (Nat.leb_spec (length (split_ws x)) 1);
            [reflexivity | lia]. }
        rewrite E. unfold _normalise_author.
        rewrite strip_strip, contains_strip, C, split_ws_strip by reflexivity.
        destruct (Nat.leb_spec (length (split_ws x)) 1); [reflexivity | lia].
      + rewrite (normalise_tokens x C) by lia.
        rewrite normalise_with_comma by apply contains_reordered.
        apply strip_reordered; [|lia].
        exact (split_ws_from_tokens [] _ eq_refl). }
  split; [apply I|]. split; [apply normalise_author_stripped|]. split.
  - unfold _parse_authors. apply Forall_forall. intros n Hn.
    apply in_map_iff in Hn. destruct Hn as [x [<- _]].
    split; [apply I | apply normalise_author_stripped].
  - unfold _parse_authors, split. rewrite length_map.
    pose proof (split_from_not_nil " and " 0 [] raw) as H.
    destruct (split_from _ _ _ _); [congruence | cbn [length]; lia].
Qed.

(** ** The type and the key of a record *)

Lemma find_before (c : N) (s : str) (i : nat) :
  find c s = Some i -> contains c (firstn i s) = false.
Proof.
  revert i. induction s as [|x s IH]; intros i H; [discriminate|].
  cbn [find] in H. destruct (x =? c)%N eqn:E.
  - injection H as <-. reflexivity.
  - destruct (find c s) as [j|]; [|discriminate]. injection H as <-.
    cbn [firstn contains existsb]. rewrite (N.eqb_sym c x), E.
    exact (IH j eq_refl).
Qed.

Section Records.
Context {U : Unicode}.

Lemma finditer_entry_word (s : str) (pos skip : nat) (m : re_match) :
  In m (finditer_entry_start s pos skip) ->
  fst (fst m) <> [] /\ forallb is_word (fst (fst m)) = true.
Proof.
  revert pos skip. induction s as [|c s IH]; intros pos skip;
    [contradiction|].
  cbn [finditer_entry_start]. destruct skip as [|k]; [|apply IH].
  destruct (match_entry_start (c :: s)) as [[w n]|] eqn:E; [|apply IH].
  intros [<-|H]; [|now apply IH in H].
  apply match_entry_start_shape in E.
  destruct E as [sp [rest [_ [Hw [Hf _]]]]]. now split.
Qed.

Lemma extract_entry_key (s : str) (m : re_match) (t k body : str) :
  extract_entry s m = (t, k, body) ->
  t = fst (fst m) /\ contains 44%N k = false /\ strip k = k.
Proof.
  destruct m as [[w st] en]. unfold extract_entry.
  destruct (find 44%N _) as [i|] eqn:F; intro H; injection H as <- <- <-.
  - split; [reflexivity|]. split; [|apply strip_strip].
    rewrite contains_strip by reflexivity. exact (find_before _ _ _ F).
  - split; [reflexivity|]. split; [|apply strip_strip].
    rewrite contains_strip by reflexivity. now apply find_none.
Qed.

(** X16. Of every record that [_extract_entries] finds, the type is a
    word of one character or more; the key holds no comma and has no
    white space at its ends.  The key of an entry that
    [from_bibtex_string] returns is the key of the one record that
    [_extract_entries] finds in the text: it is never generated from the
    author and the year, also when the record gives no key. *)
Theorem record_type_and_key (s : str) :
  Forall (fun r => let '(t, k, _) := r in
                   t <> [] /\ forallb is_word t = true
                   /\ contains 44%N k = false /\ strip k = k)
    (_extract_entries s)
  /\ forall e, from_bibtex_string s = Ok e ->
       exists t k body,
         _extract_entries s = [(t, k, body)]
         /\ attr e "key" = VStr k
         /\ contains 44%N k = false /\ strip k = k.
Proof.
  assert (A : Forall (fun r => let '(t, k, _) := r in
                   t <> [] /\ forallb is_word t = true
                   /\ contains 44%N k = false /\ strip k = k)
                (_extract_entries s)).
  { apply Forall_forall. intros [[t k] body] Hin.
    unfold _extract_entries in Hin. apply in_map_iff in Hin.
    destruct Hin as [m [E Hm]].
    apply extract_entry_key in E. destruct E as [-> [H1 H2]].
    destruct (finditer_entry_word s 0 0 m Hm) as [H3 H4]. tauto. }
  split; [exact A|].
  intros e H.
  destruct (_extract_entries s) as [|[[t k] body] [|x l]] eqn:E;
    try (unfold from_bibtex_string in H; rewrite E in H; discriminate).
  rewrite (from_bibtex_string_one s t k body E) in H.
  destruct (dict_get _TYPE_MAP (str_lower t)) as [c|] eqn:T;
    [|discriminate].
  destruct (_parse_fields body) as [fields|] eqn:E1; cbn [bind] in H;
    [|discriminate].
  destruct (_common_kwargs fields k) as [kw|] eqn:E2; cbn [bind] in H;
    [|discriminate].
  destruct (type_kwargs c fields (str_lower t)) as [extra|] eqn:E3;
    cbn [bind] in H; [|discriminate].
  destruct (new_inv _ _ _ H) as [_ [_ [k' [Hk He]]]].
  assert (Hkey : opt (dict_update kw extra) "key" = VStr k).
  { unfold opt.
    rewrite (kwargs_lookup c fields k (str_lower t) kw extra "key" E2 E3).
    now destruct c. }
  rewrite Hkey in Hk. cbn [default_key] in Hk. injection Hk as <-.
  exists t, k, body. split; [reflexivity|]. split.
  - rewrite He, attr_entry_of_params. reflexivity.
  - inversion A as [|? ? Hr _]; subst. tauto.
Qed.

End Records.

(** ** The properties at work *)

Lemma from_dict_errors_witness :
  fst (from_dict 0 [[("title", VStr "T")]]) = Err MissingTypeDiscriminator
  /\ fst (from_dict 0 [[("type", VStr "article")]])
     = Err (UnknownType (VStr "article"))
  /\ fst (from_dict 0 [("type", VStr "Article")
                       :: article_kwargs VNone VNone])
     = new Article (article_kwargs VNone VNone).
Proof.
  split; [|split].
  - pose proof (from_dict_errors 0 [[("title", VStr "T")]]) as H.
    cbv zeta in H. apply (proj1 H). left. reflexivity.
  - pose proof (from_dict_errors 0 [[("type", VStr "article")]]) as H.
    cbv zeta in H. apply (proj1 (proj2 H)).
    split; [reflexivity|]. split; [discriminate|].
    intro c. destruct c; discriminate.
  - pose proof (from_dict_errors 0 [("type", VStr "Article")
                                    :: article_kwargs VNone VNone]) as H.
    cbv zeta in H. apply (proj2 (proj2 H) Article). reflexivity.
Defined.

Lemma eq_is_equivalence_witness :
  py_eq article_a article_b = true
  /\ py_eq article_b article_a = true
  /\ py_eq article_a article_a = true
  /\ forall hash, __hash__ hash article_a = __hash__ hash article_b.
Proof.
  destruct eq_is_equivalence as [_ [_ [T H]]].
  split; [reflexivity|]. split; [reflexivity|]. split.
  - apply (T article_a article_b article_a); reflexivity.
  - intro hash. apply H. reflexivity.
Defined.

Lemma repr_fields_rebuild_witness :
  new Article (article_kwargs (VStr "custom.key") (VStr "diverse-seq"))
  = Ok article_a
  /\ exists fields e',
       repr_fields article_a = Ok fields
       /\ new Article fields = Ok e'
       /\ py_eq e' article_a = true
       /\ attr e' "key" = attr article_a "key"
       /\ attr e' "app" = VNone
       /\ forall name, name <> "app" -> attr e' name = attr article_a name.
Proof.
  split; [reflexivity|].
  apply (repr_fields_rebuild Article
           (article_kwargs (VStr "custom.key") (VStr "diverse-seq"))
           article_a ["Huttley, Gavin"] 2025); reflexivity.
Defined.

Lemma extract_value_braces_witness :
  _extract_value " {The {DNA} book}, " = Ok "The {DNA} book"
  /\ _extract_value " {The {DNA} book " = Ok "{The {DNA} book".
Proof.
  destruct (extract_value_braces " " "The {DNA} book" ", "
              eq_refl) as [H1 _].
  destruct (extract_value_braces " " "The {DNA} book " ", "
              eq_refl) as [_ H2].
  split; [apply H1; reflexivity | apply H2; discriminate].
Defined.

Lemma extract_value_quotes_witness :
  _extract_value (" " ++ [34%N] ++ "A title" ++ [34%N] ++ ",") = Ok "A title"
  /\ _extract_value ([34%N] ++ "A title,") = Err SubstringNotFound.
Proof.
  destruct extract_value_quotes as [H1 H2]. split.
  - apply (H1 " " "A title" ","); reflexivity.
  - apply (proj2 (H2 ([34%N] ++ "A title,") SubstringNotFound)).
    split; [reflexivity|]. exists "A title,". split; reflexivity.
Defined.

Lemma extract_value_bare_witness :
  _extract_value (" 2024,," ++ nl) = Ok "2024".
Proof.
  apply (extract_value_bare " " "2024" nl 2);
    try reflexivity. discriminate.
Defined.

Lemma one_line_record_fails_witness :
  no_nl "@misc{k, author = {Smith, John}, title = {T}, year = {2024},}"
  = true
  /\ forall e,
       from_bibtex_string
         "@misc{k, author = {Smith, John}, title = {T}, year = {2024},}"
       <> Ok e.
Proof.
  split; [reflexivity|].
  apply (@one_line_record_fails ascii_tables). reflexivity.
Defined.

Lemma leading_text_ignored_witness :
  from_bibtex_string ("% a comment" ++ nl ++ given_first_text)
  = from_bibtex_string given_first_text.
Proof.
  apply (@leading_text_ignored ascii_tables ("% a comment" ++ nl)).
  reflexivity.
Defined.

Lemma trailing_text_ignored_witness :
  from_bibtex_string
    ("@" ++ "misc" ++ " " ++ "{" ++ ("k," ++ nl ++ "  title = {A {B} C},"
                                     ++ nl)
     ++ "}" ++ (nl ++ "} and more"))
  = from_bibtex_string
      ("@" ++ "misc" ++ " " ++ "{" ++ ("k," ++ nl ++ "  title = {A {B} C},"
                                       ++ nl)
       ++ "}").
Proof.
  apply (@trailing_text_ignored ascii_tables "misc" " "
           ("k," ++ nl ++ "  title = {A {B} C}," ++ nl)
           (nl ++ "} and more"));
    try reflexivity. discriminate.
Defined.

Lemma parser_errors_witness :
  from_bibtex_string ("@misc{k," ++ nl ++ "  year = {MMXXIV}," ++ nl ++ "}")
  = Err NumericFieldParseError
  /\ parser_error NumericFieldParseError.
Proof.
  split; [reflexivity|].
  apply (@parser_errors ascii_tables
           ("@misc{k," ++ nl ++ "  year = {MMXXIV}," ++ nl ++ "}")
           NumericFieldParseError).
  reflexivity.
Defined.

Lemma unsupported_type_witness :
  from_bibtex_string ("@Online{k," ++ nl ++ "}")
  = Err (UnsupportedEntryType "online").
Proof.
  apply (proj2 (@unsupported_type ascii_tables ("@Online{k," ++ nl ++ "}")
                  "online")).
  exists "Online", "k", nl. repeat split; reflexivity.
Defined.

Lemma parse_fields_last_wins_witness :
  exists d,
    _parse_fields (body_of [("title", "First"); ("year", "2024");
                            ("title", "Second")]) = Ok d
    /\ dict_get d "title" = Some "Second"
    /\ NoDup (dict_keys d).
Proof.
  destruct (@parse_fields_last_wins ascii_tables
              [("title", "First"); ("year", "2024"); ("title", "Second")]
              eq_refl) as [d [H1 [H2 H3]]].
  exists d. split; [exact H1|]. split; [|exact H3].
  rewrite H2. reflexivity.
Defined.

Lemma unknown_field_ignored_witness :
  from_bibtex_string
    (render "misc" "k"
       ([("author", "Smith, John")]
        ++ ("abstract", "Not read") :: [("title", "T"); ("year", "2024")]))
  = from_bibtex_string
      (render "misc" "k"
         ([("author", "Smith, John")] ++ [("title", "T"); ("year", "2024")])).
Proof.
  apply (@unknown_field_ignored ascii_tables "misc" "k"
           [("author", "Smith, John")] [("title", "T"); ("year", "2024")]
           "abstract" "Not read"); try reflexivity.
  intros c H. injection H as <-. reflexivity.
Defined.


Lemma record_type_and_key_witness :
  from_bibtex_string given_first_text = Ok surname_first
  /\ exists t k body,
       _extract_entries given_first_text = [(t, k, body)]
       /\ attr surname_first "key" = VStr k
       /\ contains 44%N k = false /\ strip k = k.
Proof.
  split; [reflexivity|].
  destruct (@record_type_and_key ascii_tables given_first_text) as [_ H].
  apply (H surname_first). reflexivity.
Defined.
